(** * Headshots: session reconciliation and photo storage, verified against the code

  A shallow embedding of the TypeScript sources

  - [src/lib/photoStorage.ts]            ([generateFileName], [withRetry], [uploadPhoto],
                                          [getUserPhotos], [deletePhoto],
                                          [getOrganizationPhotos]),
  - [mobile/src/lib/supabase.ts]         ([createResilientFetch], [getCurrentUser],
                                          [getUserProfile], [createUserProfileFromOAuth],
                                          [validateRequiredFields], [signUpWithEmail],
                                          [signInWithEmail], [getOrganizationByJoinCode]),
  - [src/context/AuthContext.tsx]        ([validateExistingSession], [checkAuthStatus],
                                          the [onAuthStateChange] listener),
  - [src/components/auth/AuthHandler.tsx] ([handleOAuthCallback]),
  - [src/pages/OrgHome.tsx]              ([handlePhotoCapture], [handleDeletePhoto]),
  - [src/pages/PostAuth.tsx]             ([handleSubmit]).

  Asynchronous functions become computations in a small state monad.  The
  state holds the remote stores (the Photo table, the object store, the
  [users] and [organizations] tables), a script of what the network and the
  identity provider do to each call, and the log of every call that was
  issued.  A computation finishes by returning, by throwing, or not at all
  ([Pending]: a promise that does not settle before any timer it is raced
  against).  A request is served by the store or not, and its promise
  resolves to the answer, resolves to an error, rejects or never settles: the
  answer of a request that was served can be lost.  A timer that wins a race
  moves the clock on by its delay.  A string is a sequence of code units,
  those below 256.  Console logging is not modelled. *)

From Stdlib Require Import ZArith String List Ascii DecimalString Lia Bool.
Import ListNotations.
Open Scope string_scope.
Open Scope Z_scope.

(** ** JavaScript basics *)

Module Js.

(** An error value: [message] as read by [error.message], [code] as read by
    [error.code] (the empty string when the error carries none). *)
Record JsError : Type := mkError { message : string; code : string }.

Definition Error (msg : string) : JsError := mkError msg "".

(** The value of [lastError] when the retry loop never ran: [null]. *)
Definition null_error : JsError := mkError "" "".

(** [haystack.includes(needle)] *)
Fixpoint includes (needle haystack : string) : bool :=
  match haystack with
  | EmptyString => String.prefix needle EmptyString
  | String _ rest => String.prefix needle haystack || includes needle rest
  end.

(** [s.startsWith(p)] *)
Definition startsWith (p s : string) : bool := String.prefix p s.

(** Truthiness of a string: only the empty string is falsy. *)
Definition truthy (s : string) : bool :=
  match s with EmptyString => false | _ => true end.

Fixpoint map_chars (f : ascii -> ascii) (s : string) : string :=
  match s with
  | EmptyString => EmptyString
  | String c rest => String (f c) (map_chars f rest)
  end.

(** White space as [trim] sees it, among the code units below 256. *)
Definition is_space (c : ascii) : bool :=
  let n := nat_of_ascii c in
  ((9 <=? n) && (n <=? 13))%nat || (n =? 32)%nat || (n =? 160)%nat.

Fixpoint trimStart (s : string) : string :=
  match s with
  | EmptyString => EmptyString
  | String c rest => if is_space c then trimStart rest else s
  end.

Definition reverse (s : string) : string :=
  string_of_list_ascii (rev (list_ascii_of_string s)).

(** [s.trim()] *)
Definition trim (s : string) : string :=
  reverse (trimStart (reverse (trimStart s))).

(** [s.toLowerCase()], on the code units below 256. *)
Definition toLowerCase (s : string) : string :=
  map_chars
    (fun c =>
       let n := nat_of_ascii c in
       if ((65 <=? n) && (n <=? 90))%nat
          || (((192 <=? n) && (n <=? 222))%nat && negb (n =? 215)%nat)
       then ascii_of_nat (n + 32) else c)
    s.

(** [s.split(sep)[0]] for a one-character separator. *)
Fixpoint before (sep : ascii) (s : string) : string :=
  match s with
  | EmptyString => EmptyString
  | String c rest => if Ascii.eqb c sep then EmptyString else String c (before sep rest)
  end.

(** Template-literal rendering of an integer. *)
Definition show (z : Z) : string := NilZero.string_of_int (Z.to_int z).

(** How an awaited computation ends. *)
Inductive completion (A : Type) : Type :=
| Return (a : A)
| Throw (e : JsError)
| Pending.
Arguments Return {A} a.
Arguments Throw {A} e.
Arguments Pending {A}.

(** Computations over a state [S]. *)
Definition M (S A : Type) : Type := S -> completion A * S.

Definition ret {S A} (a : A) : M S A := fun s => (Return a, s).

Definition throw {S A} (e : JsError) : M S A := fun s => (Throw e, s).

Definition bind {S A B} (m : M S A) (k : A -> M S B) : M S B :=
  fun s =>
    match m s with
    | (Return a, s') => k a s'
    | (Throw e, s') => (Throw e, s')
    | (Pending, s') => (Pending, s')
    end.

(** [try { body } catch (e) { handler e }] *)
Definition try_catch {S A} (body : M S A) (handler : JsError -> M S A) : M S A :=
  fun s =>
    match body s with
    | (Throw e, s') => handler e s'
    | r => r
    end.

(** [try { body } finally { cleanup }] where [cleanup] is a plain state update. *)
Definition try_finally {S A} (body : M S A) (cleanup : S -> S) : M S A :=
  fun s =>
    match body s with
    | (Pending, s') => (Pending, s')
    | (r, s') => (r, cleanup s')
    end.

(** [Promise.race([m, timeoutPromise])]: a computation that does not settle
    loses the race: the timer runs out, which is what [expire] does to the
    state (the clock moves on by the delay), and the await throws the
    timer's error.  A computation that this program races and that can stay
    unsettled sends one request or waits for one answer, and does not move
    the clock itself: when the timer wins, the clock reads the instant the
    race began plus the delay. *)
Definition race_timeout {S A} (m : M S A) (timeout : JsError) (expire : S -> S)
  : M S A :=
  fun s =>
    match m s with
    | (Pending, s') => (Throw timeout, expire s')
    | r => r
    end.

Definition modify {S} (f : S -> S) : M S unit := fun s => (Return tt, f s).

Definition gets {S A} (f : S -> A) : M S A := fun s => (Return (f s), s).

(** A [{ data, error }] answer of the Supabase client. *)
Record Response (T : Type) : Type := mkResponse
  { resp_data : option T; resp_error : option JsError }.
Arguments mkResponse {T} _ _.
Arguments resp_data {T} _.
Arguments resp_error {T} _.

Definition answer {T} (r : JsError + T) : Response T :=
  match r with
  | inr v => mkResponse (Some v) None
  | inl e => mkResponse None (Some e)
  end.

(** [m] keeps the state predicate [I], however it ends. *)
Definition keeps {S A} (I : S -> Prop) (m : M S A) : Prop :=
  forall s, I s -> I (snd (m s)).

(** Hoare triples: from a state satisfying [P], [m] ends in a completion and
    state related by [Q]. *)
Definition hoare {S A} (P : S -> Prop) (m : M S A)
    (Q : completion A -> S -> Prop) : Prop :=
  forall s, P s -> Q (fst (m s)) (snd (m s)).

(** A postcondition by cases: [R] on return, [E] on throw, never pending. *)
Definition post {S A} (R : A -> S -> Prop) (E : S -> Prop)
  : completion A -> S -> Prop :=
  fun c s =>
    match c with
    | Return a => R a s
    | Throw _ => E s
    | Pending => False
    end.

Definition settles {A} (c : completion A) : Prop :=
  match c with Pending => False | _ => True end.

End Js.
Import Js.

Declare Scope js_scope.
Delimit Scope js_scope with js.
Notation "x <- c1 ;; c2" := (bind c1 (fun x => c2))
(at level 61, c1 at next level, right associativity) : js_scope.
Notation "c1 ;; c2" := (bind c1 (fun _ => c2))
(at level 61, right associativity) : js_scope.
Open Scope js_scope.

(** ** src/lib/photoStorage.ts *)

Module PhotoStorage.

Record Photo : Type := mkPhoto
  { id : nat; takenbyuserId : string; imageurl : string; created_at : Z }.

(** The fields of a browser [File] that the code reads. *)
Record File : Type := mkFile { name : string; type : string; size : Z }.

Record UploadData : Type := mkData
  { data_id : nat; data_imageurl : string; data_takenbyuserId : string }.

Record PhotoUploadResult : Type := mkResult
  { success : bool; data : option UploadData; error : option string }.

Definition failure (msg : string) : PhotoUploadResult := mkResult false None (Some msg).

Definition STORAGE_BUCKET : string := "photos".
Definition MAX_PHOTOS_PER_USER : Z := 5.
Definition MAX_FILE_SIZE : Z := 10 * 1024 * 1024.

(** What the network does to one request.  [Works]: the store serves it and
    the client resolves to its answer.  [Fails], [Rejects], [Hangs]: the
    request does not reach the store, and the client resolves to an error
    result, or its promise rejects, or never settles.  [ServedFails],
    [ServedRejects], [ServedHangs]: the store serves the request and the
    answer is lost; the client sees the same three things. *)
Inductive Fault : Type :=
| Works
| Fails (e : JsError)
| Rejects (e : JsError)
| Hangs
| ServedFails (e : JsError)
| ServedRejects (e : JsError)
| ServedHangs.

(** Calls that leave the function: requests to the two stores, and timers. *)
Inductive Call : Type :=
| CountSelect (userId : string)
| StorageUpload (path : string)
| PhotosInsert (userId url : string)
| StorageRemove (path : string)
| Sleep (ms : Z).

(** The two stores and the clock. [public_url] is the storage client's
    [getPublicUrl]. *)
Record World : Type := mkWorld
  { photos : list Photo;
    objects : list string;
    clock : Z;
    next_id : nat;
    public_url : string -> string }.

Record State : Type := mkState
  { world : World; faults : list Fault; trace : list Call }.

Definition set_world (w : World) (s : State) : State :=
  mkState w (faults s) (trace s).

Definition log (c : Call) (s : State) : State :=
  mkState (world s) (faults s) (trace s ++ [c]).

(** The fault of the next request; past the end of the script requests work. *)
Definition next_fault (s : State) : Fault :=
  match faults s with [] => Works | f :: _ => f end.

Definition pop_fault (s : State) : State :=
  mkState (world s) (tl (faults s)) (trace s).

(** The promise of the request never settles. *)
Definition hangs (f : Fault) : bool :=
  match f with Hangs | ServedHangs => true | _ => false end.

(** Every request of the script gets an answer, an error or a rejection. *)
Definition settling (script : list Fault) : bool :=
  forallb (fun f => negb (hangs f)) script.

(** What is left of the script settles every request. *)
Definition calm (s : State) : Prop := settling (faults s) = true.

(** One request: logged, then served by the store or not, and answered or
    not, as the network has it. *)
Definition request {T} (c : Call) (serve : World -> (JsError + T) * World)
  : M State (Response T) :=
  fun s =>
    let s1 := log c (pop_fault s) in
    match next_fault s with
    | Works =>
        let (r, w) := serve (world s1) in (Return (answer r), set_world w s1)
    | Fails e => (Return (mkResponse None (Some e)), s1)
    | Rejects e => (Throw e, s1)
    | Hangs => (Pending, s1)
    | ServedFails e =>
        (Return (mkResponse None (Some e)), set_world (snd (serve (world s1))) s1)
    | ServedRejects e => (Throw e, set_world (snd (serve (world s1))) s1)
    | ServedHangs => (Pending, set_world (snd (serve (world s1))) s1)
    end.

(** [await new Promise(resolve => setTimeout(resolve, ms))] *)
Definition sleep (ms : Z) : M State unit :=
  fun s =>
    let w := world s in
    (Return tt,
     log (Sleep ms)
       (set_world (mkWorld (photos w) (objects w) (clock w + ms) (next_id w) (public_url w)) s)).

Definition owned_by (userId : string) (p : Photo) : bool :=
  String.eqb (takenbyuserId p) userId.

(** [from('photos').select('id').eq('takenbyuserId', userId).limit(10)] *)
Definition count_select (userId : string) : M State (Response (list nat)) :=
  request (CountSelect userId)
    (fun w => (inr (map id (firstn 10 (filter (owned_by userId) (photos w)))), w)).

(** [storage.from(STORAGE_BUCKET).upload(fileName, file, { upsert: false })]:
    an existing object is not overwritten. *)
Definition storage_upload (fileName : string) : M State (Response string) :=
  request (StorageUpload fileName)
    (fun w =>
       if existsb (String.eqb fileName) (objects w)
       then (inl (Error "The resource already exists"), w)
       else (inr fileName,
             mkWorld (photos w) (objects w ++ [fileName]) (clock w) (next_id w) (public_url w))).

(** [from('photos').insert([{ takenbyuserId, imageurl }]).select().single()] *)
Definition photos_insert (userId url : string) : M State (Response Photo) :=
  request (PhotosInsert userId url)
    (fun w =>
       let row := mkPhoto (next_id w) userId url (clock w) in
       (inr row,
        mkWorld (photos w ++ [row]) (objects w) (clock w) (S (next_id w)) (public_url w))).

(** [storage.from(STORAGE_BUCKET).remove([fileName])] *)
Definition storage_remove (fileName : string) : M State (Response unit) :=
  request (StorageRemove fileName)
    (fun w =>
       (inr tt,
        mkWorld (photos w)
          (filter (fun k => negb (String.eqb fileName k)) (objects w))
          (clock w) (next_id w) (public_url w))).

(** The character class [[a-zA-Z0-9.-]] of the regular expression. *)
Definition in_class (c : ascii) : bool :=
  let n := nat_of_ascii c in
  ((97 <=? n) && (n <=? 122))%nat || ((65 <=? n) && (n <=? 90))%nat
  || ((48 <=? n) && (n <=? 57))%nat || (n =? 46)%nat || (n =? 45)%nat.

(** [originalName.replace(/[^a-zA-Z0-9.-]/g, '_')] *)
Definition cleanName (originalName : string) : string :=
  map_chars (fun c => if in_class c then c else "_"%char) originalName.

(** The template of the key, for the instant [timestamp = Date.now()].
    (The source also computes [extension] and never uses it.) *)
Definition fileNameAt (timestamp : Z) (organizationId userId originalName : string) : string :=
  organizationId ++ "/" ++ userId ++ "/" ++ show timestamp ++ "_" ++ cleanName originalName.

Definition generateFileName (organizationId userId originalName : string) : M State string :=
  timestamp <- gets (fun s => clock (world s)) ;;
  ret (fileNameAt timestamp organizationId userId originalName).

(** The delay of [withRetry] after a failed attempt. *)
Definition retry_delay (attempt : Z) : Z := Z.min (1000 * attempt) 2000.

(** The loop of [withRetry] from attempt number [attempt] on, with
    [remaining] iterations before [attempt <= maxRetries] fails. *)
Fixpoint withRetry_from {T} (operation : M State T) (maxRetries : Z)
    (remaining : nat) (attempt : Z) (lastError : JsError) : M State T :=
  match remaining with
  | O => throw lastError
  | S k =>
      try_catch operation
        (fun error =>
           (if attempt <? maxRetries then sleep (retry_delay attempt) else ret tt) ;;
           withRetry_from operation maxRetries k (attempt + 1) error)
  end.

Definition withRetry {T} (operation : M State T) (maxRetries : Z) : M State T :=
  withRetry_from operation maxRetries (Z.to_nat maxRetries) 1 null_error.

(** Reading a property of [data] when the answer has none throws a [TypeError]. *)
Definition TypeError : JsError := Error "Cannot read properties of null".

Definition uploadPhoto (file : File) (userId organizationId : string)
  : M State PhotoUploadResult :=
  try_catch
    (if negb (startsWith "image/" (type file)) then
       ret (failure "File must be an image")
     else if size file >? MAX_FILE_SIZE then
       ret (failure "File size must be less than 10MB")
     else
       counted <- withRetry (count_select userId) 2 ;;
       match resp_error counted with
       | Some _ => ret (failure "Failed to check existing photos")
       | None =>
           if match resp_data counted with
              | Some existingPhotos =>
                  Z.of_nat (length existingPhotos) >=? MAX_PHOTOS_PER_USER
              | None => false
              end
           then ret (failure "Maximum of 5 photos allowed per member")
           else
             fileName <- generateFileName organizationId userId (name file) ;;
             uploaded <- withRetry (storage_upload fileName) 2 ;;
             match resp_error uploaded, resp_data uploaded with
             | Some _, _ => ret (failure "Failed to upload photo to storage")
             | None, None => throw TypeError
             | None, Some _ =>
                 publicUrl <- gets (fun s => public_url (world s) fileName) ;;
                 if negb (truthy publicUrl) then
                   ret (failure "Failed to get photo URL")
                 else
                   inserted <- withRetry (photos_insert userId publicUrl) 2 ;;
                   match resp_error inserted, resp_data inserted with
                   | Some _, _ =>
                       try_catch (storage_remove fileName ;; ret tt) (fun _ => ret tt) ;;
                       ret (failure "Failed to save photo metadata")
                   | None, None => throw TypeError
                   | None, Some photoData =>
                       ret (mkResult true
                              (Some (mkData (id photoData) (imageurl photoData)
                                       (takenbyuserId photoData)))
                              None)
                   end
             end
       end)
    (fun _ => ret (failure "An unexpected error occurred during upload")).


(** Number of Photo rows of one member. *)
Definition photo_count (userId : string) (w : World) : nat :=
  length (filter (owned_by userId) (photos w)).


(** The sanitisation as the specification words it: characters outside the
    class are removed. *)
Fixpoint strip_chars (keep : ascii -> bool) (s : string) : string :=
  match s with
  | EmptyString => EmptyString
  | String c rest =>
      if keep c then String c (strip_chars keep rest) else strip_chars keep rest
  end.

Fixpoint all_chars (p : ascii -> bool) (s : string) : bool :=
  match s with
  | EmptyString => true
  | String c rest => p c && all_chars p rest
  end.

Definition spec_fileNameAt (timestamp : Z) (organizationId userId originalName : string) : string :=
  organizationId ++ "/" ++ userId ++ "/" ++ show timestamp ++ "_"
    ++ strip_chars in_class originalName.

(** *** Predicates used to state what an upload does *)

(** A state predicate that timers do not disturb. *)
Definition timer_stable (I : State -> Prop) : Prop :=
  forall ms s, I s -> I (snd (sleep ms s)).

(** The answer to the count query tells the number of rows, up to ten. *)
Definition count_answer (userId : string) (s0 : State) (a : Response (list nat)) : Prop :=
  resp_error a = None ->
  exists l, resp_data a = Some l /\
            length l = Nat.min 10 (photo_count userId (world s0)).

(** A file that passes the validation of [uploadPhoto]. *)
Definition valid_file (file : File) : Prop :=
  startsWith "image/" (type file) = true /\ size file <= MAX_FILE_SIZE.

End PhotoStorage.

(** ** mobile/src/lib/supabase.ts *)

Module Supabase.

(** The fields of the identity provider's [User] that the code reads; an
    absent field is the empty string, which JavaScript also treats as falsy. *)
Record User : Type := mkUser
  { user_id : string; user_email : string;
    meta_full_name : string; meta_name : string }.

Record Session : Type := mkSession
  { session_user : User; access_token : string; expires_at : option Z }.

Record UserRow : Type := mkRow
  { row_id : string; row_name : string; row_email : string;
    organization_id : string; role : string }.

Record Organization : Type := mkOrg
  { org_id : string; org_name : string; join_code : string }.

(** A row of [users] with the organization it embeds. *)
Record Profile : Type := mkProfile
  { profile_row : UserRow; organizations : option Organization }.

(** How one call to the identity provider ends. *)
Inductive Outcome (T : Type) : Type :=
| Fulfilled (value : T)
| Rejected (reason : JsError)
| Unsettled.
Arguments Fulfilled {T} value.
Arguments Rejected {T} reason.
Arguments Unsettled {T}.

(** What the network does to one database request, as in the photo storage:
    served and answered; not served, with an error result, a rejection or a
    promise that does not settle; or served with the answer lost. *)
Inductive Fault : Type :=
| Works
| Fails (e : JsError)
| Rejects (e : JsError)
| Hangs
| ServedFails (e : JsError)
| ServedRejects (e : JsError)
| ServedHangs.

Inductive Call : Type :=
| GetUser
| GetSession
| OrgLookup (joinCode : string)
| ProfileLookup (userId : string)
| ProfileSelect (userId : string)
| UsersInsert (row : UserRow)
| Sleep (ms : Z).

Record State : Type := mkState
  { users : list UserRow;
    orgs : list Organization;
    now : Z;
    user_replies : list (Outcome (Response User));
    session_replies : list (Outcome (Response Session));
    faults : list Fault;
    trace : list Call }.

Definition log (c : Call) (s : State) : State :=
  mkState (users s) (orgs s) (now s) (user_replies s) (session_replies s)
    (faults s) (trace s ++ [c]).

Definition set_users (l : list UserRow) (s : State) : State :=
  mkState l (orgs s) (now s) (user_replies s) (session_replies s) (faults s) (trace s).

(** A signed-out client: [getUser] resolves to the missing-session error. *)
Definition no_user : Outcome (Response User) :=
  Fulfilled (mkResponse None (Some (Error "Auth session missing!"))).

(** A signed-out client: [getSession] resolves to no session and no error. *)
Definition no_session : Outcome (Response Session) :=
  Fulfilled (mkResponse None None).

(** Replies past the end of a script are those of a signed-out client. *)
Definition next_user_reply (s : State) : Outcome (Response User) :=
  match user_replies s with [] => no_user | r :: _ => r end.

Definition next_session_reply (s : State) : Outcome (Response Session) :=
  match session_replies s with [] => no_session | r :: _ => r end.

Definition pop_user_reply (s : State) : State :=
  mkState (users s) (orgs s) (now s) (tl (user_replies s)) (session_replies s)
    (faults s) (trace s).

Definition pop_session_reply (s : State) : State :=
  mkState (users s) (orgs s) (now s) (user_replies s) (tl (session_replies s))
    (faults s) (trace s).

Definition next_fault (s : State) : Fault :=
  match faults s with [] => Works | f :: _ => f end.

Definition pop_fault (s : State) : State :=
  mkState (users s) (orgs s) (now s) (user_replies s) (session_replies s)
    (tl (faults s)) (trace s).

Definition await {T} (o : Outcome T) : M State T :=
  fun s =>
    match o with
    | Fulfilled v => (Return v, s)
    | Rejected e => (Throw e, s)
    | Unsettled => (Pending, s)
    end.

(** [await supabase.auth.getSession()] *)
Definition auth_getSession : M State (Response Session) :=
  fun s => await (next_session_reply s) (log GetSession (pop_session_reply s)).

(** [await new Promise(resolve => setTimeout(resolve, ms))] *)
Definition sleep (ms : Z) : M State unit :=
  fun s =>
    (Return tt,
     log (Sleep ms)
       (mkState (users s) (orgs s) (now s + ms) (user_replies s) (session_replies s)
          (faults s) (trace s))).

(** The clock after [ms] milliseconds. *)
Definition elapse (ms : Z) (s : State) : State :=
  mkState (users s) (orgs s) (now s + ms) (user_replies s) (session_replies s)
    (faults s) (trace s).

(** One database request. *)
Definition request {T} (c : Call) (serve : State -> (JsError + T) * State)
  : M State (Response T) :=
  fun s =>
    let s1 := log c (pop_fault s) in
    match next_fault s with
    | Works => let (r, s2) := serve s1 in (Return (answer r), s2)
    | Fails e => (Return (mkResponse None (Some e)), s1)
    | Rejects e => (Throw e, s1)
    | Hangs => (Pending, s1)
    | ServedFails e => (Return (mkResponse None (Some e)), snd (serve s1))
    | ServedRejects e => (Throw e, snd (serve s1))
    | ServedHangs => (Pending, snd (serve s1))
    end.

Definition handleDatabaseError (error : JsError) (operation : string) : string :=
  if String.eqb (code error) "PGRST116" then
    "Database table not found. Please check your database setup."
  else if String.eqb (code error) "23505" then
    "This email is already registered."
  else if String.eqb (code error) "23503" then
    "Invalid organization code."
  else if truthy (message error) then message error
  else "Failed to " ++ operation ++ ". Please try again.".

(** The delay of [createResilientFetch] after a failed attempt
    ([attempt] starts at 1, so the exponent is a natural number). *)
Definition backoff_delay (attempt : Z) : Z :=
  Z.min (1000 * 2 ^ (attempt - 1)) 3000.

Definition timeout_error (operation : string) (timeoutMs : Z) : JsError :=
  Error (operation ++ " timeout after " ++ show timeoutMs ++ "ms").

Definition non_retryable (error : JsError) : bool :=
  includes "Auth session missing" (message error)
  || includes "Invalid JWT" (message error).

(** The loop of [createResilientFetch] from attempt number [attempt] on,
    with [remaining] iterations before [attempt <= maxRetries] fails. *)
Fixpoint resilient_from {T} (fetchFn : M State T) (operation : string)
    (maxRetries timeoutMs : Z) (remaining : nat) (attempt : Z)
    (lastError : JsError) : M State T :=
  match remaining with
  | O => throw lastError
  | S k =>
      try_catch (race_timeout fetchFn (timeout_error operation timeoutMs)
                   (elapse timeoutMs))
        (fun error =>
           if non_retryable error || (attempt =? maxRetries) then throw error
           else
             (if attempt <? maxRetries then sleep (backoff_delay attempt) else ret tt) ;;
             resilient_from fetchFn operation maxRetries timeoutMs k (attempt + 1) error)
  end.

Definition createResilientFetch {T} (fetchFn : M State T) (operation : string)
    (maxRetries timeoutMs : Z) : M State T :=
  resilient_from fetchFn operation maxRetries timeoutMs (Z.to_nat maxRetries) 1 null_error.

(** One entry of the array [Promise.allSettled] resolves to. *)
Inductive Settled (T : Type) : Type :=
| fulfilled (value : T)
| rejected (reason : JsError).
Arguments fulfilled {T} value.
Arguments rejected {T} reason.

(** [Promise.allSettled([supabase.auth.getUser(), supabase.auth.getSession()])]:
    both calls are issued, and the await ends when both have settled. *)
Definition allSettled_getUser_getSession
  : M State (Settled (Response User) * Settled (Response Session)) :=
  fun s =>
    let s1 := log GetSession (log GetUser (pop_session_reply (pop_user_reply s))) in
    match next_user_reply s, next_session_reply s with
    | Unsettled, _ | _, Unsettled => (Pending, s1)
    | Fulfilled u, Fulfilled v => (Return (fulfilled u, fulfilled v), s1)
    | Fulfilled u, Rejected e => (Return (fulfilled u, rejected e), s1)
    | Rejected e, Fulfilled v => (Return (rejected e, fulfilled v), s1)
    | Rejected e, Rejected e' => (Return (rejected e, rejected e'), s1)
    end.

(** The identity a settled [getUser] carries:
    [status === 'fulfilled' && !value.error && value.data?.user]. *)
Definition user_of (userResult : Settled (Response User)) : option User :=
  match userResult with
  | fulfilled v => match resp_error v with None => resp_data v | Some _ => None end
  | rejected _ => None
  end.

(** The identity a settled [getSession] carries:
    [status === 'fulfilled' && !value.error && value.data?.session?.user]. *)
Definition session_user_of (sessionResult : Settled (Response Session)) : option User :=
  match sessionResult with
  | fulfilled v =>
      match resp_error v with
      | None => option_map session_user (resp_data v)
      | Some _ => None
      end
  | rejected _ => None
  end.

(** The function handed to [createResilientFetch] by [getCurrentUser].  After
    the two identities are ruled out every path returns [null]. *)
Definition fetchCurrentUser : M State (option User) :=
  results <- allSettled_getUser_getSession ;;
  let (userResult, sessionResult) := results in
  match user_of userResult with
  | Some user => ret (Some user)
  | None =>
      match session_user_of sessionResult with
      | Some user => ret (Some user)
      | None => ret None
      end
  end.

(** Whether a call settles before the timer of the attempt. *)
Definition settled {T} (o : Outcome T) : bool :=
  match o with Unsettled => false | _ => true end.

(** The identity a reply of [getUser] carries: it resolved, without error, to a user. *)
Definition reply_user (o : Outcome (Response User)) : option User :=
  match o with
  | Fulfilled v => user_of (fulfilled v)
  | Rejected e => user_of (rejected e)
  | Unsettled => None
  end.

(** The identity a reply of [getSession] carries: it resolved, without error,
    to a session. *)
Definition reply_session_user (o : Outcome (Response Session)) : option User :=
  match o with
  | Fulfilled v => session_user_of (fulfilled v)
  | Rejected e => session_user_of (rejected e)
  | Unsettled => None
  end.

Definition getCurrentUser : M State (option User) :=
  try_catch (createResilientFetch fetchCurrentUser "GetCurrentUser" 2 4000)
    (fun _ => ret None).

Definition find_org (joinCode : string) (s : State) : option Organization :=
  find (fun o => String.eqb (join_code o) joinCode) (orgs s).

Definition find_row (userId : string) (s : State) : option UserRow :=
  find (fun r => String.eqb (row_id r) userId) (users s).

(** [from('users').select('*, organizations (...)').eq('id', userId).limit(1).maybeSingle()] *)
Definition profile_select (userId : string) : M State (Response (option Profile)) :=
  request (ProfileSelect userId)
    (fun s =>
       (inr (option_map
               (fun r => mkProfile r
                           (find (fun o => String.eqb (org_id o) (organization_id r)) (orgs s)))
               (find_row userId s)),
        s)).

(** The result of [getUserProfile]: [{ data, error }] with [error.message]. *)
Record ProfileResult : Type := mkProfileResult
  { profile_data : option Profile; profile_error : option string }.

Definition getUserProfile (userId : string) : M State ProfileResult :=
  try_catch
    (createResilientFetch
       (if negb (truthy userId) then throw (Error "User ID is required")
        else
          r <- profile_select userId ;;
          match resp_error r with
          | Some error => throw error
          | None =>
              ret (mkProfileResult
                     (match resp_data r with Some d => d | None => None end) None)
          end)
       "GetUserProfile" 2 5000)
    (fun error =>
       ret (mkProfileResult None (Some (handleDatabaseError error "fetch user profile")))).

(** [from('organizations').select('id, name').eq('join_code', code).limit(1).maybeSingle()] *)
Definition org_lookup (code : string) : M State (Response (option Organization)) :=
  request (OrgLookup code) (fun s => (inr (find_org code s), s)).

(** [from('users').select('id').eq('id', userId).limit(1).maybeSingle()] *)
Definition profile_lookup (userId : string) : M State (Response (option UserRow)) :=
  request (ProfileLookup userId) (fun s => (inr (find_row userId s), s)).

(** The error of a unique violation, by the code [handleDatabaseError] expects. *)
Definition unique_violation : JsError :=
  mkError "duplicate key value violates unique constraint" "23505".

(** Modelled from the spec: the SQL of the [users] table is not among the
    sources; "at most one MemberProfile per identity id (enforced
    externally)", so [from('users').insert([row])] is refused for a row whose
    id is taken. *)
Definition users_insert (row : UserRow) : M State (Response unit) :=
  request (UsersInsert row)
    (fun s =>
       match find_row (row_id row) s with
       | Some _ => (inl unique_violation, s)
       | None => (inr tt, set_users (users s ++ [row]) s)
       end).

Definition or_else (a b : string) : string := if truthy a then a else b.

(** [user.user_metadata?.full_name || user.user_metadata?.name ||
     user.email?.split('@')[0] || 'Unknown User'] *)
Definition userName (user : User) : string :=
  or_else (meta_full_name user)
    (or_else (meta_name user)
       (or_else (before "@" (user_email user)) "Unknown User")).

Definition new_profile (user : User) (orgData : Organization) (role : option string)
  : UserRow :=
  mkRow (user_id user)
    (trim (userName user))
    (or_else (toLowerCase (trim (user_email user))) "")
    (org_id orgData)
    (or_else (match role with Some r => trim r | None => "" end) "member").

Definition maxAttempts : Z := 3.

(** One iteration of the insert loop: [Some result] when it returns from the
    function, [None] when the loop goes on. *)
Definition insert_attempt (row : UserRow) (attempts : Z)
  : M State (option (option string)) :=
  try_catch
    (r <- users_insert row ;;
     match resp_error r with
     | None => ret (Some None)
     | Some profileError =>
         if attempts =? maxAttempts - 1 then
           ret (Some (Some (handleDatabaseError profileError "create user profile")))
         else
           sleep 1000 ;; ret None
     end)
    (fun _ => ret (Some (Some "Failed to create user profile"))).

(** [while (attempts < maxAttempts) { ... }], with [remaining] iterations left. *)
Fixpoint insert_loop (row : UserRow) (remaining : nat) (attempts : Z)
  : M State (option string) :=
  match remaining with
  | O => ret (Some "Failed to create profile after multiple attempts")
  | S k =>
      step <- insert_attempt row attempts ;;
      match step with
      | Some result => ret result
      | None => insert_loop row k (attempts + 1)
      end
  end.

(** The result is the message of [error], [None] for [{ error: null }]. *)
Definition createUserProfileFromOAuth (user : option User) (joinCode : string)
    (role : option string) : M State (option string) :=
  try_catch
    (match user with
     | None => ret (Some "Invalid user data")
     | Some user =>
         if negb (truthy (user_id user)) then ret (Some "Invalid user data")
         else if negb (truthy (trim joinCode)) then ret (Some "Join code is required")
         else
           org <- race_timeout (org_lookup (trim joinCode))
                    (Error "Organization lookup timeout after 5s") (elapse 5000) ;;
           match resp_error org, resp_data org with
           | Some orgError, _ =>
               ret (Some (handleDatabaseError orgError "validate organization"))
           | None, Some (Some orgData) =>
               existing <- profile_lookup (user_id user) ;;
               match resp_data existing with
               | Some (Some existingProfile) => ret None
               | _ =>
                   insert_loop (new_profile user orgData role)
                     (Z.to_nat maxAttempts) 0
               end
           | None, _ => ret (Some "Invalid join code")
           end
     end)
    (fun _ => ret (Some "An unexpected error occurred")).

(** The [users] table is as in [s0], or has one more row, with this id,
    which no row of [s0] had. *)
Definition grown_users (userId : string) (s0 s : State) : Prop :=
  users s = users s0 \/
  exists row,
    users s = (users s0 ++ [row])%list /\
    row_id row = userId /\
    find_row userId s0 = None.

Definition is_insert (c : Call) : bool :=
  match c with UsersInsert _ => true | _ => false end.

End Supabase.

(** ** src/context/AuthContext.tsx *)

Module AuthContext.
Import Supabase.

(** The provider's React state, its retry counter ([retryCountRef.current])
    and the client it talks to. *)
Record State : Type := mkState
  { net : Supabase.State;
    user : option User;
    profile : option Profile;
    isLoading : bool;
    error : option string;
    retryCount : Z }.

Definition maxRetries : Z := 2.

Definition set_net (n : Supabase.State) (s : State) : State :=
  mkState n (user s) (profile s) (isLoading s) (error s) (retryCount s).

(** A computation of the client library, run from the provider. *)
Definition lift {A} (m : M Supabase.State A) : M State A :=
  fun s => let (r, n) := m (net s) in (r, set_net n s).

Definition setUser (u : option User) : M State unit :=
  modify (fun s => mkState (net s) u (profile s) (isLoading s) (error s) (retryCount s)).

Definition setProfile (p : option Profile) : M State unit :=
  modify (fun s => mkState (net s) (user s) p (isLoading s) (error s) (retryCount s)).

Definition setError (e : option string) : M State unit :=
  modify (fun s => mkState (net s) (user s) (profile s) (isLoading s) e (retryCount s)).

Definition setIsLoading (b : bool) (s : State) : State :=
  mkState (net s) (user s) (profile s) b (error s) (retryCount s).

Definition setRetryCount (n : Z) : M State unit :=
  modify (fun s => mkState (net s) (user s) (profile s) (isLoading s) (error s) n).

Definition network_delay : string :=
  "Network delay — some data may not load. Try refreshing.".

(** [expires_at && expires_at * 1000 < Date.now()] *)
Definition expired (expires_at : option Z) (now : Z) : bool :=
  match expires_at with
  | Some e => negb (e =? 0) && (e * 1000 <? now)
  | None => false
  end.

Definition validateExistingSession : M State bool :=
  try_catch
    (r <- lift (race_timeout auth_getSession (Error "Session validation timeout")
                  (elapse 3000)) ;;
     match resp_error r, resp_data r with
     | Some _, _ | None, None => ret false
     | None, Some session =>
         if negb (truthy (access_token session)) then ret false
         else
           now <- gets (fun s => now (net s)) ;;
           if expired (expires_at session) now then ret false else ret true
     end)
    (fun _ => ret false).

Definition is_none {A} (o : option A) : bool :=
  match o with None => true | Some _ => false end.

Definition checkAuthStatus : M State bool :=
  try_finally
    (try_catch
       (setError None ;;
        first <- lift getCurrentUser ;;
        count <- gets retryCount ;;
        currentUser <-
          (if is_none first && (count <? maxRetries) then
             setRetryCount (count + 1) ;;
             hasValidSession <- validateExistingSession ;;
             if hasValidSession then
               lift (sleep 1000) ;;
               lift getCurrentUser
             else ret first
           else ret first) ;;
        setUser currentUser ;;
        match currentUser with
        | Some u =>
            try_catch
              (r <- lift (getUserProfile (user_id u)) ;;
               match profile_error r with
               | Some msg =>
                   (if includes "timeout" msg then setError (Some network_delay)
                    else setError (Some (or_else msg "Failed to load user profile"))) ;;
                   setProfile None ;;
                   ret false
               | None =>
                   setProfile (profile_data r) ;;
                   setRetryCount 0 ;;
                   ret (negb (is_none (profile_data r)))
               end)
              (fun _ =>
                 setError (Some network_delay) ;;
                 setProfile None ;;
                 ret false)
        | None =>
            setProfile None ;;
            count <- gets retryCount ;;
            if count >=? maxRetries then
              hasValidSession <- validateExistingSession ;;
              if negb hasValidSession then
                setRetryCount 0 ;;
                ret false
              else
                setError (Some "Session temporarily unavailable. Please try again.") ;;
                ret false
            else ret false
        end)
       (fun error =>
          (if includes "timeout" (message error) || includes "network" (message error)
           then setError (Some network_delay)
           else setError (Some (or_else (message error) "Authentication check failed"))) ;;
          setUser None ;;
          setProfile None ;;
          ret false))
    (setIsLoading false).

End AuthContext.

(** ** src/components/auth/AuthHandler.tsx *)

Module AuthHandler.
Import Supabase.

(** What the handler itself does, in order. [SessionExchange] marks its call
    of [supabase.auth.getSession()], to tell it from the calls of the same
    function that [checkAuthStatus] makes. *)
Inductive Effect : Type :=
| SessionExchange
| ReplaceState (url : string)
| Navigate (path : string)
| NavigateLater (path : string) (ms : Z).

(** The component's React state, the address of the page, and the context. *)
Record State : Type := mkState
  { ctx : AuthContext.State;
    isProcessing : bool;
    error : option string;
    hash : string;
    search : string;
    pathname : string;
    effects : list Effect }.

Definition set_ctx (c : AuthContext.State) (s : State) : State :=
  mkState c (isProcessing s) (error s) (hash s) (search s) (pathname s) (effects s).

Definition lift {A} (m : M AuthContext.State A) : M State A :=
  fun s => let (r, c) := m (ctx s) in (r, set_ctx c s).

(** The clock of the client after [ms] milliseconds. *)
Definition elapse (ms : Z) (s : State) : State :=
  set_ctx (AuthContext.set_net (Supabase.elapse ms (AuthContext.net (ctx s))) (ctx s)) s.

Definition setIsProcessing (b : bool) (s : State) : State :=
  mkState (ctx s) b (error s) (hash s) (search s) (pathname s) (effects s).

Definition setError (e : option string) : M State unit :=
  modify (fun s =>
    mkState (ctx s) (isProcessing s) e (hash s) (search s) (pathname s) (effects s)).

Definition perform (e : Effect) : M State unit :=
  modify (fun s =>
    mkState (ctx s) (isProcessing s) (error s) (hash s) (search s) (pathname s)
      (effects s ++ [e])).

(** [window.history.replaceState(null, '', window.location.pathname)] *)
Definition cleanUrl : M State unit :=
  modify (fun s =>
    mkState (ctx s) (isProcessing s) (error s) "" "" (pathname s)
      (effects s ++ [ReplaceState (pathname s)])).

(** [window.location.hash && (hash.includes('access_token') || hash.includes('error'))] *)
Definition hasOAuthHash (s : State) : bool :=
  truthy (hash s) && (includes "access_token" (hash s) || includes "error" (hash s)).

(** [window.location.search && (search.includes('code=') || search.includes('error='))] *)
Definition hasOAuthParams (s : State) : bool :=
  truthy (search s) && (includes "code=" (search s) || includes "error=" (search s)).

(** [handleOAuthCallback] up to its first [await]: the guard, the detection,
    and the start of the session exchange.  [captured] is the value of
    [isProcessing] in the closure; the result tells whether the function
    goes on. *)
Definition prologue (captured : bool) : M State bool :=
  if captured then ret false
  else
    s <- gets (fun s => s) ;;
    if negb (hasOAuthHash s) && negb (hasOAuthParams s) then ret false
    else
      modify (setIsProcessing true) ;;
      setError None ;;
      perform SessionExchange ;;
      lift (AuthContext.lift (modify (log GetSession))) ;;
      ret true.

(** The answer to the call the prologue issued. *)
Definition sessionPromise : M State (Response Session) :=
  lift (AuthContext.lift
          (fun n => await (next_session_reply n) (pop_session_reply n))).

(** [handleOAuthCallback] from its first [await] on. *)
Definition epilogue : M State unit :=
  try_finally
    (try_catch
       (r <- race_timeout sessionPromise (Error "Session retrieval timeout")
               (elapse 15000) ;;
        match resp_error r, resp_data r with
        | Some sessionError, _ =>
            throw (Error ("OAuth authentication failed: " ++ message sessionError))
        | None, None => throw (Error "Authentication failed. No session created.")
        | None, Some session =>
            cleanUrl ;;
            p <- race_timeout
                   (lift (AuthContext.lift
                            (profile_lookup (user_id (session_user session)))))
                   (Error "Profile check timeout") (elapse 10000) ;;
            match resp_error p, resp_data p with
            | Some _, _ => perform (Navigate "/post-auth")
            | None, Some (Some profileData) =>
                try_catch
                  (race_timeout (lift AuthContext.checkAuthStatus)
                     (Error "Auth status check timeout") (elapse 8000) ;;
                   perform (Navigate "/org-home"))
                  (fun _ => perform (Navigate "/org-home"))
            | None, _ => perform (Navigate "/post-auth")
            end
        end)
       (fun error =>
          setError (Some (or_else (message error) "Authentication failed")) ;;
          cleanUrl ;;
          perform (NavigateLater "/login" 2000)))
    (setIsProcessing false).

Definition handleOAuthCallback (captured : bool) : M State unit :=
  go <- prologue captured ;;
  if go then epilogue else ret tt.

(** The timer of the effect fires: the effect was set up by the last render,
    whose [isProcessing] its closure holds ([isProcessing] is a dependency of
    the effect, and the cleanup cancels the timer of an older render). *)
Definition invoke : M State unit :=
  fun s => handleOAuthCallback (isProcessing s) s.

(** The same, stopped at the first [await]. *)
Definition invoke_prologue : M State bool :=
  fun s => prologue (isProcessing s) s.

Definition is_exchange (e : Effect) : bool :=
  match e with SessionExchange => true | _ => false end.

Definition exchanges (s : State) : nat := length (filter is_exchange (effects s)).

(** The detection as the specification words it: an access-token marker or
    an error marker, in the fragment or in the query string. *)
Definition spec_marker (s : State) : bool :=
  includes "access_token" (hash s) || includes "error" (hash s)
  || includes "access_token" (search s) || includes "error" (search s).

End AuthHandler.

(** ** Concrete inputs *)

Module Examples.
Import PhotoStorage.

(** An empty store at some instant; object URLs hang off one base. *)
Definition empty_world : World :=
  mkWorld [] [] 1700000000000 0 (fun k => "https://cdn.example/" ++ k).

Definition start (script : list Fault) : State := mkState empty_world script [].

Definition portrait : File := mkFile "my photo.jpg" "image/jpeg" 204800.

(** The 12 MiB JPEG of the specification's scenario. *)
Definition big_jpeg : File := mkFile "big.jpg" "image/jpeg" (12 * 1024 * 1024).

Definition pdf : File := mkFile "cv.pdf" "application/pdf" 1000.


Definition network_down : JsError := Error "Failed to fetch".


End Examples.

Module AuthExamples.
Import Supabase.

Definition alice : User := mkUser "u1" "Alice@Acme.com" "Alice Liddell" "".

Definition alice_session : Session := mkSession alice "token" (Some 1800000000).

Definition acme : Organization := mkOrg "org1" "Acme" "ACME-2024".

(** A client whose calls are answered by the given scripts. *)
Definition client (user_script : list (Outcome (Response User)))
    (session_script : list (Outcome (Response Session))) : State :=
  mkState [] [acme] 1700000000000 user_script session_script [] [].

(** [getUser] answers with Alice at once; [getSession] never settles. *)
Definition half_answered : State :=
  client [Fulfilled (mkResponse (Some alice) None);
          Fulfilled (mkResponse (Some alice) None)]
         [Unsettled; Unsettled].

(** Nothing settles: every attempt runs into its timer. *)
Definition unreachable : State :=
  client [Unsettled; Unsettled; Unsettled; Unsettled]
         [Unsettled; Unsettled; Unsettled; Unsettled; Unsettled; Unsettled].

(** Nobody is signed in. *)
Definition signed_out : State := client [] [].

Definition alice_row : UserRow := mkRow "u1" "Alice Liddell" "alice@acme.com" "org1" "member".

(** Alice has her profile; the network behaves as the script says. *)
Definition provisioned (script : list Fault) : State :=
  mkState [alice_row] [acme] 1700000000000 [] [] script [].

(** Alice has no profile yet. *)
Definition unprovisioned (script : list Fault) : State :=
  mkState [] [acme] 1700000000000 [] [] script [].

Definition alice_profile : Profile := mkProfile alice_row (Some acme).

(** Alice is signed in and her profile is cached; the provider is about to
    check again, having counted [count] failed checks. *)
Definition signed_in (n : State) (count : Z) : AuthContext.State :=
  AuthContext.mkState n (Some alice) (Some alice_profile) false None count.

(** A page that was loaded at [path ++ query ++ fragment]. *)
Definition page (path query fragment : string) : AuthHandler.State :=
  AuthHandler.mkState (signed_in signed_out 0) false None fragment query path [].

End AuthExamples.

(** ** src/lib/photoStorage.ts: listing and deleting *)

Module PhotoOps.
Import PhotoStorage.

(** The calls of the functions below; [Base] wraps a call of the functions
    embedded above (uploads, removals of objects, timers). *)
Inductive Call : Type :=
| Base (c : PhotoStorage.Call)
| UserPhotosSelect (userId : string)
| PhotoFetch (photoId : nat)
| PhotosDelete (photoId : nat)
| OrgPhotosSelect (userIds : list string).

(** The stores, the network script, the log, and the browser's URL parser:
    [pathname_of u] is [new URL(u).pathname], [None] when the constructor
    throws. *)
Record State : Type := mkState
  { store : World;
    script : list Fault;
    calls : list Call;
    pathname_of : string -> option string }.

(** A computation of the functions embedded above, run on the same stores and
    script; its calls are appended to the log. *)
Definition lift {A} (m : M PhotoStorage.State A) : M State A :=
  fun s =>
    let (r, t) := m (PhotoStorage.mkState (store s) (script s) []) in
    (r, mkState (world t) (faults t) (calls s ++ map Base (trace t)) (pathname_of s)).

Definition next_fault (s : State) : Fault :=
  match script s with [] => Works | f :: _ => f end.

(** What is left of the script settles every request. *)
Definition calm (s : State) : Prop := settling (script s) = true.

(** One request, as [PhotoStorage.request]. *)
Definition request {T} (c : Call) (serve : World -> (JsError + T) * World)
  : M State (Response T) :=
  fun s =>
    let log w := mkState w (tl (script s)) (calls s ++ [c]) (pathname_of s) in
    match next_fault s with
    | Works => let (r, w) := serve (store s) in (Return (answer r), log w)
    | Fails e => (Return (mkResponse None (Some e)), log (store s))
    | Rejects e => (Throw e, log (store s))
    | Hangs => (Pending, log (store s))
    | ServedFails e => (Return (mkResponse None (Some e)), log (snd (serve (store s))))
    | ServedRejects e => (Throw e, log (snd (serve (store s))))
    | ServedHangs => (Pending, log (snd (serve (store s))))
    end.

(** [withRetry], over this state. *)
Fixpoint withRetry_from {T} (operation : M State T) (maxRetries : Z)
    (remaining : nat) (attempt : Z) (lastError : JsError) : M State T :=
  match remaining with
  | O => throw lastError
  | S k =>
      try_catch operation
        (fun error =>
           (if attempt <? maxRetries then lift (sleep (retry_delay attempt)) else ret tt) ;;
           withRetry_from operation maxRetries k (attempt + 1) error)
  end.

Definition withRetry {T} (operation : M State T) (maxRetries : Z) : M State T :=
  withRetry_from operation maxRetries (Z.to_nat maxRetries) 1 null_error.

(** [ORDER BY created_at DESC]: insertion of a row before the first older one. *)
Fixpoint insert_newest (p : Photo) (l : list Photo) : list Photo :=
  match l with
  | [] => [p]
  | q :: rest =>
      if created_at q <? created_at p then p :: l else q :: insert_newest p rest
  end.

Definition newest_first (l : list Photo) : list Photo :=
  fold_right insert_newest [] l.

Record PhotosResult : Type := mkPhotos
  { photos_data : option (list Photo); photos_error : option string }.

(** [from('photos').select('*').eq('takenbyuserId', userId).limit(10)
      .order('created_at', { ascending: false })] *)
Definition user_photos_select (userId : string) : M State (Response (list Photo)) :=
  request (UserPhotosSelect userId)
    (fun w => (inr (firstn 10 (newest_first (filter (owned_by userId) (photos w)))), w)).

Definition getUserPhotos (userId : string) : M State PhotosResult :=
  try_catch
    (r <- withRetry (user_photos_select userId) 2 ;;
     match resp_error r with
     | Some _ => ret (mkPhotos None (Some "Failed to fetch photos"))
     | None => ret (mkPhotos (resp_data r) None)
     end)
    (fun _ => ret (mkPhotos None (Some "Photo fetch failed. Please try again."))).

(** The error of [.single()] when the rows are not exactly one. *)
Definition not_single : JsError :=
  mkError "JSON object requested, multiple (or no) rows returned" "PGRST116".

Definition has_id (photoId : nat) (p : Photo) : bool := Nat.eqb (id p) photoId.

(** [from('photos').select('imageurl, takenbyuserId').eq('id', photoId).single()] *)
Definition photo_fetch (photoId : nat) : M State (Response Photo) :=
  request (PhotoFetch photoId)
    (fun w =>
       match filter (has_id photoId) (photos w) with
       | [photo] => (inr photo, w)
       | _ => (inl not_single, w)
       end).

(** [from('photos').delete().eq('id', photoId)] *)
Definition photos_delete (photoId : nat) : M State (Response unit) :=
  request (PhotosDelete photoId)
    (fun w =>
       (inr tt,
        mkWorld (filter (fun p => negb (has_id photoId p)) (photos w))
          (objects w) (clock w) (next_id w) (public_url w))).

(** [s.split(sep)] for a one-character separator. *)
Fixpoint split (sep : ascii) (s : string) : list string :=
  match s with
  | EmptyString => [EmptyString]
  | String c rest =>
      if Ascii.eqb c sep then EmptyString :: split sep rest
      else
        match split sep rest with
        | [] => [String c EmptyString]
        | first :: others => String c first :: others
        end
  end.

(** [parts.slice(-3)] *)
Definition last3 {A} (parts : list A) : list A := skipn (length parts - 3) parts.

(** [parts.join('/')] *)
Fixpoint join (sep : string) (parts : list string) : string :=
  match parts with
  | [] => EmptyString
  | [p] => p
  | p :: rest => p ++ sep ++ join sep rest
  end.

(** [url.pathname.split('/').slice(-3).join('/')] *)
Definition fileName_of (pathname : string) : string :=
  join "/" (last3 (split "/" pathname)).

Record DeleteResult : Type := mkDelete
  { deleted : bool; delete_error : option string }.

Definition deletePhoto (photoId : nat) : M State DeleteResult :=
  try_catch
    (fetched <- withRetry (photo_fetch photoId) 2 ;;
     match resp_error fetched, resp_data fetched with
     | Some _, _ | None, None => ret (mkDelete false (Some "Photo not found"))
     | None, Some photo =>
         parse <- gets pathname_of ;;
         match parse (imageurl photo) with
         | None => throw (Error "Invalid URL")
         | Some pathname =>
             let fileName := fileName_of pathname in
             removed <- withRetry (photos_delete photoId) 2 ;;
             match resp_error removed with
             | Some _ => ret (mkDelete false (Some "Failed to delete photo record"))
             | None =>
                 try_catch (lift (storage_remove fileName) ;; ret tt) (fun _ => ret tt) ;;
                 ret (mkDelete true None)
             end
         end
     end)
    (fun _ => ret (mkDelete false (Some "An unexpected error occurred during deletion"))).

(** A JavaScript object used as a map from member ids to photo lists: the
    properties that were set, in insertion order; [dict_get key d] is the read
    [d[key]] of a key that was set. *)
Definition Dict : Type := list (string * list Photo).

Fixpoint dict_set (key : string) (value : list Photo) (d : Dict) : Dict :=
  match d with
  | [] => [(key, value)]
  | (k, v) :: rest =>
      if String.eqb k key then (k, value) :: rest else (k, v) :: dict_set key value rest
  end.

Definition dict_get (key : string) (d : Dict) : option (list Photo) :=
  option_map snd (find (fun kv => String.eqb (fst kv) key) d).

(** [userIds.forEach(userId => { photosByUser[userId] = []; })] *)
Definition empty_lists (userIds : list string) : Dict :=
  fold_left (fun d userId => dict_set userId [] d) userIds [].

(** [data.forEach(photo => { if (photosByUser[photo.takenbyuserId])
      photosByUser[photo.takenbyuserId].push(photo); })] *)
Definition push_all (data : list Photo) (d : Dict) : Dict :=
  fold_left
    (fun d photo =>
       match dict_get (takenbyuserId photo) d with
       | Some l => dict_set (takenbyuserId photo) (l ++ [photo]) d
       | None => d
       end)
    data d.

Definition groupByUser (userIds : list string) (data : list Photo) : Dict :=
  push_all data (empty_lists userIds).

Definition requested (userIds : list string) (p : Photo) : bool :=
  existsb (String.eqb (takenbyuserId p)) userIds.

(** [from('photos').select('*').in('takenbyuserId', userIds).limit(250)
      .order('created_at', { ascending: false })] *)
Definition org_photos_select (userIds : list string) : M State (Response (list Photo)) :=
  request (OrgPhotosSelect userIds)
    (fun w => (inr (firstn 250 (newest_first (filter (requested userIds) (photos w)))), w)).

Record OrgPhotosResult : Type := mkOrgPhotos
  { org_data : option Dict; org_error : option string }.

Definition getOrganizationPhotos (userIds : list string) : M State OrgPhotosResult :=
  try_catch
    (match userIds with
     | [] => ret (mkOrgPhotos (Some []) None)
     | _ =>
         r <- withRetry (org_photos_select userIds) 2 ;;
         match resp_error r with
         | Some _ => ret (mkOrgPhotos None (Some "Failed to fetch organization photos"))
         | None =>
             ret (mkOrgPhotos
                    (Some (groupByUser userIds
                             (match resp_data r with Some data => data | None => [] end)))
                    None)
         end
     end)
    (fun _ =>
       ret (mkOrgPhotos None (Some "Organization photos fetch failed. Please try again."))).

(** [uploadPhoto], run on this state. *)
Definition uploadPhoto (file : File) (userId organizationId : string)
  : M State PhotoUploadResult :=
  lift (PhotoStorage.uploadPhoto file userId organizationId).

(** No character of [s] is the separator. *)
Definition free_of (sep : ascii) (s : string) : bool :=
  all_chars (fun c => negb (Ascii.eqb c sep)) s.

Definition is_store_write (c : Call) : bool :=
  match c with
  | PhotosDelete _ | Base (StorageRemove _) | Base (StorageUpload _)
  | Base (PhotosInsert _ _) => true
  | _ => false
  end.

Definition no_store_write (t : list Call) : bool :=
  forallb (fun c => negb (is_store_write c)) t.

(** Both stores are as in [s0] and no request that writes was issued since. *)
Definition untouched (s0 s : State) : Prop :=
  photos (store s) = photos (store s0) /\
  objects (store s) = objects (store s0) /\
  pathname_of s = pathname_of s0 /\
  exists t, calls s = (calls s0 ++ t)%list /\ no_store_write t = true.

(** The Photo table and the parser are as in [s0]; the objects too. *)
Definition rows_kept (s0 s : State) : Prop :=
  photos (store s) = photos (store s0) /\
  objects (store s) = objects (store s0) /\
  pathname_of s = pathname_of s0.

(** The rows with this id are gone, the other rows and the objects are as in [s0]. *)
Definition row_deleted (photoId : nat) (s0 s : State) : Prop :=
  photos (store s) = filter (fun p => negb (has_id photoId p)) (photos (store s0)) /\
  objects (store s) = objects (store s0).

(** As [row_deleted], and the objects are as in [s0] or without one key. *)
Definition row_and_object_deleted (photoId : nat) (s0 s : State) : Prop :=
  photos (store s) = filter (fun p => negb (has_id photoId p)) (photos (store s0)) /\
  (objects (store s) = objects (store s0) \/
   exists fileName,
     objects (store s) =
       filter (fun k => negb (String.eqb fileName k)) (objects (store s0))).

(** The rows with this id may be gone; the other rows, the objects and the
    parser are as in [s0]. *)
Definition rows_kept_or_deleted (photoId : nat) (s0 s : State) : Prop :=
  (photos (store s) = photos (store s0) \/
   photos (store s) = filter (fun p => negb (has_id photoId p)) (photos (store s0))) /\
  objects (store s) = objects (store s0) /\
  pathname_of s = pathname_of s0.

(** All that a call of [deletePhoto] can have done to the stores: the rows
    with this id may be gone, and one key may be gone. *)
Definition delete_effect (photoId : nat) (s0 s : State) : Prop :=
  (photos (store s) = photos (store s0) \/
   photos (store s) = filter (fun p => negb (has_id photoId p)) (photos (store s0))) /\
  (objects (store s) = objects (store s0) \/
   exists fileName,
     objects (store s) =
       filter (fun k => negb (String.eqb fileName k)) (objects (store s0))).

(** A state predicate that timers do not disturb. *)
Definition timer_proof (I : State -> Prop) : Prop :=
  forall ms s, I s -> I (snd (lift (sleep ms) s)).

(** The ids of the rows are distinct and below the next id to be given. *)
Definition ids_fresh (w : World) : Prop :=
  NoDup (map id (photos w)) /\ forall p, In p (photos w) -> (id p < next_id w)%nat.

End PhotoOps.

(** ** What a finished upload left behind *)

Module UploadSpec.
Import PhotoStorage.

(** The Photo table and the URL resolver are as in [s0]. *)
Definition table_kept (s0 s : State) : Prop :=
  photos (world s) = photos (world s0) /\
  public_url (world s) = public_url (world s0).

Definition owned (userId : string) (rows : list Photo) : Prop :=
  Forall (fun p => takenbyuserId p = userId) rows.

(** Since [s0] at most [n] rows were appended to the Photo table, all of
    them rows of [userId], and nothing else happened to the table or to the
    URL resolver. *)
Definition appended (userId : string) (n : nat) (s0 s : State) : Prop :=
  public_url (world s) = public_url (world s0) /\
  exists added,
    photos (world s) = (photos (world s0) ++ added)%list /\
    (length added <= n)%nat /\
    owned userId added.

(** [row] is the last of at most [n] rows appended since [s0], all of
    [userId], and it points at the object [key], which is stored. *)
Definition row_added (userId key : string) (row : Photo) (n : nat) (s0 s : State)
  : Prop :=
  (exists earlier,
     photos (world s) = (photos (world s0) ++ earlier ++ [row])%list /\
     (length earlier < n)%nat /\
     owned userId earlier) /\
  takenbyuserId row = userId /\
  imageurl row = public_url (world s0) key /\
  In key (objects (world s)).

(** What a call did to the Photo table, however it ended: it appended at
    most two rows, all of the member, and none when the member had five. *)
Definition grown (userId : string) (s0 s : State) : Prop :=
  exists added,
    photos (world s) = (photos (world s0) ++ added)%list /\
    (length added <= 2)%nat /\
    owned userId added /\
    (added <> [] -> (photo_count userId (world s0) < 5)%nat).

(** What the result of [uploadPhoto] tells about the stores. *)
Definition reported (userId : string) (s0 : State) (r : PhotoUploadResult) (s : State)
  : Prop :=
  if success r then
    exists row key,
      data r = Some (mkData (id row) (imageurl row) (takenbyuserId row)) /\
      error r = None /\
      row_added userId key row 2 s0 s
  else
    data r = None /\ error r <> None.

(** How a call of [uploadPhoto] from [s0] can end. *)
Definition consistent (userId : string) (s0 : State)
    (c : completion PhotoUploadResult) (s : State) : Prop :=
  grown userId s0 s /\
  match c with
  | Return r => reported userId s0 r s
  | Throw _ => False
  | Pending => True
  end.

End UploadSpec.

(** ** The schedule of [withRetry] *)

Module RetrySchedule.
Import PhotoStorage.





End RetrySchedule.

(** ** Postconditions for computations that may not settle *)

Module Outcomes.

(** A postcondition by cases: [R] on return, [E] on throw, [N] while pending. *)
Definition ends {S A} (R : A -> S -> Prop) (E N : S -> Prop)
  : completion A -> S -> Prop :=
  fun c s =>
    match c with
    | Return a => R a s
    | Throw _ => E s
    | Pending => N s
    end.

Definition never {S} : S -> Prop := fun _ => False.

End Outcomes.

(** ** What the profile lookup returns *)

Module ProfileSpec.
Import Supabase.

(** The two tables are as in [s0]. *)
Definition same_tables (s0 s : State) : Prop :=
  users s = users s0 /\ orgs s = orgs s0.

(** The row of [userId] with the organization it points at, if there is one. *)
Definition joined (userId : string) (s : State) : option Profile :=
  option_map
    (fun r => mkProfile r (find (fun o => String.eqb (org_id o) (organization_id r)) (orgs s)))
    (find_row userId s).

Definition is_database_call (c : Call) : bool :=
  match c with
  | OrgLookup _ | ProfileLookup _ | ProfileSelect _ | UsersInsert _ => true
  | _ => false
  end.

End ProfileSpec.

(** ** How a callback ends *)

Module CallbackSpec.
Import Supabase AuthHandler.

Definition is_navigation (e : Effect) : bool :=
  match e with Navigate _ | NavigateLater _ _ => true | _ => false end.

(** The redirects among the effects. *)
Definition navigations (t : list Effect) : list Effect := filter is_navigation t.

(** The address has neither a fragment nor a query string. *)
Definition clean (s : State) : Prop := hash s = "" /\ search s = "".

(** Since [s0] the handler has redirected nowhere and shows the same error;
    the path of the page is the same. *)
Definition waiting (s0 s : State) : Prop :=
  pathname s = pathname s0 /\
  error s = error s0 /\
  exists t, effects s = (effects s0 ++ t)%list /\ navigations t = [].

(** Since [s0] the handler has redirected once, at once, to the organization
    page or to the profile setup, and shows the same error. *)
Definition redirected (s0 s : State) : Prop :=
  clean s /\
  pathname s = pathname s0 /\
  error s = error s0 /\
  exists t, effects s = (effects s0 ++ t)%list /\
            (navigations t = [Navigate "/org-home"] \/
             navigations t = [Navigate "/post-auth"]).

(** Since [s0] the handler has scheduled one redirect, to the login page
    after two seconds, and shows an error message. *)
Definition sent_to_login (s0 s : State) : Prop :=
  clean s /\
  pathname s = pathname s0 /\
  (exists msg, error s = Some msg /\ truthy msg = true) /\
  exists t, effects s = (effects s0 ++ t)%list /\
            navigations t = [NavigateLater "/login" 2000].

End CallbackSpec.

(** ** src/context/AuthContext.tsx: the listener *)

Module AuthListener.
Import Supabase AuthContext.

(** The callback handed to [supabase.auth.onAuthStateChange]; [session?.user]
    is there exactly when the session is. *)
Definition onAuthStateChange (session : option Session) : M AuthContext.State unit :=
  try_finally
    (try_catch
       (setRetryCount 0 ;;
        setUser (option_map session_user session) ;;
        match session with
        | Some current =>
            try_catch
              (r <- lift (getUserProfile (user_id (session_user current))) ;;
               match profile_error r with
               | Some msg =>
                   (if includes "timeout" msg then setError (Some network_delay)
                    else setError (Some (or_else msg "Failed to load user profile"))) ;;
                   setProfile None
               | None =>
                   setProfile (profile_data r) ;;
                   setError None
               end)
              (fun _ =>
                 setError (Some network_delay) ;;
                 setProfile None)
        | None =>
            setProfile None ;;
            setError None
        end)
       (fun _ => setError (Some "Session temporarily unavailable. Please try again.")))
    (setIsLoading false).

(** The cached profile is the cached user's own, and is shown without an
    error and with the retry counter at zero. *)
Definition profile_of_user (s : AuthContext.State) : Prop :=
  forall p,
    profile s = Some p ->
    (exists u, user s = Some u /\ row_id (profile_row p) = user_id u) /\
    error s = None /\ retryCount s = 0.

(** The retry counter is within its bound if it was so in [s0]. *)
Definition bounded (s0 s : AuthContext.State) : Prop :=
  retryCount s0 <= maxRetries -> retryCount s <= maxRetries.

(** A session that [validateExistingSession] accepts at the instant [now]. *)
Definition acceptable (reply : Outcome (Response Session)) (now : Z) : Prop :=
  exists session,
    reply = Fulfilled (mkResponse (Some session) None) /\
    truthy (access_token session) = true /\
    expired (expires_at session) now = false.

End AuthListener.

(** ** What provisioning leaves behind *)

Module ProvisionSpec.
Import Supabase ProfileSpec.

(** One row was appended to [users], the organizations are as in [s0]. *)
Definition row_appended (row : UserRow) (s0 s : State) : Prop :=
  users s = (users s0 ++ [row])%list /\ orgs s = orgs s0.

(** The profile of the identity is in place: it was there, or it is the one
    new row, built from the identity and the organization of the join code. *)
Definition profile_in_place (user : User) (joinCode : string) (role : option string)
    (s0 s : State) : Prop :=
  find_row (user_id user) s <> None /\
  (same_tables s0 s \/
   exists orgData,
     find_org (trim joinCode) s0 = Some orgData /\
     row_appended (new_profile user orgData role) s0 s).

(** The tables are as in [s0], or [row] was appended to [users]. *)
Definition maybe_appended (row : UserRow) (s0 s : State) : Prop :=
  same_tables s0 s \/ row_appended row s0 s.

(** All that a call can have written: nothing, or the one new row, built
    from the identity and the organization of the join code. *)
Definition profile_maybe_written (user : User) (joinCode : string)
    (role : option string) (s0 s : State) : Prop :=
  same_tables s0 s \/
  exists orgData,
    find_org (trim joinCode) s0 = Some orgData /\
    row_appended (new_profile user orgData role) s0 s.

(** What the way [createUserProfileFromOAuth] ends tells about the tables. *)
Definition provisioned (user : option User) (joinCode : string) (role : option string)
    (s0 : State) (c : completion (option string)) (s : State) : Prop :=
  match user, c with
  | Some u, Return None => profile_in_place u joinCode role s0 s
  | Some u, Return (Some _) => profile_maybe_written u joinCode role s0 s
  | Some u, Pending => profile_maybe_written u joinCode role s0 s
  | None, Return (Some _) => same_tables s0 s
  | None, Return None => False
  | None, Pending => False
  | _, Throw _ => False
  end.

End ProvisionSpec.

(** ** mobile/src/lib/supabase.ts: accounts and organizations *)

Module Accounts.
Import Supabase.

(** The result of [getOrganizationByJoinCode]: [{ data, error }] with
    [error.message]. *)
Record OrgResult : Type := mkOrgResult
  { found_org : option Organization; lookup_error : option string }.

Definition getOrganizationByJoinCode (joinCode : string) : M Supabase.State OrgResult :=
  try_catch
    (if negb (truthy (trim joinCode)) then
       ret (mkOrgResult None (Some "Join code is required"))
     else
       r <- race_timeout (org_lookup (trim joinCode))
              (Error "Organization lookup timeout after 5s") (elapse 5000) ;;
       match resp_error r with
       | Some error =>
           ret (mkOrgResult None (Some (handleDatabaseError error "fetch organization")))
       | None =>
           ret (mkOrgResult (match resp_data r with Some d => d | None => None end) None)
       end)
    (fun _ =>
       ret (mkOrgResult None (Some "Organization lookup timed out. Please try again."))).

(** Calls to the identity provider. *)
Inductive AuthCall : Type :=
| SignUp (email password : string)
| SignInWithPassword (email password : string).

(** The database client, the identity provider ([signUp_reply email password]
    is how [supabase.auth.signUp] ends for these credentials, and likewise
    for [signInWithPassword]), and the log of the calls to the provider. *)
Record State : Type := mkState
  { db : Supabase.State;
    signUp_reply : string -> string -> Outcome (Response (option User));
    signIn_reply : string -> string -> Outcome (Response (option User));
    auth_calls : list AuthCall }.

Definition lift {A} (m : M Supabase.State A) : M State A :=
  fun s =>
    let (r, n) := m (db s) in
    (r, mkState n (signUp_reply s) (signIn_reply s) (auth_calls s)).

(** The clock of the client after [ms] milliseconds. *)
Definition elapse (ms : Z) (s : State) : State :=
  mkState (Supabase.elapse ms (db s)) (signUp_reply s) (signIn_reply s) (auth_calls s).

Definition call_provider {T} (c : AuthCall) (reply : State -> Outcome T) : M State T :=
  fun s =>
    let s1 := mkState (db s) (signUp_reply s) (signIn_reply s) (auth_calls s ++ [c]) in
    match reply s with
    | Fulfilled v => (Return v, s1)
    | Rejected e => (Throw e, s1)
    | Unsettled => (Pending, s1)
    end.

(** [await supabase.auth.signUp({ email, password })] *)
Definition auth_signUp (email password : string) : M State (Response (option User)) :=
  call_provider (SignUp email password) (fun s => signUp_reply s email password).

(** [await supabase.auth.signInWithPassword({ email, password })] *)
Definition auth_signIn (email password : string) : M State (Response (option User)) :=
  call_provider (SignInWithPassword email password)
    (fun s => signIn_reply s email password).

(** [!value || value.trim() === ''] for a string. *)
Definition blank (value : string) : bool :=
  negb (truthy value) || String.eqb (trim value) "".

(** The keys of the fields that are blank, in the order of the object. *)
Definition missing (fields : list (string * string)) : list string :=
  map fst (filter (fun kv => blank (snd kv)) fields).

Definition validateRequiredFields {S} (fields : list (string * string)) : M S unit :=
  if (0 <? Z.of_nat (length (missing fields))) then
    throw (Error ("Missing required fields: " ++ PhotoOps.join ", " (missing fields)))
  else ret tt.

(** The result of the sign functions: [{ error, user }] with [error.message]. *)
Record SignResult : Type := mkSign
  { sign_error : option string; sign_user : option User }.

Definition refused (msg : string) : SignResult := mkSign (Some msg) None.

(** The row [signUpWithEmail] inserts. *)
Definition signup_row (user : User) (name email : string) (orgData : Organization)
    (role : option string) : UserRow :=
  mkRow (user_id user) (trim name) (toLowerCase (trim email)) (org_id orgData)
    (or_else (match role with Some r => trim r | None => "" end) "member").

(** [while (profileAttempts < maxAttempts) { ... }]: the iterations are those
    of [createUserProfileFromOAuth]. *)
Fixpoint signup_insert_loop (row : UserRow) (remaining : nat) (attempts : Z)
  : M Supabase.State (option string) :=
  match remaining with
  | O => ret (Some "Failed to create user profile after multiple attempts")
  | S k =>
      step <- insert_attempt row attempts ;;
      match step with
      | Some result => ret result
      | None => signup_insert_loop row k (attempts + 1)
      end
  end.

Definition signUpWithEmail (email password name joinCode : string)
    (role : option string) : M State SignResult :=
  try_catch
    (validateRequiredFields
       [("email", email); ("password", password); ("name", name);
        ("joinCode", joinCode)] ;;
     org <- race_timeout (lift (org_lookup joinCode))
              (Error "Organization lookup timeout after 6s") (elapse 6000) ;;
     match resp_error org, resp_data org with
     | Some orgError, _ =>
         ret (refused (handleDatabaseError orgError "validate organization"))
     | None, Some (Some orgData) =>
         auth <- auth_signUp (toLowerCase (trim email)) password ;;
         match resp_error auth, resp_data auth with
         | Some authError, _ =>
             ret (refused (or_else (message authError) "Failed to create account"))
         | None, None => throw PhotoStorage.TypeError
         | None, Some None => ret (refused "Failed to create user account")
         | None, Some (Some user) =>
             result <- lift (signup_insert_loop
                               (signup_row user name email orgData role)
                               (Z.to_nat maxAttempts) 0) ;;
             match result with
             | None => ret (mkSign None (Some user))
             | Some msg => ret (refused msg)
             end
         end
     | None, _ => ret (refused "Invalid join code. Please check with your organization.")
     end)
    (fun error =>
       ret (refused (or_else (message error)
                       "An unexpected error occurred during signup"))).

Definition signInWithEmail (email password : string) : M State SignResult :=
  try_catch
    (validateRequiredFields [("email", email); ("password", password)] ;;
     r <- auth_signIn (toLowerCase (trim email)) password ;;
     match resp_error r with
     | Some error => ret (refused (or_else (message error) "Invalid email or password"))
     | None => ret (mkSign None (match resp_data r with Some u => u | None => None end))
     end)
    (fun _ => ret (refused "An unexpected error occurred during sign in")).

(** *** Predicates used to state what a sign-up leaves behind *)

(** Nothing happened but reads: the tables and the log of the provider are
    as in [s0]. *)
Definition nothing_created (s0 s : State) : Prop :=
  ProfileSpec.same_tables (db s0) (db s) /\ auth_calls s = auth_calls s0.

(** The provider was asked once to create the account, after the join code
    was found; the tables are as in [s0], or the provider created the account
    of some user and the profile row of that user, in the organization of the
    join code, was appended. *)
Definition account_requested (email password name joinCode : string)
    (role : option string) (s0 s : State) : Prop :=
  auth_calls s = (auth_calls s0 ++ [SignUp (toLowerCase (trim email)) password])%list /\
  exists orgData,
    find_org joinCode (db s0) = Some orgData /\
    (ProfileSpec.same_tables (db s0) (db s) \/
     exists user,
       signUp_reply s0 (toLowerCase (trim email)) password
         = Fulfilled (mkResponse (Some (Some user)) None) /\
       ProvisionSpec.row_appended (signup_row user name email orgData role)
         (db s0) (db s)).

(** The account of [user] was created by the provider and its profile row,
    in the organization of the join code, was appended. *)
Definition signed_up (user : User) (email password name joinCode : string)
    (role : option string) (s0 s : State) : Prop :=
  signUp_reply s0 (toLowerCase (trim email)) password
    = Fulfilled (mkResponse (Some (Some user)) None) /\
  auth_calls s = (auth_calls s0 ++ [SignUp (toLowerCase (trim email)) password])%list /\
  exists orgData,
    find_org joinCode (db s0) = Some orgData /\
    ProvisionSpec.row_appended (signup_row user name email orgData role) (db s0) (db s).

(** What the way [signUpWithEmail] ends tells about accounts and tables. *)
Definition sign_up_outcome (email password name joinCode : string)
    (role : option string) (s0 : State) (c : completion SignResult) (s : State) : Prop :=
  match c with
  | Return r =>
      match sign_user r with
      | Some user =>
          sign_error r = None /\ signed_up user email password name joinCode role s0 s
      | None =>
          (exists msg, sign_error r = Some msg) /\
          (nothing_created s0 s \/
           account_requested email password name joinCode role s0 s)
      end
  | Throw _ => False
  | Pending =>
      nothing_created s0 s \/ account_requested email password name joinCode role s0 s
  end.

End Accounts.

(** ** src/pages/OrgHome.tsx: the photo handlers *)

Module OrgHome.
Import PhotoStorage PhotoOps.

(** The state of the page that the two handlers read and write: the cache
    of photos by member, the dialogs, and the ids the context provides
    ([profile?.organization_id], [user?.id]); [ops] is the photo storage. *)
Record State : Type := mkState
  { ops : PhotoOps.State;
    memberPhotos : Dict;
    selectedMemberId : option string;
    galleryMemberId : option string;
    profile_organization_id : option string;
    auth_user_id : option string;
    showPhotoCapture : bool;
    isUploading : bool;
    uploadError : option string;
    isDeleting : bool }.

Definition lift {A} (m : M PhotoOps.State A) : M State A :=
  fun s =>
    let (r, o) := m (ops s) in
    (r, mkState o (memberPhotos s) (selectedMemberId s) (galleryMemberId s)
          (profile_organization_id s) (auth_user_id s) (showPhotoCapture s)
          (isUploading s) (uploadError s) (isDeleting s)).

(** [setMemberPhotos(prev => ({ ...prev, [memberId]: updatedPhotos }))] *)
Definition setMemberPhotos (memberId : string) (updatedPhotos : list Photo) : M State unit :=
  modify (fun s =>
    mkState (ops s) (dict_set memberId updatedPhotos (memberPhotos s))
      (selectedMemberId s) (galleryMemberId s) (profile_organization_id s)
      (auth_user_id s) (showPhotoCapture s) (isUploading s) (uploadError s)
      (isDeleting s)).

Definition setSelectedMemberId (v : option string) : M State unit :=
  modify (fun s =>
    mkState (ops s) (memberPhotos s) v (galleryMemberId s) (profile_organization_id s)
      (auth_user_id s) (showPhotoCapture s) (isUploading s) (uploadError s)
      (isDeleting s)).

Definition setShowPhotoCapture (v : bool) : M State unit :=
  modify (fun s =>
    mkState (ops s) (memberPhotos s) (selectedMemberId s) (galleryMemberId s)
      (profile_organization_id s) (auth_user_id s) v (isUploading s) (uploadError s)
      (isDeleting s)).

Definition setIsUploading (v : bool) (s : State) : State :=
  mkState (ops s) (memberPhotos s) (selectedMemberId s) (galleryMemberId s)
    (profile_organization_id s) (auth_user_id s) (showPhotoCapture s) v (uploadError s)
    (isDeleting s).

Definition setUploadError (v : option string) : M State unit :=
  modify (fun s =>
    mkState (ops s) (memberPhotos s) (selectedMemberId s) (galleryMemberId s)
      (profile_organization_id s) (auth_user_id s) (showPhotoCapture s) (isUploading s)
      v (isDeleting s)).

Definition setIsDeleting (v : bool) (s : State) : State :=
  mkState (ops s) (memberPhotos s) (selectedMemberId s) (galleryMemberId s)
    (profile_organization_id s) (auth_user_id s) (showPhotoCapture s) (isUploading s)
    (uploadError s) v.

(** A string that is there and not empty. *)
Definition present (o : option string) : bool :=
  match o with Some v => truthy v | None => false end.

(** [const { data: updatedPhotos } = await getUserPhotos(memberId);
     if (updatedPhotos) setMemberPhotos(...)] *)
Definition refreshPhotos (memberId : string) : M State unit :=
  r <- lift (getUserPhotos memberId) ;;
  match photos_data r with
  | Some updatedPhotos => setMemberPhotos memberId updatedPhotos
  | None => ret tt
  end.

Definition handlePhotoCapture (file : File) : M State unit :=
  page <- gets (fun s => s) ;;
  match selectedMemberId page, profile_organization_id page with
  | Some memberId, Some organizationId =>
      if truthy memberId && truthy organizationId && present (auth_user_id page) then
        modify (setIsUploading true) ;;
        setUploadError None ;;
        try_finally
          (try_catch
             (result <- lift (PhotoOps.uploadPhoto file memberId organizationId) ;;
              if negb (success result) then
                setUploadError
                  (Some (Supabase.or_else
                           (match error result with Some msg => msg | None => "" end)
                           "Failed to upload photo"))
              else
                refreshPhotos memberId ;;
                setShowPhotoCapture false ;;
                setSelectedMemberId None)
             (fun _ => setUploadError (Some "An unexpected error occurred during upload")))
          (setIsUploading false)
      else setUploadError (Some "Missing required information for upload")
  | _, _ => setUploadError (Some "Missing required information for upload")
  end.

Definition handleDeletePhoto (photoId : nat) : M State unit :=
  page <- gets (fun s => s) ;;
  if negb (present (galleryMemberId page)) then ret tt
  else
    let memberId := match galleryMemberId page with Some m => m | None => "" end in
    modify (setIsDeleting true) ;;
    try_finally
      (try_catch
         (result <- lift (deletePhoto photoId) ;;
          if negb (deleted result) then ret tt
          else refreshPhotos memberId)
         (fun _ => ret tt))
      (setIsDeleting false).

(** The view of a member's photos that [getUserPhotos] gives of a store. *)
Definition fresh_photos (memberId : string) (w : World) : list Photo :=
  firstn 10 (newest_first (filter (owned_by memberId) (photos w))).

(** The cache entries of the other members are as in [s0]. *)
Definition others_cached (memberId : string) (s0 s : State) : Prop :=
  forall other, other <> memberId ->
    dict_get other (memberPhotos s) = dict_get other (memberPhotos s0).

(** The cache entry of the member is as in [s0], or is what the store holds now. *)
Definition cached_or_fresh (memberId : string) (s0 s : State) : Prop :=
  dict_get memberId (memberPhotos s) = dict_get memberId (memberPhotos s0) \/
  dict_get memberId (memberPhotos s) = Some (fresh_photos memberId (store (ops s))).

End OrgHome.

(** ** src/pages/PostAuth.tsx: the join form *)

Module PostAuth.
Import Supabase Accounts.

(** The messages of the two fields of [joinOrgSchema]. *)
Record FieldErrors : Type := mkErrors
  { joinCode_error : option string; role_error : option string }.

Definition no_errors : FieldErrors := mkErrors None None.

(** The page: the context (with the client), the signed-in user, the form,
    what is shown, and the redirects so far. *)
Record State : Type := mkState
  { ctx : AuthContext.State;
    user : option User;
    form_joinCode : string;
    form_role : string;
    errors : FieldErrors;
    serverError : option string;
    isSubmitting : bool;
    navigated : list string }.

(** The database the page talks to. *)
Definition db (s : State) : Supabase.State := AuthContext.net (ctx s).

Definition lift {A} (m : M AuthContext.State A) : M State A :=
  fun s =>
    let (r, c) := m (ctx s) in
    (r, mkState c (user s) (form_joinCode s) (form_role s) (errors s) (serverError s)
          (isSubmitting s) (navigated s)).

Definition setErrors (e : FieldErrors) : M State unit :=
  modify (fun s =>
    mkState (ctx s) (user s) (form_joinCode s) (form_role s) e (serverError s)
      (isSubmitting s) (navigated s)).

Definition setServerError (e : option string) : M State unit :=
  modify (fun s =>
    mkState (ctx s) (user s) (form_joinCode s) (form_role s) (errors s) e
      (isSubmitting s) (navigated s)).

Definition setIsSubmitting (b : bool) (s : State) : State :=
  mkState (ctx s) (user s) (form_joinCode s) (form_role s) (errors s) (serverError s)
    b (navigated s).

Definition navigate (path : string) : M State unit :=
  modify (fun s =>
    mkState (ctx s) (user s) (form_joinCode s) (form_role s) (errors s) (serverError s)
      (isSubmitting s) (navigated s ++ [path])).

(** The issues of [joinOrgSchema.parse(formData)], by field:
    [z.string().min(1, message)] refuses the empty string. *)
Definition issues (joinCode role : string) : FieldErrors :=
  mkErrors (if truthy joinCode then None else Some "Join code is required")
           (if truthy role then None else Some "Role is required").

(** [handleSubmit].  [joinOrgSchema.parse] is the only source of a
    [ZodError]; its throw and the branch of the [catch] that turns it into
    field errors are written as one step. *)
Definition handleSubmit : M State unit :=
  setServerError None ;;
  page <- gets (fun s => s) ;;
  match user page with
  | None => setServerError (Some "No authenticated user found. Please try again.")
  | Some authenticated =>
      try_finally
        (try_catch
           (if negb (truthy (form_joinCode page) && truthy (form_role page)) then
              setErrors (issues (form_joinCode page) (form_role page))
            else
              setErrors no_errors ;;
              modify (setIsSubmitting true) ;;
              org <- lift (AuthContext.lift
                             (getOrganizationByJoinCode (form_joinCode page))) ;;
              match lookup_error org, found_org org with
              | None, Some orgData =>
                  profileError <-
                    lift (AuthContext.lift
                            (createUserProfileFromOAuth (Some authenticated)
                               (form_joinCode page) (Some (form_role page)))) ;;
                  match profileError with
                  | Some msg =>
                      setServerError
                        (Some (or_else msg
                                 "Failed to join organization. Please try again."))
                  | None =>
                      lift AuthContext.checkAuthStatus ;;
                      navigate "/org-home"
                  end
              | _, _ =>
                  setServerError (Some "Invalid join code. Please check and try again.")
              end)
           (fun _ => setServerError (Some "An unexpected error occurred")))
        (setIsSubmitting false)
  end.

(** The form was turned down: no redirect, and a message or a field error
    is shown. *)
Definition turned_down (s0 s : State) : Prop :=
  navigated s = navigated s0 /\
  ((exists msg, serverError s = Some msg) \/ errors s <> no_errors).

(** The form went through: one redirect, to the organization page, no
    message, and the profile of the user is in [users]. *)
Definition joined (authenticated : User) (s0 s : State) : Prop :=
  navigated s = (navigated s0 ++ ["/org-home"])%list /\
  serverError s = None /\
  find_row (user_id authenticated) (db s) <> None.

End PostAuth.

(* ===================================================================== *)
(** * Theorems *)
(* ===================================================================== *)

(** ** Rules of the program logic *)

Section HoareRules.
Context {S : Type}.

Lemma hoare_conseq {A} (P P' : S -> Prop) (Q Q' : completion A -> S -> Prop) m :
  hoare P' m Q' ->
  (forall s, P s -> P' s) ->
  (forall c s, Q' c s -> Q c s) ->
  hoare P m Q.
Proof. intros H HP HQ s Hs. apply HQ, H, HP, Hs. Qed.

Lemma hoare_ret {A} (P : S -> Prop) (a : A) Q :
  (forall s, P s -> Q (Return a) s) -> hoare P (ret a) Q.
Proof. intros H s Hs. apply H, Hs. Qed.

Lemma hoare_throw {A} (P : S -> Prop) e (Q : completion A -> S -> Prop) :
  (forall s, P s -> Q (Throw e) s) -> hoare P (throw e) Q.
Proof. intros H s Hs. apply H, Hs. Qed.

Lemma hoare_gets {A} (P : S -> Prop) (f : S -> A) Q :
  (forall s, P s -> Q (Return (f s)) s) -> hoare P (gets f) Q.
Proof. intros H s Hs. apply H, Hs. Qed.

Lemma hoare_bind {A B} (P : S -> Prop) (m : M S A) (k : A -> M S B) R1 R E :
  hoare P m (post R1 E) ->
  (forall a, hoare (R1 a) (k a) (post R E)) ->
  hoare P (bind m k) (post R E).
Proof.
  intros Hm Hk s Hs. specialize (Hm s Hs). unfold bind.
  destruct (m s) as [[a | e |] s1]; simpl in *.
  - apply Hk, Hm.
  - exact Hm.
  - exact Hm.
Qed.

Lemma hoare_try_catch {A} (P : S -> Prop) (body : M S A) handler R E1 E :
  hoare P body (post R E1) ->
  (forall e, hoare E1 (handler e) (post R E)) ->
  hoare P (try_catch body handler) (post R E).
Proof.
  intros Hb Hh s Hs. specialize (Hb s Hs). unfold try_catch.
  destruct (body s) as [[a | e |] s1]; simpl in *.
  - exact Hb.
  - apply Hh, Hb.
  - exact Hb.
Qed.

Lemma keeps_ret {A} (I : S -> Prop) (a : A) : keeps I (ret a).
Proof. intros s Hs. exact Hs. Qed.

Lemma keeps_throw {A} (I : S -> Prop) e : keeps I (@throw S A e).
Proof. intros s Hs. exact Hs. Qed.

Lemma keeps_bind {A B} (I : S -> Prop) (m : M S A) (k : A -> M S B) :
  keeps I m -> (forall a, keeps I (k a)) -> keeps I (bind m k).
Proof.
  intros Hm Hk s Hs. specialize (Hm s Hs). unfold bind.
  destruct (m s) as [[a | e |] s1]; simpl in *; auto. now apply Hk.
Qed.

Lemma keeps_try_catch {A} (I : S -> Prop) (body : M S A) handler :
  keeps I body -> (forall e, keeps I (handler e)) -> keeps I (try_catch body handler).
Proof.
  intros Hb Hh s Hs. specialize (Hb s Hs). unfold try_catch.
  destruct (body s) as [[a | e |] s1]; simpl in *; auto. now apply Hh.
Qed.

Lemma keeps_modify (I : S -> Prop) (f : S -> S) :
  (forall s, I s -> I (f s)) -> keeps I (modify f).
Proof. intros H s Hs. exact (H s Hs). Qed.

Lemma keeps_try_finally {A} (I : S -> Prop) (body : M S A) cleanup :
  keeps I body -> (forall s, I s -> I (cleanup s)) -> keeps I (try_finally body cleanup).
Proof.
  intros Hb Hc s Hs. specialize (Hb s Hs). unfold try_finally.
  destruct (body s) as [[a | e |] s1]; simpl in *; auto.
Qed.

Lemma keeps_race_timeout {A} (I : S -> Prop) (m : M S A) timeout expire :
  keeps I m -> (forall s, I s -> I (expire s)) ->
  keeps I (race_timeout m timeout expire).
Proof.
  intros Hm He s Hs. specialize (Hm s Hs). unfold race_timeout.
  destruct (m s) as [[a | e |] s1]; simpl in *; auto.
Qed.

(** A fact that follows from the precondition may be assumed. *)
Lemma hoare_assume {A} (F : Prop) (P : S -> Prop) (m : M S A) Q :
  (forall s, P s -> F) -> (F -> hoare P m Q) -> hoare P m Q.
Proof. intros HF H s Hs. exact (H (HF s Hs) s Hs). Qed.

Lemma hoare_post_weaken {A} (P : S -> Prop) (m : M S A) R R' (E E' : S -> Prop) :
  hoare P m (post R E) ->
  (forall a s, R a s -> R' a s) ->
  (forall s, E s -> E' s) ->
  hoare P m (post R' E').
Proof.
  intros H HR HE. eapply hoare_conseq; [exact H | auto |].
  intros [a | e |] s; simpl; auto.
Qed.

Lemma hoare_pre_weaken {A} (P P' : S -> Prop) (m : M S A) Q :
  hoare P' m Q -> (forall s, P s -> P' s) -> hoare P m Q.
Proof. intros H HP. eapply hoare_conseq; [exact H | exact HP | auto]. Qed.

End HoareRules.

Section EndsRules.
Import Outcomes.
Context {S : Type}.

Lemma ends_bind {A B} (P : S -> Prop) (m : M S A) (k : A -> M S B) R1 R E N :
  hoare P m (ends R1 E N) ->
  (forall a, hoare (R1 a) (k a) (ends R E N)) ->
  hoare P (bind m k) (ends R E N).
Proof.
  intros Hm Hk s Hs. specialize (Hm s Hs). unfold bind.
  destruct (m s) as [[a | e |] s1]; cbn [fst snd ends] in *;
    [apply Hk, Hm | exact Hm | exact Hm].
Qed.

Lemma ends_try_catch {A} (P : S -> Prop) (body : M S A) handler R E1 E N :
  hoare P body (ends R E1 N) ->
  (forall e, hoare E1 (handler e) (ends R E N)) ->
  hoare P (try_catch body handler) (ends R E N).
Proof.
  intros Hb Hh s Hs. specialize (Hb s Hs). unfold try_catch.
  destruct (body s) as [[a | e |] s1]; cbn [fst snd ends] in *;
    [exact Hb | apply Hh, Hb | exact Hb].
Qed.

(** The timer turns a computation that does not settle into a throw, after
    its delay has passed. *)
Lemma ends_race_timeout {A} (P : S -> Prop) (m : M S A) timeout expire R E N' N :
  hoare P m (ends R E N') ->
  (forall s, N' s -> E (expire s)) ->
  hoare P (race_timeout m timeout expire) (ends R E N).
Proof.
  intros Hm He s Hs. specialize (Hm s Hs). unfold race_timeout.
  destruct (m s) as [[a | e |] s1]; cbn [fst snd ends] in *; auto.
Qed.

Lemma ends_conseq {A} (P P' : S -> Prop) (m : M S A) R R' (E E' N N' : S -> Prop) :
  hoare P' m (ends R' E' N') ->
  (forall s, P s -> P' s) ->
  (forall a s, R' a s -> R a s) ->
  (forall s, E' s -> E s) ->
  (forall s, N' s -> N s) ->
  hoare P m (ends R E N).
Proof.
  intros H HP HR HE HN s Hs. specialize (H s (HP s Hs)).
  destruct (m s) as [[a | e |] s1]; cbn [fst snd ends] in *; auto.
Qed.

Lemma ends_gets {A} (P : S -> Prop) (f : S -> A) (R : A -> S -> Prop) E N :
  (forall s, P s -> R (f s) s) -> hoare P (gets f) (ends R E N).
Proof. intros H s Hs. exact (H s Hs). Qed.

Lemma ends_try_finally {A} (P : S -> Prop) (body : M S A) cleanup R E N
    (R' : A -> S -> Prop) (E' N' : S -> Prop) :
  hoare P body (ends R E N) ->
  (forall a s, R a s -> R' a (cleanup s)) ->
  (forall s, E s -> E' (cleanup s)) ->
  (forall s, N s -> N' s) ->
  hoare P (try_finally body cleanup) (ends R' E' N').
Proof.
  intros Hb HR HE HN s Hs. specialize (Hb s Hs). unfold try_finally.
  destruct (body s) as [[a | e |] s1]; cbn [fst snd ends] in *; auto.
Qed.

Lemma ends_modify (P : S -> Prop) (f : S -> S) (R : unit -> S -> Prop) E N :
  (forall s, P s -> R tt (f s)) -> hoare P (modify f) (ends R E N).
Proof. intros H s Hs. exact (H s Hs). Qed.

Lemma ends_ret {A} (P : S -> Prop) (a : A) (R : A -> S -> Prop) E N :
  (forall s, P s -> R a s) -> hoare P (ret a) (ends R E N).
Proof. intros H s Hs. exact (H s Hs). Qed.

Lemma ends_throw {A} (P : S -> Prop) e (R : A -> S -> Prop) (E : S -> Prop) N :
  (forall s, P s -> E s) -> hoare P (@throw S A e) (ends R E N).
Proof. intros H s Hs. exact (H s Hs). Qed.

End EndsRules.

(** ** Photo storage: the retry wrapper and the stores *)

Section PhotoStorageRules.
Import PhotoStorage Outcomes.

Lemma ends_sleep (I : State -> Prop) ms E N :
  timer_stable I -> hoare I (sleep ms) (ends (fun _ => I) E N).
Proof. intros Hst s Hs. exact (Hst ms s Hs). Qed.

(** The retry loop when every attempt may add to what the store holds: [G n]
    describes the state after at most [n] attempts were served. *)
Lemma ends_withRetry_counting {T} (operation : M State T)
    (G : nat -> State -> Prop) (R : nat -> T -> State -> Prop) maxRetries :
  (forall n, timer_stable (G n)) ->
  (forall n s, G n s -> G (S n) s) ->
  (forall n a s, R n a s -> R (S n) a s) ->
  (forall n, hoare (G n) operation (ends (R (S n)) (G (S n)) (G (S n)))) ->
  forall remaining n attempt lastError,
    hoare (G n) (withRetry_from operation maxRetries remaining attempt lastError)
      (ends (R (n + remaining)%nat) (G (n + remaining)%nat) (G (n + remaining)%nat)).
Proof.
  intros Hst HG HR Hop.
  assert (HGle : forall k n s, G n s -> G (n + k)%nat s).
  { induction k as [| k IH]; intros n s H.
    - now rewrite Nat.add_0_r.
    - rewrite Nat.add_succ_r. apply HG, IH, H. }
  assert (HRle : forall k n a s, R n a s -> R (n + k)%nat a s).
  { induction k as [| k IH]; intros n a s H.
    - now rewrite Nat.add_0_r.
    - rewrite Nat.add_succ_r. apply HR, IH, H. }
  induction remaining as [| k IH]; intros n attempt lastError; simpl.
  - apply ends_throw. intros s Hs. now rewrite Nat.add_0_r.
  - replace (n + S k)%nat with (S n + k)%nat by lia.
    eapply ends_try_catch with (E1 := G (S n)).
    + eapply ends_conseq; [exact (Hop n) | auto | | auto |].
      * intros a s H. apply HRle, H.
      * intros s H. apply HGle, H.
    + intros error.
      eapply ends_bind with (R1 := fun _ => G (S n)).
      * destruct (attempt <? maxRetries).
        -- apply ends_sleep, Hst.
        -- apply ends_ret. auto.
      * intros _. apply IH.
Qed.

(** The retry loop around an operation that keeps [I]. *)
Lemma ends_withRetry {T} (operation : M State T) (I : State -> Prop) R maxRetries :
  hoare I operation (ends R I I) ->
  timer_stable I ->
  hoare I (withRetry operation maxRetries) (ends R I I).
Proof.
  intros Hop Hst.
  exact (ends_withRetry_counting operation (fun _ => I) (fun _ => R) maxRetries
           (fun _ => Hst) (fun _ _ H => H) (fun _ _ _ H => H) (fun _ => Hop)
           (Z.to_nat maxRetries) 0%nat 1 null_error).
Qed.

(** One request: [s1] is the state when the store was not reached, [s2] the
    state when it served the request; the promise may resolve to the answer
    or to an error, reject, or stay unsettled in either. *)
Lemma ends_photo_request {T} c (serve : World -> (JsError + T) * World)
    (P : State -> Prop) (R : Response T -> State -> Prop) (E N : State -> Prop) :
  (forall s, P s ->
     let s1 := log c (pop_fault s) in
     let s2 := set_world (snd (serve (world s1))) s1 in
     (forall e, R (mkResponse None (Some e)) s1 /\ R (mkResponse None (Some e)) s2) /\
     R (answer (fst (serve (world s1)))) s2 /\
     (E s1 /\ E s2) /\ (N s1 /\ N s2)) ->
  hoare P (request c serve) (ends R E N).
Proof.
  intros H s Hs. destruct (H s Hs) as (HF & HW & [HE1 HE2] & [HN1 HN2]).
  unfold request.
  destruct (next_fault s); cbn [fst snd ends]; auto; try apply HF.
  cbn [world log pop_fault] in *.
  destruct (serve (world s)) as [r w]; cbn [fst snd ends] in *. exact HW.
Qed.

(** *** When every request settles *)

Lemma settling_tl script : settling script = true -> settling (tl script) = true.
Proof.
  destruct script as [| f rest]; [auto |]. unfold settling. simpl.
  intros H. apply andb_prop in H. apply H.
Qed.

Lemma settling_next s : calm s -> hangs (next_fault s) = false.
Proof.
  unfold calm, next_fault. destruct (faults s) as [| f rest]; [reflexivity |].
  unfold settling. simpl. intros H. apply andb_prop in H.
  now apply negb_true_iff.
Qed.

Lemma calm_timer_stable : timer_stable calm.
Proof. intros ms s H. exact H. Qed.

Lemma calm_request {T} c (serve : World -> (JsError + T) * World) :
  hoare calm (request c serve) (post (fun _ => calm) calm).
Proof.
  intros s Hs. pose proof (settling_next s Hs) as Hn.
  pose proof (settling_tl _ Hs) as Ht. unfold request.
  destruct (next_fault s); try discriminate Hn; cbn [fst snd post]; try exact Ht.
  cbn [world log pop_fault]. destruct (serve (world s)) as [r w]. exact Ht.
Qed.

Lemma calm_withRetry_from {T} (operation : M State T) maxRetries remaining :
  hoare calm operation (post (fun _ => calm) calm) ->
  forall attempt lastError,
    hoare calm (withRetry_from operation maxRetries remaining attempt lastError)
      (post (fun _ => calm) calm).
Proof.
  intros Hop. induction remaining as [| k IH]; intros attempt lastError; simpl.
  - apply hoare_throw. auto.
  - eapply hoare_try_catch; [exact Hop |]. intros error.
    eapply hoare_bind with (R1 := fun _ => calm).
    + destruct (attempt <? maxRetries).
      * intros s Hs. exact Hs.
      * apply hoare_ret. auto.
    + intros _. apply IH.
Qed.

Lemma calm_withRetry {T} (operation : M State T) maxRetries :
  hoare calm operation (post (fun _ => calm) calm) ->
  hoare calm (withRetry operation maxRetries) (post (fun _ => calm) calm).
Proof. intros. now apply calm_withRetry_from. Qed.

(** When every request settles, [uploadPhoto] settles. *)
Lemma uploadPhoto_calm file userId organizationId :
  hoare calm (uploadPhoto file userId organizationId) (post (fun _ => calm) calm).
Proof.
  unfold uploadPhoto.
  eapply hoare_try_catch with (E1 := calm); [| intros _; apply hoare_ret; auto].
  destruct (negb (startsWith "image/" (type file))); [apply hoare_ret; auto |].
  destruct (size file >? MAX_FILE_SIZE); [apply hoare_ret; auto |].
  eapply hoare_bind with (R1 := fun _ => calm);
    [apply calm_withRetry, calm_request |].
  intros [d [e |]]; cbn [resp_error resp_data]; [apply hoare_ret; auto |].
  destruct (match d with
            | Some existingPhotos =>
                Z.of_nat (length existingPhotos) >=? MAX_PHOTOS_PER_USER
            | None => false
            end); [apply hoare_ret; auto |].
  eapply hoare_bind with (R1 := fun _ => calm); [intros s Hs; exact Hs |].
  intros fileName.
  eapply hoare_bind with (R1 := fun _ => calm);
    [apply calm_withRetry, calm_request |].
  intros [u [e |]]; cbn [resp_error resp_data]; [apply hoare_ret; auto |].
  destruct u as [path |]; [| apply hoare_throw; auto].
  eapply hoare_bind with (R1 := fun _ => calm); [apply hoare_gets; auto |].
  intros publicUrl. destruct (negb (truthy publicUrl)); [apply hoare_ret; auto |].
  eapply hoare_bind with (R1 := fun _ => calm);
    [apply calm_withRetry, calm_request |].
  intros [i [e |]]; cbn [resp_error resp_data].
  - eapply hoare_bind with (R1 := fun _ => calm); [| intros _; apply hoare_ret; auto].
    eapply hoare_try_catch with (E1 := calm); [| intros _; apply hoare_ret; auto].
    eapply hoare_bind with (R1 := fun _ => calm);
      [apply calm_request | intros _; apply hoare_ret; auto].
  - destruct i; [apply hoare_ret | apply hoare_throw]; auto.
Qed.

Lemma filter_app_count (userId : string) (l : list Photo) (row : Photo) :
  length (filter (owned_by userId) (l ++ [row])) =
  (length (filter (owned_by userId) l) + (if owned_by userId row then 1 else 0))%nat.
Proof.
  rewrite filter_app, length_app. simpl. destruct (owned_by userId row); reflexivity.
Qed.

Lemma firstn_10_length {A} (l : list A) : length (firstn 10 l) = Nat.min 10 (length l).
Proof. apply length_firstn. Qed.

End PhotoStorageRules.

Ltac store_simpl :=
cbn [fst snd PhotoStorage.world PhotoStorage.faults PhotoStorage.trace
     PhotoStorage.photos PhotoStorage.objects PhotoStorage.clock
     PhotoStorage.next_id PhotoStorage.public_url PhotoStorage.log
     PhotoStorage.pop_fault PhotoStorage.set_world answer resp_data resp_error] in *.

(** ** Photo storage: what one upload does to the stores, however it ends *)

Section UploadOutcome.
Import PhotoStorage UploadSpec Outcomes.
Variables (file : File) (userId organizationId : string) (s0 : State).

Local Notation "'Kept'" := (table_kept s0).
Local Notation "'Grown'" := (grown userId s0).

Lemma table_kept_timer_stable : timer_stable Kept.
Proof. intros ms s H. exact H. Qed.

Lemma appended_timer_stable n : timer_stable (appended userId n s0).
Proof. intros ms s H. exact H. Qed.

Lemma Kept_Grown s : Kept s -> Grown s.
Proof.
  intros [Hp _]. exists []. rewrite app_nil_r.
  repeat split; [exact Hp | simpl; lia | constructor | congruence].
Qed.

Lemma appended_Grown s :
  (photo_count userId (world s0) < 5)%nat -> appended userId 2 s0 s -> Grown s.
Proof. intros Hfew (_ & added & Hp & Hlen & Hown). exists added. auto. Qed.

Lemma appended_S n s : appended userId n s0 s -> appended userId (S n) s0 s.
Proof.
  intros (Hu & added & Hp & Hlen & Hown). split; [exact Hu |].
  exists added. repeat split; auto.
Qed.

Lemma row_added_S key row n s :
  row_added userId key row n s0 s -> row_added userId key row (S n) s0 s.
Proof.
  intros ((earlier & Hp & Hlen & Hown) & H). split; [| exact H].
  exists earlier. repeat split; auto.
Qed.

Lemma count_select_table :
  hoare Kept (withRetry (count_select userId) 2)
    (ends (fun a s => Kept s /\ count_answer userId s0 a) Kept Kept).
Proof.
  apply ends_withRetry; [| exact table_kept_timer_stable].
  apply ends_photo_request. intros s Hs. cbn zeta. unfold count_answer. store_simpl.
  repeat split; try apply Hs; try (intros Hc; discriminate Hc).
  intros _. cbn [fst answer resp_data]. eexists. split; [reflexivity |].
  rewrite length_map, firstn_10_length. unfold photo_count.
  destruct Hs as [Hp _]. now rewrite Hp.
Qed.

Lemma storage_upload_table fileName :
  hoare Kept (withRetry (storage_upload fileName) 2)
    (ends (fun r s => Kept s /\
                      (resp_error r = None -> In fileName (objects (world s))))
          Kept Kept).
Proof.
  apply ends_withRetry; [| exact table_kept_timer_stable].
  apply ends_photo_request. intros s Hs. cbn zeta. store_simpl.
  assert (Hs1 : Kept (log (StorageUpload fileName) (pop_fault s))) by exact Hs.
  destruct (existsb (String.eqb fileName) (objects (world s))) eqn:Hex; store_simpl;
    repeat split; try exact Hs1; try apply Hs; try (intros Hc; discriminate Hc).
  intros _. cbn. apply in_or_app. right. now left.
Qed.

(** The insert, sent up to twice: every attempt that reaches the store
    appends a row. *)
Lemma photos_insert_table key url :
  url = public_url (world s0) key ->
  hoare (fun s => Kept s /\ In key (objects (world s)))
    (withRetry (photos_insert userId url) 2)
    (ends (fun r s => appended userId 2 s0 s /\
                      (resp_error r = None ->
                       exists row, resp_data r = Some row /\
                                   row_added userId key row 2 s0 s))
          (appended userId 2 s0) (appended userId 2 s0)).
Proof.
  intros Hurl.
  pose (G := fun n s => appended userId n s0 s /\ In key (objects (world s))).
  pose (R := fun n (r : Response Photo) s =>
               appended userId n s0 s /\
               (resp_error r = None ->
                exists row, resp_data r = Some row /\ row_added userId key row n s0 s)).
  assert (H : hoare (G 0%nat) (withRetry (photos_insert userId url) 2)
                (ends (R 2%nat) (G 2%nat) (G 2%nat))).
  { apply (ends_withRetry_counting (photos_insert userId url) G R 2).
    - intros n ms s Hs. exact Hs.
    - intros n s [Ha Hin]. split; [now apply appended_S | exact Hin].
    - intros n a s [Ha Hrow]. split; [now apply appended_S |].
      intros He. destruct (Hrow He) as (row & Hd & Hr).
      exists row. split; [exact Hd | now apply row_added_S].
    - intros n. apply ends_photo_request.
      intros s ((Hu & added & Hp & Hlen & Hown) & Hin). cbn zeta. store_simpl.
      set (row := mkPhoto (next_id (world s)) userId url (clock (world s))).
      assert (H1 : appended userId (S n) s0
                     (log (PhotosInsert userId url) (pop_fault s))).
      { split; [exact Hu |]. exists added. repeat split; auto. }
      assert (H2 : appended userId (S n) s0
                     (set_world
                        (mkWorld (photos (world s) ++ [row]) (objects (world s))
                           (clock (world s)) (S (next_id (world s)))
                           (public_url (world s)))
                        (log (PhotosInsert userId url) (pop_fault s)))).
      { split; [exact Hu |]. exists (added ++ [row])%list. store_simpl.
        rewrite Hp, <- app_assoc. repeat split.
        - rewrite length_app. simpl. lia.
        - apply Forall_app. split; [exact Hown | now constructor]. }
      unfold G, R.
      repeat split; auto; try apply H1; try apply H2; try (intros Hc; discriminate Hc).
      intros _. cbn [fst answer resp_data]. exists row. split; [reflexivity |].
      repeat split; auto. exists added. store_simpl. rewrite Hp, <- app_assoc.
      repeat split; auto. lia. }
  eapply ends_conseq; [exact H | | | |].
  - intros s [[Hp Hu] Hin]. split; [| exact Hin]. split; [exact Hu |].
    exists []. rewrite app_nil_r. repeat split; auto. constructor.
  - intros a s HR. exact HR.
  - now intros s [Ha _].
  - now intros s [Ha _].
Qed.

(** The compensating removal does not touch the Photo table. *)
Lemma storage_remove_table fileName n E :
  hoare (appended userId n s0)
    (try_catch (storage_remove fileName ;; ret tt) (fun _ => ret tt))
    (ends (fun _ => appended userId n s0) E (appended userId n s0)).
Proof.
  eapply ends_try_catch with (E1 := appended userId n s0).
  - eapply ends_bind with (R1 := fun _ => appended userId n s0).
    + apply ends_photo_request. intros s Hs. cbn zeta.
      repeat match goal with |- _ /\ _ => split | |- forall _, _ => intro end;
        exact Hs.
    + intros _. apply ends_ret. auto.
  - intros _. apply ends_ret. auto.
Qed.

Lemma uploadPhoto_ends :
  hoare Kept (uploadPhoto file userId organizationId)
    (ends (fun r s => Grown s /\ reported userId s0 r s) never Grown).
Proof.
  assert (Hfail : forall msg (P : State -> Prop) E N,
             (forall s, P s -> Grown s) ->
             hoare P (ret (failure msg))
               (ends (fun r s => Grown s /\ reported userId s0 r s) E N)).
  { intros msg P E N HP. apply ends_ret. intros s Hs. split; [exact (HP s Hs) |].
    cbn. split; [reflexivity | discriminate]. }
  unfold uploadPhoto.
  eapply ends_try_catch with (E1 := Grown); [| intros _; apply Hfail; auto].
  destruct (negb (startsWith "image/" (type file)));
    [apply Hfail; exact Kept_Grown |].
  destruct (size file >? MAX_FILE_SIZE); [apply Hfail; exact Kept_Grown |].
  eapply ends_bind with (R1 := fun a s => Kept s /\ count_answer userId s0 a).
  { eapply ends_conseq; [exact count_select_table | auto | auto | |];
      exact Kept_Grown. }
  intros [d [e |]]; cbn [resp_error resp_data].
  { apply Hfail. intros s [Hs _]. now apply Kept_Grown. }
  destruct d as [existingPhotos |].
  2: { intros s [_ Hc]. destruct (Hc eq_refl) as (l & Hl & _). discriminate Hl. }
  destruct (Z.of_nat (length existingPhotos) >=? MAX_PHOTOS_PER_USER) eqn:Hq.
  { apply Hfail. intros s [Hs _]. now apply Kept_Grown. }
  apply hoare_assume with (F := (photo_count userId (world s0) < 5)%nat).
  { intros s [_ Hc]. destruct (Hc eq_refl) as (l & Hl & Hlen).
    injection Hl as <-. unfold MAX_PHOTOS_PER_USER in Hq. lia. }
  intros Hfew.
  eapply hoare_pre_weaken with (P' := Kept); [| now intros s [Hs _]].
  eapply ends_bind with (R1 := fun _ => Kept).
  { intros s Hs. exact Hs. }
  intros fileName.
  eapply ends_bind.
  { eapply ends_conseq;
      [exact (storage_upload_table fileName) | auto | intros a s H; exact H | |];
      exact Kept_Grown. }
  intros [u [e |]]; cbn [resp_error resp_data].
  { apply Hfail. intros s [Hs _]. now apply Kept_Grown. }
  destruct u as [path |];
    [| apply ends_throw; intros s [Hs _]; now apply Kept_Grown].
  eapply ends_bind with
    (R1 := fun url s => (Kept s /\ In fileName (objects (world s))) /\
                        url = public_url (world s0) fileName).
  { apply ends_gets. intros s [Hs Hin]. split; [split; [exact Hs | now apply Hin] |].
    destruct Hs as [_ Hu]. now rewrite Hu. }
  intros publicUrl.
  destruct (negb (truthy publicUrl));
    [apply Hfail; intros s [[Hs _] _]; now apply Kept_Grown |].
  apply hoare_assume with (F := publicUrl = public_url (world s0) fileName);
    [now intros s [_ H] |].
  intros Hurl.
  eapply hoare_pre_weaken with
    (P' := fun s => Kept s /\ In fileName (objects (world s)));
    [| now intros s [Hs _]].
  eapply ends_bind.
  { eapply ends_conseq;
      [exact (photos_insert_table fileName publicUrl Hurl) | auto
      | intros a s H; exact H | |]; exact (fun s => appended_Grown s Hfew). }
  intros [i [e |]]; cbn [resp_error resp_data].
  { eapply ends_bind with (R1 := fun _ => appended userId 2 s0).
    - eapply ends_conseq;
        [apply (storage_remove_table fileName 2 Grown) | now intros s [Hs _]
        | auto | auto |]; exact (fun s => appended_Grown s Hfew).
    - intros _. apply Hfail. exact (fun s => appended_Grown s Hfew). }
  destruct i as [photoData |].
  - apply ends_ret. intros s (Ha & Hrow). destruct (Hrow eq_refl) as (row & Hd & Hr).
    injection Hd as <-. split; [now apply appended_Grown |].
    cbn. exists photoData, fileName. auto.
  - intros s (_ & Hrow). destruct (Hrow eq_refl) as (row & Hd & _). discriminate Hd.
Qed.

End UploadOutcome.

Section UploadOutcomeTheorem.
Import PhotoStorage UploadSpec.

(** X7. What [uploadPhoto] reports can be relied on, whatever the network
    does to its requests (answers lost after the store served the request and
    promises that never settle included).  The call never throws, and it
    returns when every request settles.  However it ends, it has appended at
    most two rows to the Photo table, all of them rows of the member, and
    none when the member had five rows or more.  If it returns success, no
    error is set and the data is the id, URL and owner of the last row
    appended, whose URL is the public URL of a key that is in the object
    store.  If it returns a failure, an error message is set and there is no
    data (rows may have been written all the same). *)
Theorem uploadPhoto_result_consistent file userId organizationId s :
  consistent userId s
    (fst (uploadPhoto file userId organizationId s))
    (snd (uploadPhoto file userId organizationId s)) /\
  (settling (faults s) = true ->
   exists r, fst (uploadPhoto file userId organizationId s) = Return r).
Proof.
  pose proof (uploadPhoto_ends file userId organizationId s s
                (conj eq_refl eq_refl)) as H.
  pose proof (uploadPhoto_calm file userId organizationId s) as Hc.
  unfold consistent, calm in *.
  destruct (uploadPhoto file userId organizationId s) as [[r | e |] s1];
    cbn [fst snd Outcomes.ends post] in *; try contradiction.
  - split; [exact H | eauto].
  - split; [auto |]. intros Hs. contradiction (Hc Hs).
Qed.

(** On a network that answers every request the first upload returns. *)
Lemma uploadPhoto_result_consistent_witness :
  exists r,
    fst (uploadPhoto Examples.portrait "u1" "org1" (Examples.start [])) = Return r.
Proof.
  apply (uploadPhoto_result_consistent Examples.portrait "u1" "org1" (Examples.start [])).
  reflexivity.
Defined.

End UploadOutcomeTheorem.

(** ** Photo storage: the quota (C1) *)

Section Quota.
Import PhotoStorage.


End Quota.

(** ** Photo storage: validation (C7) *)

Section Validation.
Import PhotoStorage.

(** C7. A file whose mime type is not an image type, or whose size exceeds
    the 10 MiB cap, is refused before anything leaves the function: the call
    returns a failure naming the input and the whole state (both stores, the
    log of calls, the network script) is untouched, so no count query, no
    object write and no metadata insert was issued. *)
Theorem upload_rejects_invalid_file file userId organizationId s :
  startsWith "image/" (type file) = false \/ size file > MAX_FILE_SIZE ->
  exists msg,
    (msg = "File must be an image" \/ msg = "File size must be less than 10MB") /\
    uploadPhoto file userId organizationId s = (Return (failure msg), s).
Proof.
  intros H. unfold uploadPhoto, try_catch.
  destruct (startsWith "image/" (type file)) eqn:Hty; cbn [negb].
  - destruct H as [H | H]; [discriminate |].
    apply Z.gtb_gt in H. rewrite H.
    exists "File size must be less than 10MB". split; [now right | reflexivity].
  - exists "File must be an image". split; [now left | reflexivity].
Qed.

(** The 12 MiB JPEG is refused with nothing sent, and so is a PDF. *)
Lemma upload_rejects_invalid_file_witness :
  (exists msg,
     (msg = "File must be an image" \/ msg = "File size must be less than 10MB") /\
     uploadPhoto Examples.big_jpeg "u1" "org1" (Examples.start [])
       = (Return (failure msg), Examples.start [])) /\
  (exists msg,
     (msg = "File must be an image" \/ msg = "File size must be less than 10MB") /\
     uploadPhoto Examples.pdf "u1" "org1" (Examples.start [])
       = (Return (failure msg), Examples.start [])).
Proof.
  split.
  - apply (upload_rejects_invalid_file Examples.big_jpeg "u1" "org1" (Examples.start [])).
    right. reflexivity.
  - apply (upload_rejects_invalid_file Examples.pdf "u1" "org1" (Examples.start [])).
    left. reflexivity.
Defined.

End Validation.

(** ** Storage keys (C9) *)

Section StorageKey.
Import PhotoStorage.

Lemma cleanName_length originalName :
  String.length (cleanName originalName) = String.length originalName.
Proof.
  unfold cleanName. induction originalName as [| c rest IH]; simpl; congruence.
Qed.

Lemma cleanName_chars originalName :
  all_chars (fun c => in_class c || Ascii.eqb c "_") (cleanName originalName) = true.
Proof.
  unfold cleanName. induction originalName as [| c rest IH]; simpl; [reflexivity |].
  rewrite IH, andb_true_r. destruct (in_class c) eqn:Hc.
  - now rewrite Hc.
  - reflexivity.
Qed.

Lemma cleanName_get originalName : forall i,
  String.get i (cleanName originalName) =
  option_map (fun c => if in_class c then c else "_"%char) (String.get i originalName).
Proof.
  unfold cleanName. induction originalName as [| c rest IH]; intros i; simpl.
  - reflexivity.
  - destruct i; simpl; [reflexivity | apply IH].
Qed.

(** C9, as the code has it. The key is
    [{organizationId}/{userId}/{timestamp}_{cleanName}] for the instant the
    clock shows, and computing it changes nothing. [cleanName] has the length
    of the original name: a character of the class [[A-Za-z0-9.-]] stays where
    it is and any other character is replaced by an underscore, none is
    removed. So the final segment holds class characters and underscores only. *)
Theorem generateFileName_replaces organizationId userId originalName s :
  generateFileName organizationId userId originalName s =
    (Return (organizationId ++ "/" ++ userId ++ "/" ++ show (clock (world s)) ++ "_"
               ++ cleanName originalName), s) /\
  String.length (cleanName originalName) = String.length originalName /\
  (forall i, String.get i (cleanName originalName) =
             option_map (fun c => if in_class c then c else "_"%char)
               (String.get i originalName)) /\
  all_chars (fun c => in_class c || Ascii.eqb c "_") (cleanName originalName) = true.
Proof.
  split; [reflexivity |].
  split; [apply cleanName_length |].
  split; [apply cleanName_get | apply cleanName_chars].
Qed.

(** C9, as the specification words it, fails: the blank of [my photo.jpg] is
    not removed, it becomes an underscore, which is outside the class. *)
Lemma generateFileName_does_not_strip :
  fst (generateFileName "org1" "u1" "my photo.jpg" (Examples.start []))
    = Return "org1/u1/1700000000000_my_photo.jpg" /\
  spec_fileNameAt 1700000000000 "org1" "u1" "my photo.jpg"
    = "org1/u1/1700000000000_myphoto.jpg" /\
  all_chars in_class (cleanName "my photo.jpg") = false.
Proof. repeat split. Qed.

End StorageKey.

(** ** Backoff (C4) *)

Section Backoff.




End Backoff.

Section BackoffWitness.
Import PhotoStorage.


End BackoffWitness.

(** ** The identity lookup (C5, C10) *)

Section CurrentUser.
Import Supabase.

Lemma resilient_from_settles {T} (fetchFn : M State T) operation maxRetries timeoutMs
    remaining : forall attempt lastError s,
  settles (fst (resilient_from fetchFn operation maxRetries timeoutMs remaining
                  attempt lastError s)).
Proof.
  induction remaining as [| k IH]; intros attempt lastError s; simpl.
  - exact I.
  - unfold try_catch, race_timeout.
    destruct (fetchFn s) as [[a | e |] s1]; simpl; try exact I.
    + destruct (non_retryable e || (attempt =? maxRetries)); simpl; [exact I |].
      unfold bind. destruct (attempt <? maxRetries); simpl; apply IH.
    + destruct (non_retryable (timeout_error operation timeoutMs)
                || (attempt =? maxRetries)); simpl; [exact I |].
      unfold bind. destruct (attempt <? maxRetries); simpl; apply IH.
Qed.

Lemma getCurrentUser_returns s : exists r s', getCurrentUser s = (Return r, s').
Proof.
  unfold getCurrentUser, try_catch, createResilientFetch.
  pose proof (resilient_from_settles fetchCurrentUser "GetCurrentUser" 2 4000
                (Z.to_nat 2) 1 null_error s) as H.
  destruct (resilient_from fetchCurrentUser "GetCurrentUser" 2 4000 (Z.to_nat 2) 1
              null_error s) as [[a | e |] s1]; simpl in H.
  - eauto.
  - eexists _, _. reflexivity.
  - contradiction.
Qed.

(** C10. [getCurrentUser] is total: whatever the identity provider's calls
    do (answer, reject, or never settle, on any attempt), it returns, and
    never throws or hangs.  Whenever the wrapped fetch ends by throwing
    (retries exhausted, timers included) the value returned is [null]; a
    signed-out client and a client none of whose calls settle both get
    [null], so the value does not tell them apart. *)
Theorem getCurrentUser_total s :
  (exists r s', getCurrentUser s = (Return r, s')) /\
  (forall e s',
      createResilientFetch fetchCurrentUser "GetCurrentUser" 2 4000 s = (Throw e, s') ->
      getCurrentUser s = (Return None, s')) /\
  fst (getCurrentUser AuthExamples.signed_out) = Return None /\
  fst (getCurrentUser AuthExamples.unreachable) = Return None.
Proof.
  split; [apply getCurrentUser_returns |].
  split; [| split; reflexivity].
  intros e s' H. unfold getCurrentUser, try_catch. now rewrite H.
Qed.

(** C5, as the code has it. Both calls are issued in every attempt.  When
    both settle before the attempt's timer, the lookup returns at once: the
    identity of [getUser] if it resolved without error to one, else the
    identity of [getSession] if it resolved without error to a session, else
    [null].  An identity of either call is not given up for an error or a
    rejection of the other; [getUser] has priority, whichever call settled
    first. *)
Theorem getCurrentUser_prefers_getUser s :
  settled (next_user_reply s) = true ->
  settled (next_session_reply s) = true ->
  getCurrentUser s =
    (Return (match reply_user (next_user_reply s) with
             | Some user => Some user
             | None => reply_session_user (next_session_reply s)
             end),
     log GetSession (log GetUser (pop_session_reply (pop_user_reply s)))).
Proof.
  intros Hu Hs.
  unfold getCurrentUser, createResilientFetch. change (Z.to_nat 2) with 2%nat.
  cbn [resilient_from].
  unfold try_catch at 1 2, race_timeout, fetchCurrentUser, bind,
    allSettled_getUser_getSession.
  destruct (next_user_reply s) as [[du eu] | e |]; [| | discriminate];
    destruct (next_session_reply s) as [[dv ev] | e' |]; try discriminate;
    cbn [reply_user reply_session_user user_of session_user_of resp_error resp_data].
  - destruct eu, du, ev, dv; reflexivity.
  - destruct eu, du; reflexivity.
  - destruct ev, dv; reflexivity.
  - reflexivity.
Qed.

(** Alice is signed in; [getUser] errs and [getSession] carries her. *)
Lemma getCurrentUser_prefers_getUser_witness :
  getCurrentUser
    (AuthExamples.client [Fulfilled (mkResponse None (Some (Error "fetch failed")))]
                         [Fulfilled (mkResponse (Some AuthExamples.alice_session) None)])
  = (Return (Some AuthExamples.alice),
     log GetSession (log GetUser (AuthExamples.client [] []))).
Proof.
  apply (getCurrentUser_prefers_getUser
           (AuthExamples.client [Fulfilled (mkResponse None (Some (Error "fetch failed")))]
              [Fulfilled (mkResponse (Some AuthExamples.alice_session) None)]));
    reflexivity.
Defined.

(** C5, as stated, fails: [getUser] answers with Alice in both attempts, but
    [getSession] never settles, [Promise.allSettled] waits for it, both
    attempts run into the timer and the lookup returns [null]. *)
Lemma getCurrentUser_discards_identity :
  reply_user (next_user_reply AuthExamples.half_answered)
    = Some AuthExamples.alice /\
  fst (getCurrentUser AuthExamples.half_answered) = Return None /\
  trace (snd (getCurrentUser AuthExamples.half_answered))
    = [GetUser; GetSession; Sleep 1000; GetUser; GetSession].
Proof. repeat split. Qed.

End CurrentUser.


(** ** Provisioning (C6) *)

Section Provisioning.
Import Supabase.

Lemma keeps_request {T} (I : State -> Prop) c
    (serve : State -> (JsError + T) * State) :
  (forall s, I s -> I (log c (pop_fault s))) ->
  (forall s, I s -> I (snd (serve s))) ->
  keeps I (request c serve).
Proof.
  intros Hlog Hserve s Hs. unfold request.
  destruct (next_fault s); simpl; auto.
  specialize (Hserve _ (Hlog s Hs)).
  destruct (serve (log c (pop_fault s))) as [r s2]; simpl in *. exact Hserve.
Qed.

Lemma find_row_app userId (l : list UserRow) row s :
  users s = (l ++ [row])%list -> row_id row = userId ->
  find_row userId s <> None.
Proof.
  intros Hl' Hid. unfold find_row. rewrite Hl'.
  induction l as [| r l IH] in |- *; simpl.
  - rewrite Hid, String.eqb_refl. discriminate.
  - destruct (String.eqb (row_id r) userId); [discriminate | exact IH].
Qed.

Variables (user : User) (s0 : State).
Local Notation "'Grown'" := (grown_users (user_id user) s0).

Lemma Grown_users s s' : users s' = users s -> Grown s -> Grown s'.
Proof. unfold grown_users. intros ->. auto. Qed.

Lemma users_insert_Grown row :
  row_id row = user_id user -> keeps Grown (users_insert row).
Proof.
  intros Hid. apply keeps_request.
  - intros s Hs. eapply Grown_users; [| exact Hs]. reflexivity.
  - intros s Hs. rewrite Hid.
    destruct (find_row (user_id user) s) eqn:Hfind; simpl; [exact Hs |].
    destruct Hs as [Hsame | (row' & Hrow' & Hid' & _)].
    + right. exists row. simpl. rewrite Hsame. split; [reflexivity |].
      split; [exact Hid |]. unfold find_row in *. now rewrite <- Hsame.
    + exact (False_ind _ (find_row_app _ _ _ _ Hrow' Hid' Hfind)).
Qed.

Lemma sleep_Grown ms : keeps Grown (sleep ms).
Proof. intros s Hs. eapply Grown_users; [| exact Hs]. reflexivity. Qed.

Lemma insert_loop_Grown row remaining : forall attempts,
  row_id row = user_id user -> keeps Grown (insert_loop row remaining attempts).
Proof.
  induction remaining as [| k IH]; intros attempts Hid; simpl.
  - apply keeps_ret.
  - apply keeps_bind.
    + unfold insert_attempt. apply keeps_try_catch; [| intros; apply keeps_ret].
      apply keeps_bind; [now apply users_insert_Grown |].
      intros r. destruct (resp_error r); [| apply keeps_ret].
      destruct (attempts =? maxAttempts - 1); [apply keeps_ret |].
      apply keeps_bind; [apply sleep_Grown | intros; apply keeps_ret].
    + intros [result |]; [apply keeps_ret | now apply IH].
Qed.

(** Whatever the network does, one call leaves [users] as it was or adds one
    row with the identity's id, which was not there. *)
Lemma createUserProfileFromOAuth_Grown joinCode role :
  keeps Grown (createUserProfileFromOAuth (Some user) joinCode role).
Proof.
  unfold createUserProfileFromOAuth.
  apply keeps_try_catch; [| intros; apply keeps_ret].
  destruct (negb (truthy (user_id user))); [apply keeps_ret |].
  destruct (negb (truthy (trim joinCode))); [apply keeps_ret |].
  apply keeps_bind.
  { apply keeps_race_timeout; [apply keeps_request |]; intros s Hs; exact Hs. }
  intros org. destruct (resp_error org); [apply keeps_ret |].
  destruct (resp_data org) as [[orgData |] |]; try apply keeps_ret.
  apply keeps_bind.
  { apply keeps_request; intros s Hs; exact Hs. }
  intros existing.
  destruct (resp_data existing) as [[existingProfile |] |];
    try apply keeps_ret; now apply insert_loop_Grown.
Qed.

End Provisioning.

Section ProvisioningTwice.
Import Supabase.

(** C6, as the code has it. Two calls for one identity, under any network
    faults, create at most one row in total: [users] ends as it began or
    with one more row, of that identity (the store refuses a taken id; the
    check of the code spares the attempt).  And when a row of the identity
    exists, the join code resolves to an organization and both lookups are
    answered, the call returns success having issued the two lookups and
    nothing else: no insert, no change of the store. *)
Theorem provisioning_idempotent user joinCode role s :
  (let s1 := snd (createUserProfileFromOAuth (Some user) joinCode role s) in
   let s2 := snd (createUserProfileFromOAuth (Some user) joinCode role s1) in
   users s2 = users s \/
   exists row, users s2 = (users s ++ [row])%list /\ row_id row = user_id user) /\
  (truthy (user_id user) = true ->
   truthy (trim joinCode) = true ->
   find_org (trim joinCode) s <> None ->
   find_row (user_id user) s <> None ->
   next_fault s = Works ->
   next_fault (pop_fault s) = Works ->
   createUserProfileFromOAuth (Some user) joinCode role s =
     (Return None,
      log (ProfileLookup (user_id user))
        (pop_fault (log (OrgLookup (trim joinCode)) (pop_fault s))))).
Proof.
  split.
  - intros s1 s2.
    assert (H1 : grown_users (user_id user) s s1).
    { apply createUserProfileFromOAuth_Grown. now left. }
    assert (H2 : grown_users (user_id user) s s2).
    { apply createUserProfileFromOAuth_Grown. exact H1. }
    destruct H2 as [H2 | (row & Hrow & Hid & _)]; [now left | right; eauto].
  - intros Hid Hcode Horg Hrow Hf1 Hf2.
    unfold createUserProfileFromOAuth, try_catch.
    rewrite Hid, Hcode. cbn [negb].
    unfold bind at 1, race_timeout, org_lookup, request. rewrite Hf1.
    cbn [resp_error resp_data answer].
    change (find_org (trim joinCode) (log (OrgLookup (trim joinCode)) (pop_fault s)))
      with (find_org (trim joinCode) s).
    destruct (find_org (trim joinCode) s) as [orgData |]; [| contradiction].
    unfold bind, profile_lookup, request.
    change (next_fault (log (OrgLookup (trim joinCode)) (pop_fault s)))
      with (next_fault (pop_fault s)).
    rewrite Hf2. cbn [resp_error resp_data answer].
    change (find_row (user_id user)
              (log (ProfileLookup (user_id user))
                 (pop_fault (log (OrgLookup (trim joinCode)) (pop_fault s)))))
      with (find_row (user_id user) s).
    destruct (find_row (user_id user) s); [reflexivity | contradiction].
Qed.

(** Alice has her profile: provisioning her again only looks. *)
Lemma provisioning_idempotent_witness :
  createUserProfileFromOAuth (Some AuthExamples.alice) "ACME-2024" (Some "member")
    (AuthExamples.provisioned [])
  = (Return None,
     log (ProfileLookup "u1") (log (OrgLookup "ACME-2024") (AuthExamples.provisioned []))).
Proof.
  apply (proj2 (provisioning_idempotent AuthExamples.alice "ACME-2024" (Some "member")
                  (AuthExamples.provisioned [])));
    try reflexivity; vm_compute; discriminate.
Defined.

(** C6, as stated, fails: Alice has her profile and the join code is valid,
    but the existence lookup resolves to an error, which the code drops with
    the rest of the answer; it goes on to insert, three times, and reports
    the store's refusal instead of success.  (Nor is success returned when
    the organization lookup itself resolves to an error.) *)
Lemma provisioning_inserts_when_lookup_fails :
  let s := AuthExamples.provisioned [Works; Fails Examples.network_down] in
  find_row "u1" s = Some AuthExamples.alice_row /\
  find_org "ACME-2024" s = Some AuthExamples.acme /\
  fst (createUserProfileFromOAuth (Some AuthExamples.alice) "ACME-2024" None s)
    = Return (Some "This email is already registered.") /\
  length (filter is_insert
            (trace (snd (createUserProfileFromOAuth (Some AuthExamples.alice)
                           "ACME-2024" None s)))) = 3%nat /\
  fst (createUserProfileFromOAuth (Some AuthExamples.alice) "ACME-2024" None
         (AuthExamples.provisioned [Fails Examples.network_down]))
    = Return (Some "Failed to fetch").
Proof. repeat split. Qed.

End ProvisioningTwice.

(** ** Photo storage: the compensating delete (C2) *)

Section Compensation.
Import PhotoStorage.


End Compensation.


(** ** Session reconciliation (C3) *)

Section Reconciliation.
Import Supabase AuthContext.

(** C3 at its failing inputs. Alice is signed in and cached, and no call to
    the identity provider settles: every failure is a timeout.  On the first
    check the cached user and profile are cleared all the same and the check
    answers [false].  With two failed checks counted, the branch that the
    code calls logging out is taken (the counter is reset and no error is
    shown), the session-validity check behind it having itself only timed
    out. *)
Theorem checkAuthStatus_clears_user_on_timeouts :
  let first := checkAuthStatus (AuthExamples.signed_in AuthExamples.unreachable 0) in
  let third := checkAuthStatus (AuthExamples.signed_in AuthExamples.unreachable 2) in
  user (AuthExamples.signed_in AuthExamples.unreachable 0) = Some AuthExamples.alice /\
  (fst first = Return false /\
   user (snd first) = None /\
   profile (snd first) = None /\
   trace (net (snd first)) =
     [GetUser; GetSession; Sleep 1000; GetUser; GetSession; GetSession]) /\
  (fst third = Return false /\
   user (snd third) = None /\
   profile (snd third) = None /\
   error (snd third) = None /\
   retryCount (snd third) = 0).
Proof. repeat split. Qed.

End Reconciliation.

(** ** The OAuth callback (C8) *)

Section Callback.
Import Supabase AuthHandler.

Lemma lift_keeps_exchanges {A} (m : M AuthContext.State A) n :
  keeps (fun s => exchanges s = n) (lift m).
Proof.
  intros s Hs. unfold lift. destruct (m (ctx s)) as [r c]. exact Hs.
Qed.

Lemma perform_keeps_exchanges e n :
  is_exchange e = false -> keeps (fun s => exchanges s = n) (perform e).
Proof.
  intros He s Hs. unfold perform, modify, exchanges in *. cbn [snd effects].
  rewrite filter_app. simpl. rewrite He, app_nil_r. exact Hs.
Qed.

Lemma cleanUrl_keeps_exchanges n : keeps (fun s => exchanges s = n) cleanUrl.
Proof.
  intros s Hs. unfold cleanUrl, modify, exchanges in *. cbn [snd effects].
  rewrite filter_app. simpl. rewrite app_nil_r. exact Hs.
Qed.

(** From its first [await] on the handler starts no session exchange. *)
Lemma epilogue_keeps_exchanges n : keeps (fun s => exchanges s = n) epilogue.
Proof.
  unfold epilogue.
  apply keeps_try_finally; [| intros s Hs; exact Hs].
  apply keeps_try_catch.
  - apply keeps_bind; [apply keeps_race_timeout; [apply lift_keeps_exchanges | intros ? H; exact H] |].
    intros r. destruct (resp_error r); [apply keeps_throw |].
    destruct (resp_data r) as [session |]; [| apply keeps_throw].
    apply keeps_bind; [apply cleanUrl_keeps_exchanges | intros _].
    apply keeps_bind; [apply keeps_race_timeout; [apply lift_keeps_exchanges | intros ? H; exact H] |].
    intros p. destruct (resp_error p); [now apply perform_keeps_exchanges |].
    destruct (resp_data p) as [[profileData |] |];
      try (now apply perform_keeps_exchanges).
    apply keeps_try_catch; [| intros; now apply perform_keeps_exchanges].
    apply keeps_bind; [apply keeps_race_timeout; [apply lift_keeps_exchanges | intros ? H; exact H] |].
    intros _. now apply perform_keeps_exchanges.
  - intros e. apply keeps_bind; [apply keeps_modify; intros s Hs; exact Hs | intros _].
    apply keeps_bind; [apply cleanUrl_keeps_exchanges | intros _].
    now apply perform_keeps_exchanges.
Qed.

Lemma invoke_while_processing s : isProcessing s = true -> invoke s = (Return tt, s).
Proof.
  intros H. unfold invoke, handleOAuthCallback, bind, prologue. now rewrite H.
Qed.

(** C8, as the code has it. (1) An invocation that finds [isProcessing] set
    does nothing.  (2) An invocation on a page with a marker sets
    [isProcessing] and starts one session exchange; a second invocation
    while the first is waiting does nothing, and the rest of the first one
    starts no further exchange: one exchange in all.  (3) The markers are
    [access_token] and [error] in the fragment and [code=] and [error=] in
    the query string: when none of the four is present the invocation does
    nothing. *)
Theorem oauth_callback_single_flight s :
  (isProcessing s = true -> invoke s = (Return tt, s)) /\
  (isProcessing s = false ->
   hasOAuthHash s || hasOAuthParams s = true ->
   let s1 := snd (invoke_prologue s) in
   fst (invoke_prologue s) = Return true /\
   isProcessing s1 = true /\
   exchanges s1 = S (exchanges s) /\
   invoke s1 = (Return tt, s1) /\
   exchanges (snd (epilogue s1)) = S (exchanges s)) /\
  (includes "access_token" (hash s) = false ->
   includes "error" (hash s) = false ->
   includes "code=" (search s) = false ->
   includes "error=" (search s) = false ->
   invoke s = (Return tt, s)).
Proof.
  split; [apply invoke_while_processing | split].
  - intros Hidle Hmark s1.
    assert (Hneg : negb (hasOAuthHash s) && negb (hasOAuthParams s) = false).
    { destruct (hasOAuthHash s), (hasOAuthParams s); simpl in *; congruence. }
    assert (Hrun : invoke_prologue s =
              (Return true,
               mkState
                 (AuthContext.set_net (log GetSession (AuthContext.net (ctx s))) (ctx s))
                 true None (hash s) (search s) (pathname s)
                 (effects s ++ [SessionExchange]))).
    { unfold invoke_prologue, prologue. rewrite Hidle.
      unfold bind at 1, gets. rewrite Hneg. reflexivity. }
    subst s1. rewrite Hrun. cbn [fst snd].
    match goal with |- context [invoke ?st] => set (s1 := st) end.
    assert (Hs1 : exchanges s1 = S (exchanges s)).
    { unfold exchanges, s1. cbn [effects].
      rewrite filter_app, length_app. simpl. lia. }
    split; [reflexivity | split; [reflexivity | split; [exact Hs1 | split]]].
    + now apply invoke_while_processing.
    + now apply epilogue_keeps_exchanges.
  - intros H1 H2 H3 H4.
    destruct (isProcessing s) eqn:Hp; [now apply invoke_while_processing |].
    unfold invoke, handleOAuthCallback, prologue. rewrite Hp.
    unfold bind, gets, hasOAuthHash, hasOAuthParams.
    rewrite H1, H2, H3, H4. cbn [orb]. rewrite !andb_false_r. reflexivity.
Qed.

(** A redirect with an access token in the fragment: one exchange, and the
    second invocation is a no-op. *)
Lemma oauth_callback_single_flight_witness :
  let s := AuthExamples.page "/" "" "#access_token=abc" in
  let s1 := snd (invoke_prologue s) in
  fst (invoke_prologue s) = Return true /\
  isProcessing s1 = true /\
  exchanges s1 = 1%nat /\
  invoke s1 = (Return tt, s1) /\
  exchanges (snd (epilogue s1)) = 1%nat.
Proof.
  apply (proj1 (proj2 (oauth_callback_single_flight
                         (AuthExamples.page "/" "" "#access_token=abc"))));
    reflexivity.
Defined.

(** C8, as stated, fails: a redirect that carries an authorization code in
    the query string has neither an access-token marker nor an error marker,
    in the fragment or in the query string, and the handler does not stay
    idle: it starts the session exchange. *)
Lemma oauth_callback_code_marker :
  let s := AuthExamples.page "/" "?code=abc" "" in
  spec_marker s = false /\
  isProcessing s = false /\
  fst (invoke_prologue s) = Return true /\
  effects (snd (invoke_prologue s)) = [SessionExchange].
Proof. repeat split. Qed.

End Callback.


(* ===================================================================== *)
(** * Listing and deleting photos *)
(* ===================================================================== *)

Section PhotoOpsRules.
Import PhotoStorage PhotoOps Outcomes.

Lemma ops_ends_withRetry_from {T} (operation : M PhotoOps.State T)
    (I : PhotoOps.State -> Prop) R maxRetries remaining :
  hoare I operation (ends R I I) ->
  timer_proof I ->
  forall attempt lastError,
    hoare I (PhotoOps.withRetry_from operation maxRetries remaining attempt lastError)
      (ends R I I).
Proof.
  intros Hop Hst. induction remaining as [| k IH]; intros attempt lastError; simpl.
  - apply ends_throw. auto.
  - eapply ends_try_catch; [exact Hop |]. intros error.
    eapply ends_bind with (R1 := fun _ => I).
    + destruct (attempt <? maxRetries).
      * intros s Hs. exact (Hst _ s Hs).
      * apply ends_ret. auto.
    + intros _. apply IH.
Qed.

Lemma ops_ends_withRetry {T} (operation : M PhotoOps.State T)
    (I : PhotoOps.State -> Prop) R maxRetries :
  hoare I operation (ends R I I) ->
  timer_proof I ->
  hoare I (PhotoOps.withRetry operation maxRetries) (ends R I I).
Proof. intros. now apply ops_ends_withRetry_from. Qed.

(** One request: the store is reached or not, and the promise resolves to
    the answer or to an error, rejects, or stays unsettled. *)
Lemma ops_ends_request {T} c (serve : World -> (JsError + T) * World)
    (P : PhotoOps.State -> Prop) (R : Response T -> PhotoOps.State -> Prop)
    (E N : PhotoOps.State -> Prop) :
  (forall s, P s ->
     let after w := PhotoOps.mkState w (tl (script s)) (calls s ++ [c]) (pathname_of s) in
     let s1 := after (store s) in
     let s2 := after (snd (serve (store s))) in
     (forall e, R (mkResponse None (Some e)) s1 /\ R (mkResponse None (Some e)) s2) /\
     R (answer (fst (serve (store s)))) s2 /\
     (E s1 /\ E s2) /\ (N s1 /\ N s2)) ->
  hoare P (PhotoOps.request c serve) (ends R E N).
Proof.
  intros H s Hs. destruct (H s Hs) as (HF & HW & [HE1 HE2] & [HN1 HN2]).
  unfold PhotoOps.request.
  destruct (PhotoOps.next_fault s); cbn [fst snd ends]; auto; try apply HF.
  destruct (serve (store s)) as [r w]; cbn [fst snd ends] in *. exact HW.
Qed.

Lemma lift_sleep_state ms s :
  snd (lift (sleep ms) s) =
  PhotoOps.mkState
    (mkWorld (photos (store s)) (objects (store s)) (clock (store s) + ms)
       (next_id (store s)) (public_url (store s)))
    (script s) (calls s ++ [Base (Sleep ms)]) (pathname_of s).
Proof. reflexivity. Qed.

Lemma no_store_write_app t c :
  no_store_write t = true -> is_store_write c = false ->
  no_store_write (t ++ [c]) = true.
Proof.
  intros Ht Hc. unfold no_store_write in *. rewrite forallb_app, Ht. simpl.
  now rewrite Hc.
Qed.

(** *** When every request settles *)

Lemma ops_calm_request {T} c (serve : World -> (JsError + T) * World) :
  hoare PhotoOps.calm (PhotoOps.request c serve)
    (post (fun _ => PhotoOps.calm) PhotoOps.calm).
Proof.
  intros s Hs. pose proof (settling_tl _ Hs) as Ht.
  assert (Hn : hangs (PhotoOps.next_fault s) = false).
  { unfold PhotoOps.calm, PhotoOps.next_fault in *.
    destruct (script s) as [| f rest]; [reflexivity |].
    unfold settling in Hs. simpl in Hs. apply andb_prop in Hs.
    now apply negb_true_iff. }
  unfold PhotoOps.request.
  destruct (PhotoOps.next_fault s); try discriminate Hn; cbn [fst snd post];
    try exact Ht.
  destruct (serve (store s)) as [r w]. exact Ht.
Qed.

Lemma ops_calm_withRetry {T} (operation : M PhotoOps.State T) maxRetries :
  hoare PhotoOps.calm operation (post (fun _ => PhotoOps.calm) PhotoOps.calm) ->
  hoare PhotoOps.calm (PhotoOps.withRetry operation maxRetries)
    (post (fun _ => PhotoOps.calm) PhotoOps.calm).
Proof.
  intros Hop. unfold PhotoOps.withRetry.
  generalize 1 null_error.
  induction (Z.to_nat maxRetries) as [| k IH]; intros attempt lastError; simpl.
  - apply hoare_throw. auto.
  - eapply hoare_try_catch; [exact Hop |]. intros error.
    eapply hoare_bind with (R1 := fun _ => PhotoOps.calm).
    + destruct (attempt <? maxRetries).
      * intros s Hs. exact Hs.
      * apply hoare_ret. auto.
    + intros _. apply IH.
Qed.

Lemma ops_calm_lift {A} (m : M PhotoStorage.State A) :
  hoare PhotoStorage.calm m (post (fun _ => PhotoStorage.calm) PhotoStorage.calm) ->
  hoare PhotoOps.calm (lift m) (post (fun _ => PhotoOps.calm) PhotoOps.calm).
Proof.
  intros Hm s Hs. unfold lift.
  specialize (Hm (PhotoStorage.mkState (store s) (script s) []) Hs).
  destruct (m (PhotoStorage.mkState (store s) (script s) [])) as [[a | e |] t];
    cbn [fst snd post] in *; auto.
Qed.

Lemma filter_twice {A} (f : A -> bool) (l : list A) :
  filter f (filter f l) = filter f l.
Proof.
  induction l as [| a l IH]; simpl; [reflexivity |].
  destruct (f a) eqn:Hf; simpl; [rewrite Hf, IH |]; auto.
Qed.

End PhotoOpsRules.

Section DeleteOutcome.
Import PhotoStorage PhotoOps Outcomes.
Variables (photoId : nat) (s0 : PhotoOps.State).

Local Notation "'Kept'" := (rows_kept s0).
Local Notation "'Maybe'" := (rows_kept_or_deleted photoId s0).
Local Notation "'Effect'" := (delete_effect photoId s0).

Lemma Kept_timer_proof : timer_proof Kept.
Proof. intros ms s H. rewrite lift_sleep_state. exact H. Qed.

Lemma Maybe_timer_proof : timer_proof Maybe.
Proof. intros ms s H. rewrite lift_sleep_state. exact H. Qed.

Lemma Kept_Maybe s : Kept s -> Maybe s.
Proof. intros (Hp & Ho & Hu). repeat split; auto. Qed.

Lemma Maybe_Effect s : Maybe s -> Effect s.
Proof. intros (Hp & Ho & Hu). split; auto. Qed.

Lemma Kept_Effect s : Kept s -> Effect s.
Proof. intros H. now apply Maybe_Effect, Kept_Maybe. Qed.

Lemma deleted_Effect s : row_and_object_deleted photoId s0 s -> Effect s.
Proof. intros (Hp & Ho). split; auto. Qed.

Lemma photo_fetch_Kept :
  hoare Kept (PhotoOps.withRetry (photo_fetch photoId) 2) (ends (fun _ => Kept) Kept Kept).
Proof.
  apply ops_ends_withRetry; [| exact Kept_timer_proof].
  apply ops_ends_request. intros s Hs. cbn zeta.
  destruct (filter (has_id photoId) (photos (store s))) as [| photo [| ? ?]];
    repeat split; try apply Hs.
Qed.

(** The metadata delete, sent up to twice: whatever is answered, the rows
    with this id may be gone; they are gone when an answer without error
    comes back. *)
Lemma photos_delete_Maybe :
  hoare Maybe (PhotoOps.withRetry (photos_delete photoId) 2)
    (ends (fun r s => Maybe s /\ (resp_error r = None -> row_deleted photoId s0 s))
          Maybe Maybe).
Proof.
  apply ops_ends_withRetry; [| exact Maybe_timer_proof].
  apply ops_ends_request. intros s (Hp & Ho & Hu). cbn zeta.
  cbn [fst snd answer resp_error].
  assert (Hdel : filter (fun p => negb (has_id photoId p)) (photos (store s)) =
                 filter (fun p => negb (has_id photoId p)) (photos (store s0))).
  { destruct Hp as [-> | ->]; [reflexivity | apply filter_twice]. }
  assert (H1 : Maybe (PhotoOps.mkState (store s) (tl (script s))
                        (calls s ++ [PhotosDelete photoId]) (pathname_of s))).
  { repeat split; auto. }
  assert (H2 : Maybe (PhotoOps.mkState
                        (mkWorld (filter (fun p => negb (has_id photoId p))
                                    (photos (store s)))
                           (objects (store s)) (clock (store s)) (next_id (store s))
                           (public_url (store s)))
                        (tl (script s)) (calls s ++ [PhotosDelete photoId])
                        (pathname_of s))).
  { repeat split; auto. }
  split; [intros e; split; (split; [assumption | intros Hc; discriminate Hc]) |].
  split; [split; [exact H2 | intros _; split; [exact Hdel | exact Ho]] |].
  auto.
Qed.

Lemma lift_storage_remove fileName s :
  photos (store (snd (lift (storage_remove fileName) s))) = photos (store s) /\
  (objects (store (snd (lift (storage_remove fileName) s))) = objects (store s) \/
   objects (store (snd (lift (storage_remove fileName) s))) =
     filter (fun k => negb (String.eqb fileName k)) (objects (store s))).
Proof.
  unfold lift, storage_remove, request, PhotoStorage.next_fault. cbn.
  destruct (script s) as [| [| e | e | | e | e |] rest]; cbn; auto.
Qed.

(** The removal of the object, with its failures swallowed. *)
Lemma storage_remove_swallowed fileName :
  hoare (row_deleted photoId s0)
    (try_catch (lift (storage_remove fileName) ;; ret tt) (fun _ => ret tt))
    (ends (fun _ => row_and_object_deleted photoId s0) never
          (row_and_object_deleted photoId s0)).
Proof.
  intros s (Hp & Ho).
  destruct (lift_storage_remove fileName s) as (Hp' & Ho').
  unfold try_catch, bind.
  destruct (lift (storage_remove fileName) s) as [[r | e |] s1];
    cbn [fst snd] in *;
    unfold ret; cbn [fst snd ends]; unfold row_and_object_deleted;
    (split; [now rewrite Hp', Hp |]);
    (destruct Ho' as [Ho' | Ho']; [left | right; exists fileName]);
    rewrite Ho', Ho; reflexivity.
Qed.

(** However [deletePhoto] ends, all it can have done is delete the rows with
    that id and one key.  When it reports success the rows are gone; when it
    reports a failure no key was removed. *)
Lemma deletePhoto_ends :
  hoare Kept (deletePhoto photoId)
    (ends (fun r s => if deleted r
                      then delete_error r = None /\ row_and_object_deleted photoId s0 s
                      else delete_error r <> None /\ Maybe s)
          never Effect).
Proof.
  assert (Hfail : forall msg (P : PhotoOps.State -> Prop) E N,
             (forall s, P s -> Maybe s) ->
             hoare P (ret (mkDelete false (Some msg)))
               (ends (fun r s => if deleted r
                                 then delete_error r = None /\
                                      row_and_object_deleted photoId s0 s
                                 else delete_error r <> None /\ Maybe s) E N)).
  { intros msg P E N HP. apply ends_ret. intros s Hs. cbn.
    split; [discriminate | exact (HP s Hs)]. }
  unfold deletePhoto.
  eapply ends_try_catch with (E1 := Maybe); [| intros _; apply Hfail; auto].
  eapply ends_bind with (R1 := fun _ => Kept).
  { eapply ends_conseq; [exact photo_fetch_Kept | auto | auto | exact Kept_Maybe
                        | exact Kept_Effect]. }
  intros [d [e |]]; cbn [resp_error resp_data].
  { destruct d; apply Hfail; exact Kept_Maybe. }
  destruct d as [photo |]; [| apply Hfail; exact Kept_Maybe].
  eapply ends_bind with (R1 := fun parse s => Kept s).
  { apply ends_gets. auto. }
  intros parse. destruct (parse (imageurl photo)) as [pathname |];
    [| apply ends_throw; exact Kept_Maybe].
  eapply ends_bind.
  { eapply ends_conseq; [exact photos_delete_Maybe | exact Kept_Maybe
                        | intros a s H; exact H | auto | exact Maybe_Effect]. }
  intros [r [e |]]; cbn [resp_error].
  { apply Hfail. now intros s [Hs _]. }
  eapply ends_bind with (R1 := fun _ => row_and_object_deleted photoId s0).
  { eapply ends_conseq;
      [apply storage_remove_swallowed | intros s [_ Hs]; now apply Hs | auto
      | intros s [] | exact deleted_Effect]. }
  intros _. apply ends_ret. intros s Hs. cbn. auto.
Qed.

(** When every request settles, [deletePhoto] settles. *)
Lemma deletePhoto_calm :
  hoare PhotoOps.calm (deletePhoto photoId)
    (post (fun _ => PhotoOps.calm) PhotoOps.calm).
Proof.
  unfold deletePhoto.
  eapply hoare_try_catch with (E1 := PhotoOps.calm);
    [| intros _; apply hoare_ret; auto].
  eapply hoare_bind with (R1 := fun _ => PhotoOps.calm);
    [apply ops_calm_withRetry, ops_calm_request |].
  intros [d [e |]]; cbn [resp_error resp_data];
    [destruct d; apply hoare_ret; auto |].
  destruct d as [photo |]; [| apply hoare_ret; auto].
  eapply hoare_bind with (R1 := fun _ => PhotoOps.calm); [apply hoare_gets; auto |].
  intros parse. destruct (parse (imageurl photo)); [| apply hoare_throw; auto].
  eapply hoare_bind with (R1 := fun _ => PhotoOps.calm);
    [apply ops_calm_withRetry, ops_calm_request |].
  intros [r [e |]]; cbn [resp_error]; [apply hoare_ret; auto |].
  eapply hoare_bind with (R1 := fun _ => PhotoOps.calm);
    [| intros _; apply hoare_ret; auto].
  eapply hoare_try_catch with (E1 := PhotoOps.calm);
    [| intros _; apply hoare_ret; auto].
  eapply hoare_bind with (R1 := fun _ => PhotoOps.calm);
    [apply ops_calm_lift, calm_request | intros _; apply hoare_ret; auto].
Qed.

End DeleteOutcome.

Section DeleteTheorems.
Import PhotoStorage PhotoOps.

Lemma rows_kept_refl s : rows_kept s s.
Proof. repeat split. Qed.

(** X1. [deletePhoto] never throws, and it returns when every request
    settles.  However it ends, with answers lost and promises left unsettled
    as the network pleases, all it can have done to the stores is delete the
    rows with that id (no other row is touched) and remove one key.  If it
    reports success, no error is set and every row with that id is gone.  If
    it reports a failure, an error message is set and the object store is
    exactly as before the call (the rows may be gone all the same). *)
Theorem deletePhoto_outcome photoId s :
  let c := fst (deletePhoto photoId s) in
  let s' := snd (deletePhoto photoId s) in
  (photos (store s') = photos (store s) \/
   photos (store s') = filter (fun p => negb (has_id photoId p)) (photos (store s))) /\
  (objects (store s') = objects (store s) \/
   exists fileName,
     objects (store s') =
       filter (fun k => negb (String.eqb fileName k)) (objects (store s))) /\
  match c with
  | Return r =>
      if deleted r then
        delete_error r = None /\
        photos (store s') = filter (fun p => negb (has_id photoId p)) (photos (store s))
      else
        delete_error r <> None /\ objects (store s') = objects (store s)
  | Throw _ => False
  | Pending => True
  end /\
  (settling (script s) = true -> exists r, c = Return r).
Proof.
  pose proof (deletePhoto_ends photoId s s (rows_kept_refl s)) as H.
  pose proof (deletePhoto_calm photoId s) as Hc. unfold PhotoOps.calm in Hc.
  destruct (deletePhoto photoId s) as [[r | e |] s1];
    cbn [fst snd Outcomes.ends post] in *; try contradiction.
  - destruct (deleted r).
    + destruct H as (He & Hp & Ho). repeat split; eauto.
    + destruct H as (He & Hp & Ho & _). repeat split; eauto.
  - destruct H as (Hp & Ho). repeat split; auto.
    intros Hs. contradiction (Hc Hs).
Qed.

(** The metadata delete is served and its answer lost twice: the call
    settles all the same. *)
Lemma deletePhoto_outcome_witness :
  exists r,
    fst (deletePhoto 0
           (PhotoOps.mkState
              (mkWorld [mkPhoto 0 "u1" "https://cdn.example/org1/u1/17_a.jpg" 17]
                 ["org1/u1/17_a.jpg"] 20 1 (fun k => k))
              [Works; ServedRejects Examples.network_down;
               ServedRejects Examples.network_down] []
              (fun _ => Some "/org1/u1/17_a.jpg"))) = Return r.
Proof.
  apply (deletePhoto_outcome 0
           (PhotoOps.mkState
              (mkWorld [mkPhoto 0 "u1" "https://cdn.example/org1/u1/17_a.jpg" 17]
                 ["org1/u1/17_a.jpg"] 20 1 (fun k => k))
              [Works; ServedRejects Examples.network_down;
               ServedRejects Examples.network_down] []
              (fun _ => Some "/org1/u1/17_a.jpg"))).
  reflexivity.
Defined.

Section Missing.
Import Outcomes.
Variables (photoId : nat) (s0 : PhotoOps.State).
Hypothesis missing : filter (has_id photoId) (photos (store s0)) = [].

Local Notation "'Untouched'" := (untouched s0).

Lemma Untouched_init : Untouched s0.
Proof. repeat split. exists []. now rewrite app_nil_r. Qed.

Lemma Untouched_timer_proof : timer_proof Untouched.
Proof.
  intros ms s (Hp & Ho & Hu & t & Ht & Hw). rewrite lift_sleep_state.
  repeat split; auto. exists (t ++ [Base (Sleep ms)])%list. cbn [calls].
  rewrite Ht, app_assoc. split; [reflexivity |]. now apply no_store_write_app.
Qed.

Lemma photo_fetch_missing :
  hoare Untouched (PhotoOps.withRetry (photo_fetch photoId) 2)
    (ends (fun a s => Untouched s /\ resp_error a <> None) Untouched Untouched).
Proof.
  apply ops_ends_withRetry; [| exact Untouched_timer_proof].
  apply ops_ends_request. intros s (Hp & Ho & Hu & t & Ht & Hw). cbn zeta.
  assert (HU : Untouched (PhotoOps.mkState (store s) (tl (script s))
                            (calls s ++ [PhotoFetch photoId]) (pathname_of s))).
  { repeat split; auto. exists (t ++ [PhotoFetch photoId])%list. cbn [calls].
    rewrite Ht, app_assoc. split; [reflexivity |]. now apply no_store_write_app. }
  rewrite Hp, missing. cbn [fst snd answer resp_error].
  repeat split; try apply HU; discriminate.
Qed.

Lemma deletePhoto_missing_ends :
  hoare Untouched (deletePhoto photoId)
    (ends (fun r s => Untouched s /\ deleted r = false) never Untouched).
Proof.
  unfold deletePhoto.
  eapply ends_try_catch with (E1 := Untouched);
    [| intros _; apply ends_ret; intros s Hs; split; [exact Hs | reflexivity]].
  eapply ends_bind; [exact photo_fetch_missing |].
  intros [d [e |]]; cbn [resp_error resp_data].
  - destruct d; apply ends_ret; intros s [Hs _]; (split; [exact Hs | reflexivity]).
  - intros s [_ Hne]. now contradiction Hne.
Qed.

End Missing.

(** X2. Deleting an id that no row has never reports success: the call does
    not throw, a result it returns is a failure, and it returns when every
    request settles (it stays pending when the fetch never settles).  However
    it ends, both stores stay as they are and no request that writes (no
    metadata delete, no object removal) is issued; when the first fetch is
    answered the call returns the failure [Photo not found]. *)
Theorem deletePhoto_missing photoId s :
  filter (has_id photoId) (photos (store s)) = [] ->
  match fst (deletePhoto photoId s) with
  | Return r => deleted r = false
  | Throw _ => False
  | Pending => True
  end /\
  (settling (script s) = true -> exists r, fst (deletePhoto photoId s) = Return r) /\
  photos (store (snd (deletePhoto photoId s))) = photos (store s) /\
  objects (store (snd (deletePhoto photoId s))) = objects (store s) /\
  (exists t, calls (snd (deletePhoto photoId s)) = (calls s ++ t)%list /\
             no_store_write t = true) /\
  (PhotoOps.next_fault s = Works ->
   fst (deletePhoto photoId s) = Return (mkDelete false (Some "Photo not found"))).
Proof.
  intros Hmiss.
  pose proof (deletePhoto_missing_ends photoId s Hmiss s (Untouched_init s)) as H.
  pose proof (deletePhoto_calm photoId s) as Hc. unfold PhotoOps.calm in Hc.
  assert (Hmsg : PhotoOps.next_fault s = Works ->
                 fst (deletePhoto photoId s) =
                   Return (mkDelete false (Some "Photo not found"))).
  { intros Hnf. unfold deletePhoto, try_catch, bind at 1, PhotoOps.withRetry.
    change (Z.to_nat 2) with 2%nat. cbn [PhotoOps.withRetry_from].
    unfold try_catch at 1, photo_fetch, PhotoOps.request. rewrite Hnf, Hmiss.
    reflexivity. }
  destruct (deletePhoto photoId s) as [[r | e |] s1];
    cbn [fst snd Outcomes.ends post] in *; try contradiction.
  - destruct H as ((Hp & Ho & _ & Ht) & Hd). repeat split; eauto.
  - destruct H as (Hp & Ho & _ & Ht). repeat split; auto.
    intros Hs. contradiction (Hc Hs).
Qed.

(** Nothing was ever uploaded: deleting photo 7 finds nothing. *)
Lemma deletePhoto_missing_witness :
  fst (deletePhoto 7 (PhotoOps.mkState Examples.empty_world [] [] (fun _ => None)))
    = Return (mkDelete false (Some "Photo not found")).
Proof.
  apply (deletePhoto_missing 7
           (PhotoOps.mkState Examples.empty_world [] [] (fun _ => None)) eq_refl).
  reflexivity.
Defined.

End DeleteTheorems.

Section DeleteOrder.
Import PhotoStorage PhotoOps.


(** X4. A failure of the object removal never surfaces: when the row is
    fetched, its URL parses and the metadata delete is served, then whatever
    happens to the removal request (served, resolved to an error or rejected,
    with the object removed or not) the call reports success; it stays
    pending only when the removal never settles.  In every case the row is
    gone, and the removal that was issued names the last three segments of
    the URL's path. *)
Theorem deletePhoto_swallows_storage_failure photoId s photo pathname f rest :
  filter (has_id photoId) (photos (store s)) = [photo] ->
  pathname_of s (imageurl photo) = Some pathname ->
  script s = Works :: Works :: f :: rest ->
  fst (deletePhoto photoId s) =
    (if hangs f then Pending else Return (mkDelete true None)) /\
  photos (store (snd (deletePhoto photoId s))) =
    filter (fun p => negb (has_id photoId p)) (photos (store s)) /\
  calls (snd (deletePhoto photoId s)) =
    (calls s ++ [PhotoFetch photoId; PhotosDelete photoId;
                 Base (StorageRemove (fileName_of pathname))])%list.
Proof.
  destruct s as [w sc cl pn]. cbn [store script calls pathname_of].
  intros Hrow Hpath ->.
  unfold deletePhoto, PhotoOps.withRetry. change (Z.to_nat 2) with 2%nat.
  cbn [PhotoOps.withRetry_from].
  unfold try_catch, bind, photo_fetch, photos_delete, PhotoOps.request, gets.
  cbn [PhotoOps.next_fault script store calls pathname_of tl].
  rewrite Hrow. cbn [answer resp_error resp_data fst snd pathname_of].
  rewrite Hpath.
  unfold lift, storage_remove, request, PhotoStorage.next_fault.
  destruct f as [| e | e | | e | e |]; cbn; rewrite <- !app_assoc; repeat split.
Qed.

(** The only photo is deleted while the object store is unreachable. *)
Lemma deletePhoto_swallows_storage_failure_witness :
  let photo := mkPhoto 0 "u1" "https://cdn.example/org1/u1/17_a.jpg" 17 in
  let s := PhotoOps.mkState
             (mkWorld [photo] ["org1/u1/17_a.jpg"] 20 1 (fun k => k))
             [Works; Works; Rejects Examples.network_down] []
             (fun _ => Some "/org1/u1/17_a.jpg") in
  fst (deletePhoto 0 s) = Return (mkDelete true None) /\
  photos (store (snd (deletePhoto 0 s))) = [] /\
  calls (snd (deletePhoto 0 s)) =
    [PhotoFetch 0; PhotosDelete 0; Base (StorageRemove "org1/u1/17_a.jpg")].
Proof.
  exact (deletePhoto_swallows_storage_failure 0
           (PhotoOps.mkState
              (mkWorld [mkPhoto 0 "u1" "https://cdn.example/org1/u1/17_a.jpg" 17]
                 ["org1/u1/17_a.jpg"] 20 1 (fun k => k))
              [Works; Works; Rejects Examples.network_down] []
              (fun _ => Some "/org1/u1/17_a.jpg"))
           (mkPhoto 0 "u1" "https://cdn.example/org1/u1/17_a.jpg" 17)
           "/org1/u1/17_a.jpg" (Rejects Examples.network_down) []
           eq_refl eq_refl eq_refl).
Defined.


End DeleteOrder.

(* ===================================================================== *)
(** * From the key to the URL and back *)
(* ===================================================================== *)

Section KeyRoundTrip.
Import PhotoStorage PhotoOps.

Lemma split_nonempty sep s : split sep s <> [].
Proof.
  destruct s as [| c rest]; simpl; [discriminate |].
  destruct (Ascii.eqb c sep); [discriminate |].
  destruct (split sep rest); discriminate.
Qed.

Lemma split_free sep s : free_of sep s = true -> split sep s = [s].
Proof.
  unfold free_of. induction s as [| c rest IH]; simpl; [reflexivity |].
  intros H. apply andb_true_iff in H. destruct H as [Hc Hrest].
  apply negb_true_iff in Hc. rewrite Hc, (IH Hrest). reflexivity.
Qed.

Lemma split_app sep x y :
  split sep (x ++ String sep y) = (split sep x ++ split sep y)%list.
Proof.
  induction x as [| c rest IH]; simpl.
  - now rewrite Ascii.eqb_refl.
  - destruct (Ascii.eqb c sep); [now rewrite IH |].
    rewrite IH. destruct (split sep rest) eqn:E; [now apply split_nonempty in E |].
    reflexivity.
Qed.

Lemma last3_app {A} (l : list A) a b c : last3 (l ++ [a; b; c]) = [a; b; c].
Proof.
  unfold last3. rewrite length_app. simpl.
  replace (length l + 3 - 3)%nat with (length l + 0)%nat by lia.
  rewrite skipn_app, Nat.add_0_r, skipn_all.
  replace (length l - length l)%nat with 0%nat by lia. reflexivity.
Qed.

Lemma free_of_app sep x y :
  free_of sep (x ++ y) = free_of sep x && free_of sep y.
Proof.
  unfold free_of. induction x as [| c rest IH]; simpl; [reflexivity |].
  now rewrite IH, andb_assoc.
Qed.

Lemma cleanName_free originalName : free_of "/" (cleanName originalName) = true.
Proof.
  unfold free_of, cleanName. induction originalName as [| c rest IH]; simpl;
    [reflexivity |].
  rewrite IH, andb_true_r. destruct (in_class c) eqn:Hc; [| reflexivity].
  destruct (Ascii.eqb c "/") eqn:E; [| reflexivity].
  apply Ascii.eqb_eq in E. subst c. discriminate Hc.
Qed.

Lemma uint_free d : free_of "/" (NilEmpty.string_of_uint d) = true.
Proof. induction d; simpl; auto. Qed.

Lemma show_free z : free_of "/" (show z) = true.
Proof.
  unfold show, NilZero.string_of_int, NilZero.string_of_uint.
  destruct (Z.to_int z) as [d | d]; destruct d; simpl; auto; apply uint_free.
Qed.

(** Three slash-free segments behind any prefix are what [fileName_of] keeps. *)
Lemma fileName_of_three_segments prefix organizationId userId file :
  free_of "/" organizationId = true ->
  free_of "/" userId = true ->
  free_of "/" file = true ->
  fileName_of (prefix ++ "/" ++ organizationId ++ "/" ++ userId ++ "/" ++ file)
  = organizationId ++ "/" ++ userId ++ "/" ++ file.
Proof.
  intros Horg Huser Hfile. unfold fileName_of.
  change (prefix ++ "/" ++ organizationId ++ "/" ++ userId ++ "/" ++ file)
    with (prefix ++ String "/" (organizationId ++ String "/" (userId ++ String "/" file))).
  rewrite !split_app, (split_free _ _ Horg), (split_free _ _ Huser),
    (split_free _ _ Hfile).
  change ([organizationId] ++ [userId] ++ [file])%list
    with [organizationId; userId; file].
  rewrite last3_app. reflexivity.
Qed.

(** The last segment of a generated key has no slash. *)
Lemma generated_file_free timestamp originalName :
  free_of "/" (show timestamp ++ "_" ++ cleanName originalName) = true.
Proof. rewrite !free_of_app, show_free, cleanName_free. reflexivity. Qed.

(** X5. The key survives the trip through the URL: when neither the
    organization id nor the member id contains a slash, the last three
    segments of any path that ends in [/ key] are the key that
    [generateFileName] built, whatever the file was called. *)
Theorem fileName_of_generated_key prefix timestamp organizationId userId originalName :
  free_of "/" organizationId = true ->
  free_of "/" userId = true ->
  fileName_of (prefix ++ "/" ++ fileNameAt timestamp organizationId userId originalName)
  = fileNameAt timestamp organizationId userId originalName.
Proof.
  intros Horg Huser. unfold fileNameAt.
  apply fileName_of_three_segments;
    [exact Horg | exact Huser | apply generated_file_free].
Qed.

(** A name with blanks and slashes, behind the public prefix of the bucket. *)
Lemma fileName_of_generated_key_witness :
  fileName_of ("/storage/v1/object/public/photos" ++ "/"
               ++ fileNameAt 1700000000000 "org1" "u1" "a/b c.jpg")
  = fileNameAt 1700000000000 "org1" "u1" "a/b c.jpg".
Proof.
  apply (fileName_of_generated_key "/storage/v1/object/public/photos" 1700000000000
           "org1" "u1" "a/b c.jpg"); reflexivity.
Defined.

End KeyRoundTrip.

(* ===================================================================== *)
(** * Photos of an organization, by member *)
(* ===================================================================== *)

Section Grouping.
Import PhotoStorage PhotoOps.

Lemma dict_get_set_same key value d : dict_get key (dict_set key value d) = Some value.
Proof.
  unfold dict_get. induction d as [| [k v] rest IH]; simpl.
  - now rewrite String.eqb_refl.
  - destruct (String.eqb k key) eqn:E; simpl; rewrite E; [reflexivity | exact IH].
Qed.

Lemma dict_get_set_other key key' value d :
  key <> key' -> dict_get key' (dict_set key value d) = dict_get key' d.
Proof.
  intros Hne. unfold dict_get. induction d as [| [k v] rest IH]; simpl.
  - apply String.eqb_neq in Hne. now rewrite Hne.
  - destruct (String.eqb k key) eqn:E; simpl.
    + apply String.eqb_eq in E. subst k. apply String.eqb_neq in Hne. now rewrite Hne.
    + destruct (String.eqb k key'); [reflexivity | exact IH].
Qed.

Lemma empty_lists_from userIds : forall d userId,
  dict_get userId (fold_left (fun d u => dict_set u [] d) userIds d) =
  if existsb (String.eqb userId) userIds then Some [] else dict_get userId d.
Proof.
  induction userIds as [| u rest IH]; intros d userId; simpl; [reflexivity |].
  rewrite IH. destruct (existsb (String.eqb userId) rest).
  - now rewrite orb_true_r.
  - rewrite orb_false_r. destruct (String.eqb userId u) eqn:E.
    + apply String.eqb_eq in E. subst u. apply dict_get_set_same.
    + apply dict_get_set_other. intros ->. now rewrite String.eqb_refl in E.
Qed.

Lemma push_all_get data : forall d userId,
  dict_get userId (push_all data d) =
  option_map (fun l => (l ++ filter (owned_by userId) data)%list) (dict_get userId d).
Proof.
  unfold push_all. induction data as [| photo rest IH]; intros d userId; simpl.
  - destruct (dict_get userId d); simpl; [now rewrite app_nil_r | reflexivity].
  - rewrite IH. unfold owned_by at 2.
    destruct (String.eqb (takenbyuserId photo) userId) eqn:E.
    + apply String.eqb_eq in E. rewrite E.
      destruct (dict_get userId d) as [l |] eqn:G.
      * rewrite dict_get_set_same. simpl. now rewrite <- app_assoc.
      * now rewrite G.
    + destruct (dict_get (takenbyuserId photo) d) as [l |]; [| reflexivity].
      rewrite dict_get_set_other; [reflexivity |].
      intros Heq. now rewrite Heq, String.eqb_refl in E.
Qed.

Lemma groupByUser_get userIds data userId :
  In userId userIds ->
  dict_get userId (groupByUser userIds data) = Some (filter (owned_by userId) data).
Proof.
  intros Hin. unfold groupByUser, empty_lists. rewrite push_all_get, empty_lists_from.
  replace (existsb (String.eqb userId) userIds) with true; [reflexivity |].
  symmetry. apply existsb_exists. exists userId. split; [exact Hin |].
  apply String.eqb_refl.
Qed.

(** X6. [getOrganizationPhotos] with an answered query returns a map in which
    every requested member id is present, also a member without photos, and
    is mapped to exactly the fetched rows of that member, in the order they
    were fetched; for an empty list of ids it returns the empty map without
    any request. *)
Theorem getOrganizationPhotos_groups userIds s :
  PhotoOps.next_fault s = Works ->
  (userIds = [] ->
   getOrganizationPhotos userIds s = (Return (mkOrgPhotos (Some []) None), s)) /\
  exists d,
    fst (getOrganizationPhotos userIds s) = Return (mkOrgPhotos (Some d) None) /\
    forall userId,
      In userId userIds ->
      dict_get userId d =
        Some (filter (owned_by userId)
                (firstn 250
                   (newest_first (filter (requested userIds) (photos (store s)))))).
Proof.
  intros Hnf. split; [now intros -> |].
  destruct userIds as [| u rest].
  - exists []. split; [reflexivity | intros ? []].
  - eexists. split.
    + unfold getOrganizationPhotos, try_catch, bind at 1, PhotoOps.withRetry.
      change (Z.to_nat 2) with 2%nat. cbn [PhotoOps.withRetry_from].
      unfold try_catch at 1, org_photos_select, PhotoOps.request. rewrite Hnf.
      cbn [fst snd answer resp_error resp_data]. reflexivity.
    + intros userId Hin. now apply groupByUser_get.
Qed.

(** Two members are asked for, one of them has a photo. *)
Lemma getOrganizationPhotos_groups_witness :
  let photo := mkPhoto 0 "u1" "https://cdn.example/org1/u1/17_a.jpg" 17 in
  let s := PhotoOps.mkState (mkWorld [photo] [] 20 1 (fun k => k)) [] []
             (fun _ => None) in
  exists d,
    fst (getOrganizationPhotos ["u2"; "u1"] s) = Return (mkOrgPhotos (Some d) None) /\
    dict_get "u2" d = Some [] /\
    dict_get "u1" d = Some [photo].
Proof.
  cbv zeta.
  destruct (proj2 (getOrganizationPhotos_groups ["u2"; "u1"]
              (PhotoOps.mkState
                 (mkWorld [mkPhoto 0 "u1" "https://cdn.example/org1/u1/17_a.jpg" 17]
                    [] 20 1 (fun k => k)) [] [] (fun _ => None)) eq_refl))
    as (d & Hd & Hget).
  exists d. split; [exact Hd | split].
  - apply (Hget "u2"). now left.
  - apply (Hget "u1"). right. now left.
Defined.

End Grouping.

(* ===================================================================== *)
(** * Upload, then delete *)
(* ===================================================================== *)

Section UploadRun.
Import PhotoStorage.

(** On a working network a valid file of a member below the quota, under a
    key that is free, goes through: the run of [uploadPhoto], step by step. *)
Lemma uploadPhoto_run file userId organizationId ph ob ck nid pu tr :
  let key := fileNameAt ck organizationId userId (name file) in
  let row := mkPhoto nid userId (pu key) ck in
  valid_file file ->
  (length (filter (owned_by userId) ph) < 5)%nat ->
  existsb (String.eqb key) ob = false ->
  truthy (pu key) = true ->
  uploadPhoto file userId organizationId (mkState (mkWorld ph ob ck nid pu) [] tr) =
    (Return (mkResult true (Some (mkData nid (pu key) userId)) None),
     mkState (mkWorld (ph ++ [row]) (ob ++ [key]) ck (S nid) pu) []
       (tr ++ [CountSelect userId] ++ [StorageUpload key]
           ++ [PhotosInsert userId (pu key)])).
Proof.
  intros key row [Hty Hsz] Hfew Hfree Hurl.
  assert (Hsz' : (size file >? MAX_FILE_SIZE) = false).
  { rewrite Z.gtb_ltb. apply Z.ltb_ge. exact Hsz. }
  assert (Hcount : (Z.of_nat (length (map id (firstn 10 (filter (owned_by userId) ph))))
                    >=? MAX_PHOTOS_PER_USER) = false).
  { rewrite length_map, length_firstn. unfold MAX_PHOTOS_PER_USER.
    rewrite Z.geb_leb. apply Z.leb_gt. lia. }
  unfold uploadPhoto. rewrite Hty, Hsz'. cbn [negb].
  unfold withRetry. change (Z.to_nat 2) with 2%nat. cbn [withRetry_from].
  unfold generateFileName.
  unfold try_catch, bind, count_select, storage_upload, photos_insert, request,
    gets, ret.
  cbn [next_fault faults world photos objects clock next_id public_url log pop_fault
       set_world trace tl fst snd answer resp_error resp_data].
  rewrite Hcount.
  cbn [next_fault faults world photos objects clock next_id public_url log pop_fault
       set_world trace tl fst snd answer resp_error resp_data].
  fold key. rewrite Hfree.
  cbn [next_fault faults world photos objects clock next_id public_url log pop_fault
       set_world trace tl fst snd answer resp_error resp_data].
  rewrite Hurl.
  cbn [negb next_fault faults world photos objects clock next_id public_url log
       pop_fault set_world trace tl fst snd answer resp_error resp_data id imageurl
       takenbyuserId].
  unfold set_world, log, pop_fault. cbn [faults trace world tl].
  repeat rewrite <- app_assoc. reflexivity.
Qed.

End UploadRun.

Section UploadThenDelete.
Import PhotoStorage PhotoOps.

(** On a working network the deletion of a row that is there goes through. *)
Lemma deletePhoto_run photoId w cl pn photo pathname :
  filter (has_id photoId) (photos w) = [photo] ->
  pn (imageurl photo) = Some pathname ->
  deletePhoto photoId (PhotoOps.mkState w [] cl pn) =
    (Return (mkDelete true None),
     PhotoOps.mkState
       (mkWorld (filter (fun p => negb (has_id photoId p)) (photos w))
          (filter (fun k => negb (String.eqb (fileName_of pathname) k)) (objects w))
          (clock w) (next_id w) (public_url w))
       []
       (cl ++ [PhotoFetch photoId] ++ [PhotosDelete photoId]
           ++ [Base (StorageRemove (fileName_of pathname))])
       pn).
Proof.
  intros Hrow Hpath.
  unfold deletePhoto, PhotoOps.withRetry. change (Z.to_nat 2) with 2%nat.
  cbn [PhotoOps.withRetry_from].
  unfold try_catch, bind, photo_fetch, photos_delete, PhotoOps.request, gets.
  cbn [PhotoOps.next_fault script store calls pathname_of tl].
  rewrite Hrow. cbn [answer resp_error resp_data fst snd pathname_of].
  rewrite Hpath. cbn. repeat rewrite <- app_assoc. reflexivity.
Qed.

Lemma filter_fresh_id nid (ph : list Photo) row :
  (forall p, In p ph -> (id p < nid)%nat) ->
  id row = nid ->
  filter (has_id nid) (ph ++ [row]) = [row] /\
  filter (fun p => negb (has_id nid p)) (ph ++ [row]) = ph.
Proof.
  intros Hlt Hid. rewrite !filter_app. simpl. unfold has_id at 2 4.
  rewrite Hid, Nat.eqb_refl. simpl. rewrite app_nil_r.
  assert (Hall : forall p, In p ph -> has_id nid p = false).
  { intros p Hp. unfold has_id. apply Nat.eqb_neq. specialize (Hlt p Hp). lia. }
  clear Hlt. induction ph as [| q rest IH]; simpl; [auto |].
  rewrite (Hall q (or_introl eq_refl)). simpl.
  destruct IH as [IH1 IH2]; [intros p Hp; apply Hall; now right |].
  split; [exact IH1 | now rewrite IH2].
Qed.

Lemma filter_fresh_key key (ob : list string) :
  existsb (String.eqb key) ob = false ->
  filter (fun k => negb (String.eqb key k)) (ob ++ [key]) = ob.
Proof.
  intros Hfree. rewrite filter_app. simpl. rewrite String.eqb_refl. simpl.
  rewrite app_nil_r. induction ob as [| k rest IH]; simpl in *; [reflexivity |].
  apply orb_false_iff in Hfree. destruct Hfree as [Hk Hrest].
  rewrite Hk. simpl. now rewrite IH.
Qed.

(** X8. Upload, then delete, on a working network leaves both stores as they
    were.  For a valid file of a member below the quota, whose key is free
    and whose public URL the browser parses to a path ending in the key, with
    ids that contain no slash and rows whose ids are below the next id: the
    upload reports success with the id of the new row, deleting that id
    reports success, and afterwards the Photo table and the object store hold
    exactly what they held before the upload. *)
Theorem upload_then_delete_restores file userId organizationId prefix s :
  let key := fileNameAt (clock (store s)) organizationId userId (name file) in
  script s = [] ->
  valid_file file ->
  (photo_count userId (store s) < 5)%nat ->
  existsb (String.eqb key) (objects (store s)) = false ->
  truthy (public_url (store s) key) = true ->
  pathname_of s (public_url (store s) key) = Some (prefix ++ "/" ++ key) ->
  free_of "/" organizationId = true ->
  free_of "/" userId = true ->
  (forall p, In p (photos (store s)) -> (id p < next_id (store s))%nat) ->
  let up := PhotoOps.uploadPhoto file userId organizationId s in
  let del := deletePhoto (next_id (store s)) (snd up) in
  (exists d, fst up = Return (mkResult true (Some d) None) /\
             data_id d = next_id (store s)) /\
  fst del = Return (mkDelete true None) /\
  photos (store (snd del)) = photos (store s) /\
  objects (store (snd del)) = objects (store s).
Proof.
  destruct s as [[ph ob ck nid pu] sc cl pn].
  cbn [store script calls pathname_of photos objects clock next_id public_url].
  intros Hsc Hvalid Hfew Hfree Hurl Hpath Horg Huser Hids. subst sc.
  set (key := fileNameAt ck organizationId userId (name file)) in *.
  unfold photo_count in Hfew. cbn [photos] in Hfew.
  assert (Hup : PhotoOps.uploadPhoto file userId organizationId
                  (PhotoOps.mkState (mkWorld ph ob ck nid pu) [] cl pn) =
                (Return (mkResult true (Some (mkData nid (pu key) userId)) None),
                 PhotoOps.mkState
                   (mkWorld (ph ++ [mkPhoto nid userId (pu key) ck]) (ob ++ [key]) ck
                      (S nid) pu)
                   []
                   (cl ++ map Base ([] ++ [CountSelect userId] ++ [StorageUpload key]
                                       ++ [PhotosInsert userId (pu key)]))
                   pn)).
  { unfold PhotoOps.uploadPhoto, lift. cbn [store script calls pathname_of].
    rewrite (uploadPhoto_run file userId organizationId ph ob ck nid pu []
               Hvalid Hfew Hfree Hurl).
    reflexivity. }
  cbv zeta. rewrite Hup. cbn [fst snd].
  destruct (filter_fresh_id nid ph (mkPhoto nid userId (pu key) ck) Hids eq_refl)
    as [Hone Hrest].
  rewrite (deletePhoto_run nid
             (mkWorld (ph ++ [mkPhoto nid userId (pu key) ck]) (ob ++ [key]) ck (S nid) pu)
             _ pn (mkPhoto nid userId (pu key) ck)
             (prefix ++ "/" ++ key) Hone Hpath).
  cbn [fst snd store photos objects].
  assert (Hkey : fileName_of (prefix ++ "/" ++ key) = key)
    by exact (fileName_of_three_segments _ _ _ _ Horg Huser
                (generated_file_free ck (name file))).
  rewrite Hkey, Hrest, (filter_fresh_key key ob Hfree).
  repeat split. exists (mkData nid (pu key) userId). split; reflexivity.
Qed.

(** A portrait goes up and comes down again. *)
Lemma upload_then_delete_restores_witness :
  let s := PhotoOps.mkState Examples.empty_world [] []
             (fun u => Some ("/storage/v1/object/public/photos" ++ "/"
                             ++ substring 20 1000 u)) in
  let up := PhotoOps.uploadPhoto Examples.portrait "u1" "org1" s in
  let del := deletePhoto 0 (snd up) in
  (exists d, fst up = Return (mkResult true (Some d) None) /\ data_id d = 0%nat) /\
  fst del = Return (mkDelete true None) /\
  photos (store (snd del)) = [] /\
  objects (store (snd del)) = [].
Proof.
  apply (upload_then_delete_restores Examples.portrait "u1" "org1"
           "/storage/v1/object/public/photos"
           (PhotoOps.mkState Examples.empty_world [] []
              (fun u => Some ("/storage/v1/object/public/photos" ++ "/"
                              ++ substring 20 1000 u))));
    try reflexivity.
  - split; [reflexivity | vm_compute; discriminate].
  - cbn. lia.
  - intros p [].
Defined.

End UploadThenDelete.

(* ===================================================================== *)
(** * The schedule of [withRetry] *)
(* ===================================================================== *)

Section Schedule.
Import PhotoStorage RetrySchedule.








End Schedule.

(* ===================================================================== *)
(** * The two reading functions *)
(* ===================================================================== *)

Section Reads.
Import PhotoStorage PhotoOps Outcomes.
Variable s0 : PhotoOps.State.

Local Notation "'Unwritten'" := (untouched s0).

Lemma Unwritten_log c s :
  is_store_write c = false ->
  Unwritten s ->
  Unwritten (PhotoOps.mkState (store s) (tl (script s)) (calls s ++ [c]) (pathname_of s)).
Proof.
  intros Hc (Hp & Ho & Hu & t & Ht & Hw). repeat split; auto.
  exists (t ++ [c])%list. cbn [calls]. rewrite Ht, app_assoc.
  split; [reflexivity |]. now apply no_store_write_app.
Qed.

Lemma user_photos_select_reads userId :
  hoare Unwritten (PhotoOps.withRetry (user_photos_select userId) 2)
    (ends (fun a s =>
             Unwritten s /\
             (resp_error a = None ->
              resp_data a =
                Some (firstn 10 (newest_first
                                   (filter (owned_by userId) (photos (store s0)))))))
          Unwritten Unwritten).
Proof.
  apply ops_ends_withRetry; [| exact (Untouched_timer_proof s0)].
  apply ops_ends_request. intros s Hs. cbn zeta.
  pose proof (Unwritten_log (UserPhotosSelect userId) s eq_refl Hs) as HU.
  destruct Hs as (Hp & _). cbn [fst snd answer resp_error resp_data]. rewrite Hp.
  repeat split; try apply HU; discriminate.
Qed.

Lemma getUserPhotos_ends userId :
  hoare Unwritten (getUserPhotos userId)
    (ends (fun r s =>
             Unwritten s /\
             match photos_error r with
             | Some _ => photos_data r = None
             | None =>
                 photos_data r =
                   Some (firstn 10 (newest_first
                                      (filter (owned_by userId) (photos (store s0)))))
             end)
          never Unwritten).
Proof.
  unfold getUserPhotos.
  eapply ends_try_catch with (E1 := Unwritten);
    [| intros _; apply ends_ret; intros s Hs; split; [exact Hs | reflexivity]].
  eapply ends_bind; [exact (user_photos_select_reads userId) |].
  intros [d [e |]]; cbn [resp_error resp_data]; apply ends_ret; intros s [Hs Hd].
  - split; [exact Hs | reflexivity].
  - split; [exact Hs | exact (Hd eq_refl)].
Qed.

(** When every request settles, the two reading functions settle. *)
Lemma getUserPhotos_calm userId :
  hoare PhotoOps.calm (getUserPhotos userId)
    (post (fun _ => PhotoOps.calm) PhotoOps.calm).
Proof.
  unfold getUserPhotos.
  eapply hoare_try_catch with (E1 := PhotoOps.calm);
    [| intros _; apply hoare_ret; auto].
  eapply hoare_bind with (R1 := fun _ => PhotoOps.calm);
    [apply ops_calm_withRetry, ops_calm_request |].
  intros r. destruct (resp_error r); apply hoare_ret; auto.
Qed.

Lemma getOrganizationPhotos_calm userIds :
  hoare PhotoOps.calm (getOrganizationPhotos userIds)
    (post (fun _ => PhotoOps.calm) PhotoOps.calm).
Proof.
  unfold getOrganizationPhotos.
  eapply hoare_try_catch with (E1 := PhotoOps.calm);
    [| intros _; apply hoare_ret; auto].
  destruct userIds as [| u rest]; [apply hoare_ret; auto |].
  eapply hoare_bind with (R1 := fun _ => PhotoOps.calm);
    [apply ops_calm_withRetry, ops_calm_request |].
  intros r. destruct (resp_error r); apply hoare_ret; auto.
Qed.

Lemma push_all_nil data : push_all data [] = [].
Proof. unfold push_all. induction data as [| p rest IH]; [reflexivity | exact IH]. Qed.

Lemma insert_newest_In p q l : In q (insert_newest p l) -> q = p \/ In q l.
Proof.
  induction l as [| x rest IH]; cbn [insert_newest].
  - intros [<- | []]. now left.
  - destruct (created_at x <? created_at p).
    + intros [<- | H]; [now left | now right].
    + intros [<- | H]; [right; now left |].
      destruct (IH H) as [-> | Hin]; [now left | right; now right].
Qed.

Lemma newest_first_In q l : In q (newest_first l) -> In q l.
Proof.
  induction l as [| x rest IH]; cbn [newest_first fold_right]; [auto |].
  intros H. apply insert_newest_In in H. destruct H as [-> | H]; [now left |].
  right. now apply IH.
Qed.

Lemma in_firstn {A} n (x : A) l : In x (firstn n l) -> In x l.
Proof.
  intros H. rewrite <- (firstn_skipn n l). apply in_or_app. now left.
Qed.

Lemma org_photos_select_reads userIds :
  hoare Unwritten (PhotoOps.withRetry (org_photos_select userIds) 2)
    (ends (fun a s =>
             Unwritten s /\
             (resp_error a = None ->
              resp_data a =
                Some (firstn 250 (newest_first
                                    (filter (requested userIds) (photos (store s0)))))))
          Unwritten Unwritten).
Proof.
  apply ops_ends_withRetry; [| exact (Untouched_timer_proof s0)].
  apply ops_ends_request. intros s Hs. cbn zeta.
  pose proof (Unwritten_log (OrgPhotosSelect userIds) s eq_refl Hs) as HU.
  destruct Hs as (Hp & _). cbn [fst snd answer resp_error resp_data]. rewrite Hp.
  repeat split; try apply HU; discriminate.
Qed.

Lemma getOrganizationPhotos_ends userIds :
  hoare Unwritten (getOrganizationPhotos userIds)
    (ends (fun r s =>
             Unwritten s /\
             match org_error r with
             | Some _ => org_data r = None
             | None =>
                 org_data r =
                   Some (groupByUser userIds
                           (firstn 250
                              (newest_first
                                 (filter (requested userIds) (photos (store s0))))))
             end)
          never Unwritten).
Proof.
  unfold getOrganizationPhotos.
  eapply ends_try_catch with (E1 := Unwritten);
    [| intros _; apply ends_ret; intros s Hs; split; [exact Hs | reflexivity]].
  destruct userIds as [| u rest].
  - apply ends_ret. intros s Hs. split; [exact Hs |].
    unfold groupByUser. now rewrite push_all_nil.
  - eapply ends_bind; [exact (org_photos_select_reads (u :: rest)) |].
    intros [d [e |]]; cbn [resp_error resp_data]; apply ends_ret; intros s [Hs Hd].
    + split; [exact Hs | reflexivity].
    + split; [exact Hs |]. cbn [org_error org_data]. now rewrite (Hd eq_refl).
Qed.

End Reads.

Section ReadTheorems.
Import PhotoStorage PhotoOps.

(** X11. [getUserPhotos] on any network, answers lost and promises left
    unsettled included: it never throws, and it returns when every request
    settles.  However it ends, it changes neither store and sends no request
    that writes.  A result it returns has either an error message and no
    data, or no error and the ten newest rows of that member, no row of
    anyone else among them. *)
Theorem getUserPhotos_outcome userId s :
  untouched s (snd (getUserPhotos userId s)) /\
  match fst (getUserPhotos userId s) with
  | Return r =>
      photos_error r <> None /\ photos_data r = None \/
      photos_error r = None /\
      exists l, photos_data r = Some l /\ (length l <= 10)%nat /\
                forallb (owned_by userId) l = true /\
                l = firstn 10 (newest_first (filter (owned_by userId) (photos (store s))))
  | Throw _ => False
  | Pending => True
  end /\
  (settling (script s) = true -> exists r, fst (getUserPhotos userId s) = Return r).
Proof.
  pose proof (getUserPhotos_ends s userId s (Untouched_init s)) as H.
  pose proof (getUserPhotos_calm userId s) as Hc. unfold PhotoOps.calm in Hc.
  destruct (getUserPhotos userId s) as [[r | e |] s1];
    cbn [fst snd Outcomes.ends post] in *; try contradiction.
  - destruct H as [HU Hr]. split; [exact HU |]. split; [| eauto].
    destruct (photos_error r) as [msg |].
    + left. split; [discriminate | exact Hr].
    + right. split; [reflexivity |]. eexists. split; [exact Hr |].
      split; [apply firstn_le_length |]. split; [| reflexivity].
      apply forallb_forall. intros p Hp. apply in_firstn in Hp.
      apply newest_first_In in Hp. now apply filter_In in Hp.
  - split; [exact H |]. split; [exact I |]. intros Hs. contradiction (Hc Hs).
Qed.

(** X12. [getOrganizationPhotos] on any network, answers lost and promises
    left unsettled included: it never throws, and it returns when every
    request settles.  However it ends, it changes neither store and sends no
    request that writes.  A result it returns has either an error message
    and no data, or no error and a map in which every requested member has
    exactly that member's rows among the 250 newest rows of the requested
    members. *)
Theorem getOrganizationPhotos_outcome userIds s :
  untouched s (snd (getOrganizationPhotos userIds s)) /\
  match fst (getOrganizationPhotos userIds s) with
  | Return r =>
      org_error r <> None /\ org_data r = None \/
      org_error r = None /\
      exists d, org_data r = Some d /\
        forall userId,
          In userId userIds ->
          dict_get userId d =
            Some (filter (owned_by userId)
                    (firstn 250
                       (newest_first (filter (requested userIds) (photos (store s))))))
  | Throw _ => False
  | Pending => True
  end /\
  (settling (script s) = true ->
   exists r, fst (getOrganizationPhotos userIds s) = Return r).
Proof.
  pose proof (getOrganizationPhotos_ends s userIds s (Untouched_init s)) as H.
  pose proof (getOrganizationPhotos_calm userIds s) as Hc. unfold PhotoOps.calm in Hc.
  destruct (getOrganizationPhotos userIds s) as [[r | e |] s1];
    cbn [fst snd Outcomes.ends post] in *; try contradiction.
  - destruct H as [HU Hr]. split; [exact HU |]. split; [| eauto].
    destruct (org_error r) as [msg |].
    + left. split; [discriminate | exact Hr].
    + right. split; [reflexivity |]. eexists. split; [exact Hr |].
      intros userId Hin. now apply groupByUser_get.
  - split; [exact H |]. split; [exact I |]. intros Hs. contradiction (Hc Hs).
Qed.

(** The select is rejected once and then answered. *)
Lemma getUserPhotos_outcome_witness :
  exists r,
    fst (getUserPhotos "u1"
           (PhotoOps.mkState Examples.empty_world [Rejects Examples.network_down] []
              (fun _ => None))) = Return r.
Proof.
  apply (getUserPhotos_outcome "u1"
           (PhotoOps.mkState Examples.empty_world [Rejects Examples.network_down] []
              (fun _ => None))).
  reflexivity.
Defined.

Lemma getOrganizationPhotos_outcome_witness :
  exists r,
    fst (getOrganizationPhotos ["u1"; "u2"]
           (PhotoOps.mkState Examples.empty_world [Rejects Examples.network_down] []
              (fun _ => None))) = Return r.
Proof.
  apply (getOrganizationPhotos_outcome ["u1"; "u2"]
           (PhotoOps.mkState Examples.empty_world [Rejects Examples.network_down] []
              (fun _ => None))).
  reflexivity.
Defined.

End ReadTheorems.

(* ===================================================================== *)
(** * How the OAuth callback ends *)
(* ===================================================================== *)

Section CallbackEnds.
Import Supabase AuthHandler Outcomes CallbackSpec.
Variable s0 : AuthHandler.State.

Local Notation "'Waiting'" := (waiting s0).
Local Notation "'Cleaned'" := (fun s => clean s /\ waiting s0 s).
Local Notation "'Redirected'" := (redirected s0).
Local Notation "'SentToLogin'" := (sent_to_login s0).

(** What the context does is not seen in the handler's own state. *)
Lemma lift_ends {A} (m : M AuthContext.State A) (I : AuthHandler.State -> Prop) :
  (forall c s, I s -> I (set_ctx c s)) ->
  hoare I (lift m) (ends (fun _ => I) I I).
Proof.
  intros HI s Hs. unfold lift. destruct (m (ctx s)) as [[a | e |] c];
    cbn [fst snd ends]; now apply HI.
Qed.

Lemma waiting_set_ctx c s : Waiting s -> Waiting (set_ctx c s).
Proof. intros H. exact H. Qed.

Lemma cleaned_set_ctx c s : Cleaned s -> Cleaned (set_ctx c s).
Proof. intros H. exact H. Qed.

Lemma navigations_app t e :
  navigations (t ++ [e]) =
  (navigations t ++ (if is_navigation e then [e] else []))%list.
Proof. unfold navigations. rewrite filter_app. cbn. now destruct (is_navigation e). Qed.

Lemma cleanUrl_cleans E N :
  hoare Waiting cleanUrl (ends (fun _ => Cleaned) E N).
Proof.
  apply ends_modify. intros s (Hp & He & t & Ht & Hn).
  repeat split; cbn [hash search pathname error effects]; auto.
  exists (t ++ [ReplaceState (pathname s)])%list.
  rewrite Ht, app_assoc, navigations_app, Hn. now split.
Qed.

Lemma navigate_redirects path E N :
  path = "/org-home" \/ path = "/post-auth" ->
  hoare Cleaned (perform (Navigate path)) (ends (fun _ => Redirected) E N).
Proof.
  intros Hpath. apply ends_modify. intros s (Hc & Hp & He & t & Ht & Hn).
  repeat split; cbn [hash search pathname error effects]; try apply Hc; auto.
  exists (t ++ [Navigate path])%list.
  rewrite Ht, app_assoc, navigations_app, Hn. split; [reflexivity |].
  destruct Hpath as [-> | ->]; [now left | now right].
Qed.

Lemma or_else_truthy a b : truthy b = true -> truthy (or_else a b) = true.
Proof. intros Hb. unfold or_else. now destruct (truthy a) eqn:Ha. Qed.

Lemma callback_catch error0 :
  hoare Waiting
    (AuthHandler.setError (Some (or_else (message error0) "Authentication failed")) ;;
     cleanUrl ;;
     perform (NavigateLater "/login" 2000))
    (ends (fun _ => SentToLogin) (fun _ => False) (fun _ => False)).
Proof.
  intros s (Hp & He & t & Ht & Hn).
  unfold bind, AuthHandler.setError, cleanUrl, perform, modify.
  cbn [fst snd ends hash search pathname error effects ctx isProcessing].
  repeat split; cbn [hash search pathname error effects]; auto.
  - eexists. split; [reflexivity |]. now apply or_else_truthy.
  - exists ((t ++ [ReplaceState (pathname s)]) ++ [NavigateLater "/login" 2000])%list.
    rewrite Ht, !app_assoc. split; [reflexivity |].
    rewrite !navigations_app, Hn. reflexivity.
Qed.

Lemma callback_try :
  hoare Waiting
    (r <- race_timeout sessionPromise (Error "Session retrieval timeout")
            (elapse 15000) ;;
     match resp_error r, resp_data r with
     | Some sessionError, _ =>
         throw (Error ("OAuth authentication failed: " ++ message sessionError))
     | None, None => throw (Error "Authentication failed. No session created.")
     | None, Some session =>
         cleanUrl ;;
         p <- race_timeout
                (lift (AuthContext.lift
                         (profile_lookup (user_id (session_user session)))))
                (Error "Profile check timeout") (elapse 10000) ;;
         match resp_error p, resp_data p with
         | Some _, _ => perform (Navigate "/post-auth")
         | None, Some (Some profileData) =>
             try_catch
               (race_timeout (lift AuthContext.checkAuthStatus)
                  (Error "Auth status check timeout") (elapse 8000) ;;
                perform (Navigate "/org-home"))
               (fun _ => perform (Navigate "/org-home"))
         | None, _ => perform (Navigate "/post-auth")
         end
     end)
    (ends (fun _ => Redirected) Waiting (fun _ => False)).
Proof.
  eapply ends_bind with (R1 := fun _ => Waiting).
  { eapply ends_race_timeout; [| intros s H; exact H]. unfold sessionPromise.
    apply lift_ends. exact waiting_set_ctx. }
  intros r. destruct (resp_error r) as [sessionError |].
  { apply ends_throw. auto. }
  destruct (resp_data r) as [session |]; [| apply ends_throw; auto].
  eapply ends_bind with (R1 := fun _ => Cleaned).
  { apply cleanUrl_cleans. }
  intros _.
  eapply ends_bind with (R1 := fun _ => Cleaned).
  { eapply ends_race_timeout with (N' := Waiting); [| intros s H; exact H].
    eapply hoare_conseq;
      [exact (lift_ends _ (fun s => clean s /\ waiting s0 s) cleaned_set_ctx) | auto |].
    intros [a | e |] s H; cbn [ends] in *; try exact H; apply H. }
  intros p.
  assert (Hweak : forall path, path = "/org-home" \/ path = "/post-auth" ->
            hoare Cleaned (perform (Navigate path))
              (ends (fun _ => Redirected) Waiting (fun _ => False)))
    by (intros; now apply navigate_redirects).
  destruct (resp_error p); [apply Hweak; now right |].
  destruct (resp_data p) as [[profileData |] |]; try (apply Hweak; now right).
  eapply ends_try_catch with (E1 := fun s => clean s /\ waiting s0 s);
    [| intros _; apply Hweak; now left].
  eapply ends_bind with (R1 := fun _ => Cleaned);
    [| intros _; apply navigate_redirects; now left].
  eapply ends_race_timeout; [| intros s H; exact H].
  exact (lift_ends _ (fun s => clean s /\ waiting s0 s) cleaned_set_ctx).
Qed.

Lemma epilogue_ends :
  hoare Waiting epilogue
    (ends (fun _ s => isProcessing s = false /\ (Redirected s \/ SentToLogin s))
       (fun _ => False) (fun _ => False)).
Proof.
  unfold epilogue.
  eapply ends_try_finally with
    (R := fun _ s => Redirected s \/ SentToLogin s)
    (E := fun _ => False) (N := fun _ => False).
  - eapply ends_try_catch with (E1 := waiting s0).
    + eapply hoare_conseq; [exact callback_try | auto |].
      intros [a | e |] s H; cbn [ends] in *; [left; exact H | exact H | exact H].
    + intros e. eapply hoare_conseq; [exact (callback_catch e) | auto |].
      intros [a | e' |] s H; cbn [ends] in *; [right; exact H | exact H | exact H].
  - intros _ s H. split; [reflexivity | exact H].
  - auto.
  - auto.
Qed.

End CallbackEnds.

Section CallbackTheorems.
Import Supabase AuthHandler Outcomes CallbackSpec.

Lemma waiting_refl s : waiting s s.
Proof.
  repeat split. exists []. now rewrite app_nil_r.
Qed.

(** X13. Once started, the callback always ends, and ends in exactly one
    redirect.  From its first [await] on, [handleOAuthCallback] neither
    throws nor hangs, whatever the identity provider, the database and the
    context do; it leaves [isProcessing] false and the address without
    fragment and query string; and it has either redirected once to
    [/org-home] or [/post-auth] with the error untouched, or shows a
    non-empty error and has scheduled one redirect to [/login] two seconds
    later. *)
Theorem oauth_callback_ends s :
  let s' := snd (epilogue s) in
  fst (epilogue s) = Return tt /\
  isProcessing s' = false /\
  hash s' = "" /\ search s' = "" /\ pathname s' = pathname s /\
  exists t,
    effects s' = (effects s ++ t)%list /\
    ((navigations t = [Navigate "/org-home"] \/ navigations t = [Navigate "/post-auth"]) /\
     error s' = error s \/
     navigations t = [NavigateLater "/login" 2000] /\
     exists msg, error s' = Some msg /\ truthy msg = true).
Proof.
  pose proof (epilogue_ends s s (waiting_refl s)) as H.
  destruct (epilogue s) as [[[] | e |] s1]; cbn [fst snd ends] in *; try contradiction.
  destruct H as [Hp [((Hh & Hs) & Hpath & He & t & Ht & Hn)
                    | ((Hh & Hs) & Hpath & Hmsg & t & Ht & Hn)]];
    repeat split; auto; exists t; (split; [exact Ht |]); [left | right]; auto.
Qed.

(** X14. The effect that runs the handler depends on [isProcessing], so it
    runs again when the callback has ended: that invocation, and any later
    one on the same page, finds no marker and does nothing. *)
Theorem oauth_callback_rerun_idle s :
  let s' := snd (epilogue s) in
  invoke s' = (Return tt, s').
Proof.
  pose proof (epilogue_ends s s (waiting_refl s)) as H.
  destruct (epilogue s) as [[[] | e |] s1]; cbn [fst snd ends] in *; try contradiction.
  assert (Hclean : clean s1) by (destruct H as [_ [H | H]]; apply H).
  destruct H as [Hp _]. destruct Hclean as [Hh Hs].
  unfold invoke, handleOAuthCallback, prologue. rewrite Hp.
  unfold bind, gets, hasOAuthHash, hasOAuthParams. rewrite Hh, Hs. reflexivity.
Qed.

End CallbackTheorems.

(* ===================================================================== *)
(** * The profile lookup *)
(* ===================================================================== *)

Section ResilientRules.
Import Supabase Outcomes.

(** One request under an invariant [I]: the store is reached or not, and the
    promise resolves to the answer or to an error, rejects, or stays
    unsettled. *)
Lemma ends_request {T} c (serve : State -> (JsError + T) * State)
    (I : State -> Prop) (R : Response T -> State -> Prop) :
  (forall s, I s ->
     let s1 := log c (pop_fault s) in
     let s2 := snd (serve s1) in
     (I s1 /\ I s2) /\
     (forall e, R (mkResponse None (Some e)) s1 /\ R (mkResponse None (Some e)) s2) /\
     R (answer (fst (serve s1))) s2) ->
  hoare I (request c serve) (ends R I I).
Proof.
  intros H s Hs. destruct (H s Hs) as ([HI1 HI2] & HF & HW). unfold request.
  destruct (next_fault s); cbn [fst snd ends]; auto; try apply HF.
  destruct (serve (log c (pop_fault s))) as [r s2]. exact HW.
Qed.

(** The wrapper returns what an attempt returned, or throws; it never hangs. *)
Lemma ends_resilient_from {T} (fetchFn : M State T) operation maxRetries timeoutMs
    (I : State -> Prop) (R : T -> State -> Prop) remaining :
  hoare I fetchFn (ends R I I) ->
  (forall ms, keeps I (sleep ms)) ->
  (forall ms s, I s -> I (elapse ms s)) ->
  forall attempt lastError,
    hoare I (resilient_from fetchFn operation maxRetries timeoutMs remaining attempt
               lastError)
      (ends R I never).
Proof.
  intros Hf Hsl Hel. induction remaining as [| k IH]; intros attempt lastError;
    cbn [resilient_from].
  - apply ends_throw. auto.
  - eapply ends_try_catch with (E1 := I);
      [eapply ends_race_timeout; [exact Hf | apply Hel] |].
    intros error. destruct (non_retryable error || (attempt =? maxRetries)).
    + apply ends_throw. auto.
    + eapply ends_bind with (R1 := fun _ => I); [| intros _; apply IH].
      destruct (attempt <? maxRetries).
      * intros s Hs. exact (Hsl _ s Hs).
      * apply ends_ret. auto.
Qed.

Lemma handleDatabaseError_truthy error operation :
  truthy (handleDatabaseError error operation) = true.
Proof.
  unfold handleDatabaseError.
  destruct (String.eqb (code error) "PGRST116"); [reflexivity |].
  destruct (String.eqb (code error) "23505"); [reflexivity |].
  destruct (String.eqb (code error) "23503"); [reflexivity |].
  destruct (truthy (message error)) eqn:Hm; [exact Hm | reflexivity].
Qed.

End ResilientRules.

Section ProfileLookup.
Import Supabase Outcomes ProfileSpec.
Variables (userId : string) (s0 : State).

Local Notation "'Same'" := (same_tables s0).

Lemma joined_same s : Same s -> joined userId s = joined userId s0.
Proof. intros [Hu Ho]. unfold joined, find_row. now rewrite Hu, Ho. Qed.

Lemma profile_fetch_ends :
  hoare Same
    (if negb (truthy userId) then throw (Error "User ID is required")
     else
       r <- profile_select userId ;;
       match resp_error r with
       | Some error => throw error
       | None =>
           ret (mkProfileResult
                  (match resp_data r with Some d => d | None => None end) None)
       end)
    (ends (fun r s => Same s /\ r = mkProfileResult (joined userId s0) None) Same Same).
Proof.
  destruct (negb (truthy userId)); [apply ends_throw; auto |].
  eapply ends_bind with
    (R1 := fun a s => Same s /\ (resp_error a = None -> resp_data a = Some (joined userId s0))).
  - apply ends_request. intros s Hs.
    assert (Hlog : Same (log (ProfileSelect userId) (pop_fault s))) by exact Hs.
    cbn [fst snd answer resp_error resp_data].
    split; [split; exact Hlog |].
    split; [intros e; split; (split; [exact Hlog | discriminate]) |].
    split; [exact Hlog |]. intros _. f_equal. exact (joined_same _ Hlog).
  - intros [d [e |]]; cbn [resp_error resp_data].
    + apply ends_throw. tauto.
    + apply ends_ret. intros s [Hs Hd]. split; [exact Hs |].
      now rewrite (Hd eq_refl).
Qed.

Lemma getUserProfile_ends :
  hoare Same (getUserProfile userId)
    (ends (fun r s =>
             Same s /\
             (r = mkProfileResult (joined userId s0) None \/
              profile_data r = None /\
              exists msg, profile_error r = Some msg /\ truthy msg = true))
          never never).
Proof.
  unfold getUserProfile, createResilientFetch.
  eapply ends_try_catch with (E1 := Same).
  - eapply hoare_conseq;
      [apply (ends_resilient_from _ _ _ _ Same
                (fun r s => Same s /\ r = mkProfileResult (joined userId s0) None));
       [exact profile_fetch_ends | intros ms s Hs; exact Hs
       | intros ms s Hs; exact Hs]
      | auto |].
    intros [r | e |] s H; cbn [ends] in *; [| exact H | exact H].
    destruct H as [Hs Hr]. split; [exact Hs | now left].
  - intros error. apply ends_ret. intros s Hs. split; [exact Hs | right].
    split; [reflexivity |]. eexists. split; [reflexivity |].
    apply handleDatabaseError_truthy.
Qed.

End ProfileLookup.

Section ProfileTheorems.
Import Supabase Outcomes ProfileSpec.

(** X15. [getUserProfile] on any network, also one that hangs: it returns
    (it never throws and never waits for ever), it changes no table, and its
    result is either the row of that id with its organization (no data when
    there is no such row) and no error, or no data and a non-empty error
    message. *)
Theorem getUserProfile_outcome userId s :
  exists r,
    fst (getUserProfile userId s) = Return r /\
    users (snd (getUserProfile userId s)) = users s /\
    orgs (snd (getUserProfile userId s)) = orgs s /\
    (profile_error r = None /\ profile_data r = joined userId s \/
     profile_data r = None /\
     exists msg, profile_error r = Some msg /\ truthy msg = true).
Proof.
  pose proof (getUserProfile_ends userId s s (conj eq_refl eq_refl)) as H.
  destruct (getUserProfile userId s) as [[r | e |] s1]; cbn [fst snd ends] in *;
    try contradiction.
  exists r. destruct H as [[Hu Ho] Hr]. repeat split; auto.
  destruct Hr as [-> | Hr]; [left; split; reflexivity | right; exact Hr].
Qed.

(** X16. The check of the id sits inside the retried function: for an empty
    id [getUserProfile] sends no request, yet makes both attempts, one
    second apart, before it reports [User ID is required]. *)
Theorem getUserProfile_empty_id userId s :
  truthy userId = false ->
  getUserProfile userId s =
  (Return (mkProfileResult None (Some "User ID is required")),
   snd (sleep (backoff_delay 1) s)) /\
  trace (snd (getUserProfile userId s)) = (trace s ++ [Sleep 1000])%list.
Proof.
  intros Hid. destruct userId as [| c rest]; [| discriminate Hid].
  unfold getUserProfile, createResilientFetch. change (Z.to_nat 2) with 2%nat.
  cbn [resilient_from truthy negb].
  unfold try_catch, race_timeout, throw, bind, ret. cbn. split; reflexivity.
Qed.

Lemma getUserProfile_empty_id_witness :
  getUserProfile "" (AuthExamples.provisioned []) =
  (Return (mkProfileResult None (Some "User ID is required")),
   snd (sleep (backoff_delay 1) (AuthExamples.provisioned []))) /\
  trace (snd (getUserProfile "" (AuthExamples.provisioned []))) = [Sleep 1000].
Proof. exact (getUserProfile_empty_id "" (AuthExamples.provisioned []) eq_refl). Defined.

End ProfileTheorems.

(* ===================================================================== *)
(** * The authentication context *)
(* ===================================================================== *)

Section ContextRules.
Import Supabase AuthContext Outcomes.

(** A computation that returns and touches only the client keeps what does
    not depend on the client. *)
Lemma ends_client {A} (m : M AuthContext.State A) (I : AuthContext.State -> Prop) :
  (forall s, exists a n, m s = (Return a, set_net n s)) ->
  (forall n s, I s -> I (set_net n s)) ->
  hoare I m (ends (fun _ => I) never never).
Proof.
  intros Hm HI s Hs. destruct (Hm s) as (a & n & ->). cbn [fst snd ends]. now apply HI.
Qed.

Lemma lift_returns {A} (m : M Supabase.State A) :
  (forall n, exists a n', m n = (Return a, n')) ->
  forall s, exists a n, lift m s = (Return a, set_net n s).
Proof.
  intros Hm s. unfold lift. destruct (Hm (net s)) as (a & n' & ->). eauto.
Qed.

Lemma sleep_returns ms n : exists a n', sleep ms n = (Return a, n').
Proof. unfold sleep. eauto. Qed.

Lemma getUserProfile_returns userId n :
  exists r n', getUserProfile userId n = (Return r, n').
Proof.
  pose proof (getUserProfile_ends userId n n (conj eq_refl eq_refl)) as H.
  destruct (getUserProfile userId n) as [[r | e |] n']; cbn [fst snd ends] in H;
    [eauto | contradiction | contradiction].
Qed.

(** The session check runs to the end and touches only the client. *)
Lemma validateExistingSession_run s :
  validateExistingSession s =
  (Return
     match next_session_reply (net s) with
     | Fulfilled (mkResponse (Some session) None) =>
         truthy (access_token session)
         && negb (expired (expires_at session) (now (net s)))
     | _ => false
     end,
   set_net
     match next_session_reply (net s) with
     | Unsettled => elapse 3000 (log GetSession (pop_session_reply (net s)))
     | _ => log GetSession (pop_session_reply (net s))
     end s).
Proof.
  unfold validateExistingSession, try_catch, bind, lift, race_timeout, auth_getSession,
    await.
  destruct (next_session_reply (net s)) as [[[session |] [e |]] | e |];
    cbn [fst snd resp_error resp_data set_net net]; try reflexivity.
  destruct (truthy (access_token session)); cbn [negb andb]; [| reflexivity].
  unfold gets, set_net. cbn [net now log pop_session_reply].
  destruct (expired (expires_at session) (now (net s))); reflexivity.
Qed.

Lemma validateExistingSession_returns s :
  exists b n, validateExistingSession s = (Return b, set_net n s).
Proof. rewrite validateExistingSession_run. eauto. Qed.

Lemma find_row_id userId n r : find_row userId n = Some r -> row_id r = userId.
Proof.
  unfold find_row. intros H. apply find_some in H. now apply String.eqb_eq.
Qed.

(** The profile the lookup returns has the id that was asked for. *)
Lemma lift_getUserProfile userId (I : AuthContext.State -> Prop) :
  (forall n s, I s -> I (set_net n s)) ->
  hoare I (lift (getUserProfile userId))
    (ends (fun r s =>
             I s /\
             forall p, profile_data r = Some p ->
                       row_id (profile_row p) = userId /\ profile_error r = None)
          never never).
Proof.
  intros HI s Hs. unfold lift.
  pose proof (getUserProfile_ends userId (net s) (net s) (conj eq_refl eq_refl)) as H.
  destruct (getUserProfile userId (net s)) as [[r | e |] n']; cbn [fst snd ends] in *;
    try contradiction.
  split; [now apply HI |]. intros p Hp. destruct H as [_ [-> | [Hnone _]]].
  - cbn [profile_data profile_error] in *. split; [| reflexivity].
    unfold ProfileSpec.joined in Hp.
    destruct (find_row userId (net s)) as [row |] eqn:Hrow; [| discriminate].
    injection Hp as <-. exact (find_row_id _ _ _ Hrow).
  - congruence.
Qed.

End ContextRules.

Section ContextCheck.
Import Supabase AuthContext Outcomes AuthListener.
Variable s0 : AuthContext.State.

Local Notation "'Cleared'" := (fun s => error s = None /\ bounded s0 s).
Local Notation "'Checked'" :=
  (fun (b : bool) s =>
     b = negb (is_none (profile s)) /\ profile_of_user s /\ bounded s0 s).

Lemma cleared_set_net n s : Cleared s -> Cleared (set_net n s).
Proof. intros H. exact H. Qed.

Lemma current_user_ends first count :
  hoare (fun s => Cleared s /\ count = retryCount s)
    (if is_none first && (count <? maxRetries) then
       setRetryCount (count + 1) ;;
       hasValidSession <- validateExistingSession ;;
       if hasValidSession then
         lift (sleep 1000) ;;
         lift getCurrentUser
       else ret first
     else ret first)
    (ends (fun _ => Cleared) never never).
Proof.
  destruct (is_none first && (count <? maxRetries)) eqn:Hretry.
  - apply andb_true_iff in Hretry. destruct Hretry as [_ Hlt]. apply Z.ltb_lt in Hlt.
    eapply ends_bind with (R1 := fun _ => Cleared).
    { apply ends_modify. intros s [[He Hb] Hc]. split; [exact He |].
      intros _. cbn [retryCount]. lia. }
    intros _. eapply ends_bind with (R1 := fun _ => Cleared).
    { apply ends_client; [exact validateExistingSession_returns | exact cleared_set_net]. }
    intros [|].
    + eapply ends_bind with (R1 := fun _ => Cleared); [| intros _];
        (apply ends_client; [| exact cleared_set_net]); apply lift_returns.
      * exact (sleep_returns 1000).
      * exact getCurrentUser_returns.
    + apply ends_ret. auto.
  - apply ends_ret. intros s [H _]. exact H.
Qed.

Lemma checkAuthStatus_ends :
  hoare (bounded s0) checkAuthStatus
    (ends (fun b s => isLoading s = false /\ Checked b s) never never).
Proof.
  unfold checkAuthStatus.
  eapply ends_try_finally with (R := Checked) (E := never) (N := never);
    [| intros b s H; split; [reflexivity | exact H] | auto | auto].
  eapply ends_try_catch with (E1 := never); [| intros e s []].
  eapply ends_bind with (R1 := fun _ => Cleared).
  { apply ends_modify. intros s Hb. split; [reflexivity | exact Hb]. }
  intros _. eapply ends_bind with (R1 := fun _ => Cleared).
  { apply ends_client; [apply lift_returns; exact getCurrentUser_returns
                       | exact cleared_set_net]. }
  intros first.
  eapply ends_bind with (R1 := fun count s => Cleared s /\ count = retryCount s).
  { intros s Hs. cbn [gets fst snd ends]. split; [exact Hs | reflexivity]. }
  intros count. eapply ends_bind with (R1 := fun _ => Cleared).
  { apply current_user_ends. }
  intros currentUser.
  eapply ends_bind with (R1 := fun _ s => Cleared s /\ user s = currentUser).
  { apply ends_modify. intros s Hs. split; [exact Hs | reflexivity]. }
  intros _. destruct currentUser as [u |].
  - eapply ends_try_catch with (E1 := never); [| intros e s []].
    eapply ends_bind.
    { apply (lift_getUserProfile (user_id u) (fun s => Cleared s /\ user s = Some u)).
      intros n s H. exact H. }
    intros r. destruct (profile_error r) as [msg |] eqn:Herr.
    + intros s [[[He Hb] Hu] Hp]. unfold bind, setError, setProfile, modify, ret.
      destruct (includes "timeout" msg); cbn [fst snd ends profile];
        (split; [reflexivity | split; [intros p Hp'; discriminate Hp' | exact Hb]]).
    + intros s [[[He Hb] Hu] Hp]. unfold bind, setProfile, setRetryCount, modify, ret.
      cbn [fst snd ends profile]. split; [reflexivity |]. split.
      * intros p Hp'. cbn [profile user error retryCount] in *.
        destruct (Hp p Hp') as [Hid _].
        split; [exists u; split; [exact Hu | exact Hid] | split; [exact He | reflexivity]].
      * intros _. cbn [retryCount]. unfold maxRetries. lia.
  - eapply ends_bind with (R1 := fun _ s => profile s = None /\ bounded s0 s).
    { apply ends_modify. intros s [[_ Hb] _]. split; [reflexivity | exact Hb]. }
    intros _.
    eapply ends_bind with (R1 := fun _ s => profile s = None /\ bounded s0 s).
    { intros s Hs. exact Hs. }
    intros count'. destruct (count' >=? maxRetries).
    + eapply ends_bind with (R1 := fun _ s => profile s = None /\ bounded s0 s).
      { apply ends_client; [exact validateExistingSession_returns | intros n s H; exact H]. }
      intros b. destruct (negb b); intros s [Hp Hb];
        unfold bind, setError, setRetryCount, modify, ret; cbn [fst snd ends profile];
        rewrite Hp; (split; [reflexivity | split; [intros p Hp'; discriminate Hp' |]]).
      * intros _. cbn [retryCount]. unfold maxRetries. lia.
      * exact Hb.
    + apply ends_ret. intros s [Hp Hb]. rewrite Hp.
      split; [reflexivity | split; [intros p Hp'; congruence | exact Hb]].
Qed.

Lemma onAuthStateChange_ends session :
  hoare (fun _ => True) (onAuthStateChange session)
    (ends (fun _ s =>
             isLoading s = false /\ retryCount s = 0 /\
             user s = option_map session_user session /\
             profile_of_user s /\
             (session = None -> profile s = None /\ error s = None))
          never never).
Proof.
  unfold onAuthStateChange.
  eapply ends_try_finally with
    (R := fun _ s => retryCount s = 0 /\
                     user s = option_map session_user session /\
                     profile_of_user s /\
                     (session = None -> profile s = None /\ error s = None))
    (E := never) (N := never);
    [| intros b s H; split; [reflexivity | exact H] | auto | auto].
  eapply ends_try_catch with (E1 := never); [| intros e s []].
  eapply ends_bind with (R1 := fun _ s => retryCount s = 0).
  { apply ends_modify. reflexivity. }
  intros _.
  eapply ends_bind with
    (R1 := fun _ s => retryCount s = 0 /\ user s = option_map session_user session).
  { apply ends_modify. intros s Hs. split; [exact Hs | reflexivity]. }
  intros _. destruct session as [current |]; cbn [option_map].
  - eapply ends_try_catch with (E1 := never); [| intros e s []].
    eapply ends_bind.
    { apply (lift_getUserProfile (user_id (session_user current))
               (fun s => retryCount s = 0 /\ user s = Some (session_user current))).
      intros n s H. exact H. }
    intros r. destruct (profile_error r) as [msg |] eqn:Herr.
    + intros s [[Hc Hu] Hp]. unfold bind, setError, setProfile, modify.
      destruct (includes "timeout" msg); cbn [fst snd ends profile user retryCount];
        (split; [exact Hc | split; [exact Hu | split;
           [intros p Hp'; discriminate Hp' | intros Hs; discriminate Hs]]]).
    + intros s [[Hc Hu] Hp]. unfold bind, setError, setProfile, modify.
      cbn [fst snd ends profile user retryCount error].
      split; [exact Hc | split; [exact Hu | split; [| intros Hs; discriminate Hs]]].
      intros p Hp'. cbn [profile user error retryCount] in *.
      destruct (Hp p Hp') as [Hid _].
      split; [exists (session_user current); split; [exact Hu | exact Hid] |].
      split; [reflexivity | exact Hc].
  - intros s [Hc Hu]. unfold bind, setError, setProfile, modify.
    cbn [fst snd ends profile user retryCount error].
    split; [exact Hc | split; [exact Hu | split; [intros p Hp'; discriminate Hp' |]]].
    intros _. split; reflexivity.
Qed.

End ContextCheck.

Section ContextTheorems.
Import Supabase AuthContext Outcomes AuthListener.

(** X17. [validateExistingSession] always answers, and answers [true]
    exactly for a session that [getSession] resolved to without error, with
    a non-empty access token and no expiry in the past (an absent or zero
    [expires_at] does not count as expired).  A rejection or the
    three-second timer give [false], they are never thrown on.  The call
    asks for the session once and touches nothing else; when the timer runs
    out, and only then, the clock has moved on, by its three seconds. *)
Theorem validateExistingSession_accepts s :
  exists b,
    validateExistingSession s =
      (Return b,
       set_net
         match next_session_reply (net s) with
         | Unsettled => elapse 3000 (log GetSession (pop_session_reply (net s)))
         | _ => log GetSession (pop_session_reply (net s))
         end s) /\
    (b = true <-> acceptable (next_session_reply (net s)) (now (net s))).
Proof.
  rewrite validateExistingSession_run. eexists. split; [reflexivity |].
  unfold acceptable.
  destruct (next_session_reply (net s)) as [[[session |] [e |]] | e |]; split;
    try discriminate; try (intros (session' & Heq & _); discriminate Heq).
  - intros Hb. apply andb_true_iff in Hb. destruct Hb as [Ht He].
    exists session. repeat split; [exact Ht |]. now destruct (expired _ _).
  - intros (session' & Heq & Ht & He). injection Heq as <-. now rewrite Ht, He.
Qed.

(** X18. [checkAuthStatus], run on its own, always returns (it neither
    throws nor hangs, whatever the identity provider and the database do)
    and leaves [isLoading] false.  It returns [true] exactly when it leaves
    a profile cached; and a cached profile is the cached user's own (same
    id), shown without an error and with the retry counter back at zero. *)
Theorem checkAuthStatus_outcome s :
  let s' := snd (checkAuthStatus s) in
  exists b,
    fst (checkAuthStatus s) = Return b /\
    isLoading s' = false /\
    b = negb (is_none (profile s')) /\
    profile_of_user s'.
Proof.
  pose proof (checkAuthStatus_ends s s (fun H => H)) as H.
  destruct (checkAuthStatus s) as [[b | e |] s1]; cbn [fst snd ends] in *;
    try contradiction.
  exists b. destruct H as (Hl & Hb & Hp & _). auto.
Qed.

(** X19. The retry counter of the context stays within [maxRetries]: a
    check that starts with the counter at most 2 ends with it at most 2. *)
Theorem checkAuthStatus_retry_bound s :
  retryCount s <= maxRetries ->
  retryCount (snd (checkAuthStatus s)) <= maxRetries.
Proof.
  intros Hle. pose proof (checkAuthStatus_ends s s (fun H => H)) as H.
  destruct (checkAuthStatus s) as [[b | e |] s1]; cbn [fst snd ends] in *;
    try contradiction.
  destruct H as (_ & _ & _ & Hb). exact (Hb Hle).
Qed.

(** Nothing settles and one retry is left: the counter does not pass 2. *)
Lemma checkAuthStatus_retry_bound_witness :
  retryCount
    (snd (checkAuthStatus (AuthExamples.signed_in AuthExamples.unreachable 1))) <= 2.
Proof.
  apply (checkAuthStatus_retry_bound (AuthExamples.signed_in AuthExamples.unreachable 1)).
  cbn. unfold maxRetries. lia.
Defined.

(** X20. The listener of the context, run on its own, always returns and
    leaves [isLoading] false and the retry counter at zero; the cached user
    is the user of the session it was given; a cached profile is that
    user's own, shown without an error; and for an event without session
    both the profile and the error are cleared. *)
Theorem onAuthStateChange_outcome session s :
  let s' := snd (onAuthStateChange session s) in
  fst (onAuthStateChange session s) = Return tt /\
  isLoading s' = false /\
  retryCount s' = 0 /\
  user s' = option_map session_user session /\
  profile_of_user s' /\
  (session = None -> profile s' = None /\ error s' = None).
Proof.
  pose proof (onAuthStateChange_ends session s I) as H.
  destruct (onAuthStateChange session s) as [[[] | e |] s1]; cbn [fst snd ends] in *;
    try contradiction.
  split; [reflexivity | exact H].
Qed.

End ContextTheorems.

(* ===================================================================== *)
(** * The resilient fetch and the provisioning *)
(* ===================================================================== *)

Section ResilientFetch.
Import Supabase.

(** X21. An attempt that throws an error whose message contains
    [Auth session missing] or [Invalid JWT] ends [createResilientFetch] at
    once: the error is rethrown from the state the attempt left, without a
    timer and without a further attempt, whatever [maxRetries] is. *)
Theorem resilient_stops_on_auth_error {T} (fetchFn : M State T) operation
    maxRetries timeoutMs s e s1 :
  1 <= maxRetries ->
  fetchFn s = (Throw e, s1) ->
  non_retryable e = true ->
  createResilientFetch fetchFn operation maxRetries timeoutMs s = (Throw e, s1).
Proof.
  intros Hge Hf Hnr. unfold createResilientFetch.
  destruct (Z.to_nat maxRetries) as [| k] eqn:Hk; [lia |].
  cbn [resilient_from]. unfold try_catch, race_timeout. rewrite Hf, Hnr. reflexivity.
Qed.

(** The profile query is rejected with an expired token: one request, no timer. *)
Lemma resilient_stops_on_auth_error_witness :
  createResilientFetch (profile_select "u1") "GetUserProfile" 2 5000
    (AuthExamples.provisioned [Rejects (Error "Invalid JWT: token is expired")]) =
  (Throw (Error "Invalid JWT: token is expired"),
   log (ProfileSelect "u1") (AuthExamples.provisioned [])).
Proof.
  apply (resilient_stops_on_auth_error (profile_select "u1") "GetUserProfile" 2 5000
           (AuthExamples.provisioned [Rejects (Error "Invalid JWT: token is expired")]));
    [lia | reflexivity | reflexivity].
Defined.

(** X22. With [maxRetries = 1], as [getOrgMembers] passes it, the wrapper
    does not retry: the call is one attempt raced against its timer (which
    moves the clock on by [timeoutMs] when it wins), and nothing more. *)
Theorem resilient_single_attempt {T} (fetchFn : M State T) operation timeoutMs s :
  createResilientFetch fetchFn operation 1 timeoutMs s =
  race_timeout fetchFn (timeout_error operation timeoutMs) (elapse timeoutMs) s.
Proof.
  unfold createResilientFetch. change (Z.to_nat 1) with 1%nat.
  cbn [resilient_from]. unfold try_catch.
  destruct (race_timeout fetchFn (timeout_error operation timeoutMs)
              (elapse timeoutMs) s)
    as [[a | e |] s1]; try reflexivity.
  change (1 =? 1) with true. rewrite orb_true_r. reflexivity.
Qed.

End ResilientFetch.

Section ProvisioningResult.
Import Supabase Outcomes ProfileSpec ProvisionSpec.
Variables (user : User) (joinCode : string) (role : option string) (s0 : State).

Local Notation "'Same'" := (same_tables s0).

Lemma find_row_same userId s : Same s -> find_row userId s = find_row userId s0.
Proof. intros [Hu _]. unfold find_row. now rewrite Hu. Qed.

Lemma find_org_same code s : Same s -> find_org code s = find_org code s0.
Proof. intros [_ Ho]. unfold find_org. now rewrite Ho. Qed.

Lemma Same_maybe row s : Same s -> maybe_appended row s0 s.
Proof. now left. Qed.

(** An insert that reaches the store appends the row once: a second one is
    refused, the id being taken. *)
Lemma users_insert_ends row :
  hoare (maybe_appended row s0) (users_insert row)
    (ends (fun a s => maybe_appended row s0 s /\
                      (resp_error a = None -> row_appended row s0 s))
          (maybe_appended row s0) (maybe_appended row s0)).
Proof.
  apply ends_request. intros s Hs. cbn zeta.
  assert (Hlog : maybe_appended row s0 (log (UsersInsert row) (pop_fault s)))
    by exact Hs.
  destruct (find_row (row_id row) (log (UsersInsert row) (pop_fault s))) eqn:Hfind;
    cbn [fst snd answer resp_error].
  - split; [split; exact Hlog |].
    split; [intros e; split; (split; [exact Hlog | discriminate]) |].
    split; [exact Hlog | discriminate].
  - assert (Happ : row_appended row s0
                     (set_users (users (log (UsersInsert row) (pop_fault s)) ++ [row])
                        (log (UsersInsert row) (pop_fault s)))).
    { destruct Hs as [[Hu Ho] | [Hu Ho]].
      - split; cbn [users orgs set_users log pop_fault]; [now rewrite Hu | exact Ho].
      - exfalso. refine (find_row_app (row_id row) (users s0) row
                           (log (UsersInsert row) (pop_fault s)) _ eq_refl Hfind).
        exact Hu. }
    split; [split; [exact Hlog | now right] |].
    split; [intros e; split; (split; [| discriminate]); [exact Hlog | now right] |].
    split; [now right | intros _; exact Happ].
Qed.

Lemma insert_attempt_ends row attempts :
  hoare (maybe_appended row s0) (insert_attempt row attempts)
    (ends (fun step s => match step with
                         | Some None => row_appended row s0 s
                         | _ => maybe_appended row s0 s
                         end)
          never (maybe_appended row s0)).
Proof.
  unfold insert_attempt.
  eapply ends_try_catch with (E1 := maybe_appended row s0);
    [| intros _; apply ends_ret; auto].
  eapply ends_bind; [exact (users_insert_ends row) |].
  intros [d [profileError |]]; cbn [resp_error];
    [| apply ends_ret; intros s [_ H]; now apply H].
  destruct (attempts =? maxAttempts - 1); [apply ends_ret; tauto |].
  eapply ends_bind with (R1 := fun _ => maybe_appended row s0);
    [| intros _; apply ends_ret; auto].
  intros s [Hs _]. exact Hs.
Qed.

Lemma insert_loop_ends row remaining : forall attempts,
  hoare (maybe_appended row s0) (insert_loop row remaining attempts)
    (ends (fun r s => match r with
                      | None => row_appended row s0 s
                      | Some _ => maybe_appended row s0 s
                      end)
          never (maybe_appended row s0)).
Proof.
  induction remaining as [| k IH]; intros attempts; cbn [insert_loop].
  - apply ends_ret. auto.
  - eapply ends_bind; [exact (insert_attempt_ends row attempts) |].
    intros [[msg |] |]; [apply ends_ret; auto | apply ends_ret; auto | apply IH].
Qed.

Lemma row_appended_found row s :
  row_id row = user_id user -> row_appended row s0 s -> find_row (user_id user) s <> None.
Proof. intros Hid [Hu _]. exact (find_row_app _ _ _ _ Hu Hid). Qed.

Lemma Same_written s : Same s -> profile_maybe_written user joinCode role s0 s.
Proof. now left. Qed.

Lemma createUserProfileFromOAuth_ends :
  hoare Same (createUserProfileFromOAuth (Some user) joinCode role)
    (ends (fun r s => match r with
                      | None => profile_in_place user joinCode role s0 s
                      | Some _ => profile_maybe_written user joinCode role s0 s
                      end)
          never (profile_maybe_written user joinCode role s0)).
Proof.
  assert (Hfail : forall (msg : string) (P : State -> Prop) E N,
            (forall s, P s -> Same s) ->
            hoare P (ret (Some msg))
              (ends (fun r s => match r with
                                | None => profile_in_place user joinCode role s0 s
                                | Some _ => profile_maybe_written user joinCode role s0 s
                                end) E N)).
  { intros msg P E N HP. apply ends_ret. intros s Hs. left. exact (HP s Hs). }
  unfold createUserProfileFromOAuth.
  eapply ends_try_catch with (E1 := profile_maybe_written user joinCode role s0);
    [| intros _; apply ends_ret; auto].
  destruct (negb (truthy (user_id user))); [apply Hfail; auto |].
  destruct (negb (truthy (trim joinCode))); [apply Hfail; auto |].
  eapply ends_bind with
    (R1 := fun org s =>
             Same s /\
             (resp_error org = None ->
              resp_data org = Some (find_org (trim joinCode) s0))).
  { eapply ends_conseq with (P' := Same) (E' := Same) (N' := never);
      [| intros s H; exact H | intros a s H; exact H | exact Same_written
       | intros s []].
    eapply ends_race_timeout with (N' := Same); [| intros s H; exact H].
    unfold org_lookup. apply ends_request. intros s Hs. cbn zeta.
    assert (Hlog : Same (log (OrgLookup (trim joinCode)) (pop_fault s))) by exact Hs.
    cbn [fst snd answer resp_error resp_data].
    split; [split; exact Hlog |].
    split; [intros e; split; (split; [exact Hlog | discriminate]) |].
    split; [exact Hlog |]. intros _. f_equal. exact (find_org_same _ _ Hlog). }
  intros [d [orgError |]]; cbn [resp_error resp_data].
  { apply Hfail. tauto. }
  destruct d as [[orgData |] |]; try (apply Hfail; tauto).
  apply hoare_assume with (F := find_org (trim joinCode) s0 = Some orgData).
  { intros s [_ Hd]. specialize (Hd eq_refl). now injection Hd as <-. }
  intros Horg.
  eapply ends_bind with
    (R1 := fun existing s =>
             Same s /\
             (forall p, resp_data existing = Some (Some p) ->
                        find_row (user_id user) s <> None)).
  { eapply ends_conseq with (P' := Same) (E' := Same) (N' := Same);
      [| tauto | intros a s H; exact H | exact Same_written | exact Same_written].
    unfold profile_lookup. apply ends_request. intros s Hs. cbn zeta.
    assert (Hlog : Same (log (ProfileLookup (user_id user)) (pop_fault s))) by exact Hs.
    cbn [fst snd answer resp_error resp_data].
    split; [split; exact Hlog |].
    split; [intros e; split; (split; [exact Hlog | discriminate]) |].
    split; [exact Hlog |]. intros p Hp. injection Hp as Hp. congruence. }
  intros existing.
  assert (Hwritten : forall s, maybe_appended (new_profile user orgData role) s0 s ->
                               profile_maybe_written user joinCode role s0 s).
  { intros s [H | H]; [now left | right; exists orgData; auto]. }
  assert (Hloop :
    hoare (fun s => Same s /\
                    (forall p, resp_data existing = Some (Some p) ->
                               find_row (user_id user) s <> None))
      (insert_loop (new_profile user orgData role) (Z.to_nat maxAttempts) 0)
      (ends (fun r s => match r with
                        | None => profile_in_place user joinCode role s0 s
                        | Some _ => profile_maybe_written user joinCode role s0 s
                        end)
            (profile_maybe_written user joinCode role s0)
            (profile_maybe_written user joinCode role s0))).
  { eapply ends_conseq;
      [apply insert_loop_ends | intros s [Hs _]; now left | | intros s [] | exact Hwritten].
    intros [msg |] s H; [now apply Hwritten |].
    split; [exact (row_appended_found (new_profile user orgData role) s eq_refl H) |].
    right. exists orgData. split; [exact Horg | exact H]. }
  destruct existing as [[[existingProfile |] |] e]; cbn [resp_data]; try exact Hloop.
  apply ends_ret. intros s [Hs Hp]. split; [exact (Hp _ eq_refl) | now left].
Qed.

End ProvisioningResult.

Section ProvisioningTheorem.
Import Supabase Outcomes ProfileSpec ProvisionSpec.

(** X23. What [createUserProfileFromOAuth] reports can be relied on,
    whatever the network does, answers lost and promises left unsettled
    included.  The call never throws.  When it reports success, the identity
    has a row in [users]: the tables are as before, or one row was appended,
    built from the identity, the role and the organization of the trimmed
    join code.  When it reports an error, or waits on a request that never
    settles, the tables are as before or that same one row was appended (an
    insert can reach the store and its answer be lost; the id being taken,
    the inserts sent after it add nothing).  The organizations are never
    touched, and a call without an identity changes nothing. *)
Theorem provisioning_result_consistent user joinCode role s :
  provisioned user joinCode role s
    (fst (createUserProfileFromOAuth user joinCode role s))
    (snd (createUserProfileFromOAuth user joinCode role s)).
Proof.
  destruct user as [u |]; [| split; reflexivity].
  pose proof (createUserProfileFromOAuth_ends u joinCode role s s
                (conj eq_refl eq_refl)) as H.
  unfold provisioned.
  destruct (createUserProfileFromOAuth (Some u) joinCode role s) as [[[msg |] | e |] s1];
    exact H.
Qed.

End ProvisioningTheorem.

(* ===================================================================== *)
(** * Accounts and organizations *)
(* ===================================================================== *)

Section OrganizationLookup.
Import Supabase Outcomes ProfileSpec Accounts.

(** X24. [getOrganizationByJoinCode] on any network, also one that hangs:
    it returns, it changes no table, and its result is either no error and
    the organization whose join code is the trimmed argument (no data when
    there is none), or no data and a non-empty error message; for a blank
    code it sends no request at all. *)
Theorem getOrganizationByJoinCode_outcome joinCode s :
  let s' := snd (getOrganizationByJoinCode joinCode s) in
  exists r,
    fst (getOrganizationByJoinCode joinCode s) = Return r /\
    same_tables s s' /\
    (lookup_error r = None /\ found_org r = find_org (trim joinCode) s \/
     found_org r = None /\ exists msg, lookup_error r = Some msg /\ truthy msg = true) /\
    (truthy (trim joinCode) = false -> s' = s).
Proof.
  unfold getOrganizationByJoinCode, try_catch.
  destruct (truthy (trim joinCode)) eqn:Hcode; cbn [negb].
  - unfold bind, race_timeout, org_lookup, request.
    destruct (next_fault s) as [| e | e | | e | e |];
      cbn [fst snd resp_error resp_data answer];
      eexists; (split; [reflexivity |]); (split; [split; reflexivity |]);
      (split; [| discriminate]);
      first [ left; split; reflexivity
            | right; split; [reflexivity |]; eexists; split; [reflexivity |];
              first [apply handleDatabaseError_truthy | reflexivity] ].
  - eexists. split; [reflexivity |]. split; [split; reflexivity |].
    split; [| reflexivity]. right. split; [reflexivity |]. eexists. split; reflexivity.
Qed.

End OrganizationLookup.

Section SignUpRules.
Import Supabase Outcomes ProfileSpec ProvisionSpec Accounts.

(** What a database computation establishes holds of the client's database;
    what does not depend on the database is kept. *)
Lemma accounts_lift_ends {A} (m : M Supabase.State A) (P : Supabase.State -> Prop)
    R E N (J : Accounts.State -> Prop) :
  hoare P m (ends R E N) ->
  (forall n s, J s -> J (mkState n (signUp_reply s) (signIn_reply s) (auth_calls s))) ->
  hoare (fun s => P (db s) /\ J s) (lift m)
    (ends (fun a s => R a (db s) /\ J s)
          (fun s => E (db s) /\ J s)
          (fun s => N (db s) /\ J s)).
Proof.
  intros Hm HJ s [HP Hs]. specialize (Hm (db s) HP). unfold lift.
  destruct (m (db s)) as [[a | e |] n]; cbn [fst snd ends db] in *;
    (split; [exact Hm | now apply HJ]).
Qed.

Lemma signup_insert_loop_ends s0 row remaining : forall attempts,
  hoare (maybe_appended row s0) (signup_insert_loop row remaining attempts)
    (ends (fun r s => match r with
                      | None => row_appended row s0 s
                      | Some _ => maybe_appended row s0 s
                      end)
          never (maybe_appended row s0)).
Proof.
  induction remaining as [| k IH]; intros attempts; cbn [signup_insert_loop].
  - apply ends_ret. auto.
  - eapply ends_bind; [exact (insert_attempt_ends s0 row attempts) |].
    intros [[msg |] |]; [apply ends_ret; auto | apply ends_ret; auto | apply IH].
Qed.

Lemma startsWith_append p s : startsWith p (p ++ s) = true.
Proof.
  unfold startsWith. induction p as [| a p IH]; cbn [append String.prefix].
  - now destruct s.
  - destruct (ascii_dec a a) as [_ | Hne]; [exact IH | now contradiction Hne].
Qed.

Lemma validateRequiredFields_ends {S} fields (I : S -> Prop) :
  hoare I (validateRequiredFields fields) (ends (fun _ => I) I never).
Proof.
  unfold validateRequiredFields.
  destruct (0 <? Z.of_nat (length (missing fields)));
    [apply ends_throw | apply ends_ret]; auto.
Qed.

End SignUpRules.

Section SignUp.
Import Supabase Outcomes ProfileSpec ProvisionSpec Accounts.
Variables (email password name joinCode : string) (role : option string).
Variable s0 : Accounts.State.

Local Notation "'Before'" :=
  (fun s => same_tables (db s0) (db s) /\
            (auth_calls s = auth_calls s0 /\ signUp_reply s = signUp_reply s0)).
Local Notation "'Quiet'" := (fun s => nothing_created s0 s).
Local Notation "'Asked'" :=
  (fun s => same_tables (db s0) (db s) /\
            (auth_calls s =
               (auth_calls s0 ++ [SignUp (toLowerCase (trim email)) password])%list /\
             find_org joinCode (db s0) <> None)).
Local Notation "'Open'" :=
  (fun s => nothing_created s0 s \/
            account_requested email password name joinCode role s0 s).
Local Notation "'Outcome'" :=
  (fun r s => sign_up_outcome email password name joinCode role s0 (Return r) s).

Lemma before_quiet s : Before s -> Open s.
Proof. intros (Hs & Hc & _). left. split; assumption. Qed.

Lemma asked_open s : Asked s -> Open s.
Proof.
  intros (Hs & Hc & Ho). right. split; [exact Hc |].
  destruct (find_org joinCode (db s0)) as [orgData |]; [| now contradiction Ho].
  exists orgData. split; [reflexivity | now left].
Qed.

Lemma refused_outcome msg s : Open s -> Outcome (refused msg) s.
Proof. intros H. split; [eexists; reflexivity | exact H]. Qed.

Lemma signUpWithEmail_ends :
  hoare Before (signUpWithEmail email password name joinCode role)
    (ends Outcome never Open).
Proof.
  unfold signUpWithEmail.
  eapply ends_try_catch with (E1 := Open);
    [| intros e; apply ends_ret; intros s Hs; now apply refused_outcome].
  eapply ends_bind with (R1 := fun _ => Before).
  { eapply hoare_conseq; [apply (validateRequiredFields_ends _ Before) | auto |].
    intros [a | e |] s H; cbn [ends] in *; [exact H | now apply before_quiet | contradiction]. }
  intros _.
  eapply ends_bind with
    (R1 := fun org s =>
             (resp_error org = None -> resp_data org = Some (find_org joinCode (db s0)))
             /\ Before s).
  { eapply ends_race_timeout with (N' := Before);
      [| intros s H; apply before_quiet; exact H].
    eapply hoare_conseq;
      [apply (accounts_lift_ends (org_lookup joinCode) (same_tables (db s0))
                (fun org n =>
                   same_tables (db s0) n /\
                   (resp_error org = None ->
                    resp_data org = Some (find_org joinCode (db s0))))
                (same_tables (db s0)) (same_tables (db s0))
                (fun s => auth_calls s = auth_calls s0 /\
                          signUp_reply s = signUp_reply s0))
      | | ].
    - unfold org_lookup. apply ends_request. intros n Hn. cbn zeta.
      assert (Hlog : same_tables (db s0) (log (OrgLookup joinCode) (pop_fault n)))
        by exact Hn.
      cbn [fst snd answer resp_error resp_data].
      split; [split; exact Hlog |].
      split; [intros e; split; (split; [exact Hlog | discriminate]) |].
      split; [exact Hlog |]. intros _. f_equal. exact (find_org_same _ _ _ Hlog).
    - intros n s H. exact H.
    - intros s H. exact H.
    - intros [org | e |] s H; cbn [ends] in *.
      + destruct H as [[Hs Hd] Hj]. split; [exact Hd | split; [exact Hs | exact Hj]].
      + apply before_quiet. exact H.
      + exact H. }
  intros [d [orgError |]]; cbn [resp_error resp_data].
  { apply ends_ret. intros s [_ Hs]. apply refused_outcome. now apply before_quiet. }
  destruct d as [[orgData |] |];
    try (apply ends_ret; intros s [_ Hs]; apply refused_outcome; now apply before_quiet).
  apply hoare_assume with (F := find_org joinCode (db s0) = Some orgData).
  { intros s [Hd _]. specialize (Hd eq_refl). now injection Hd as <-. }
  intros Horg.
  eapply ends_bind with
    (R1 := fun auth s =>
             Asked s /\
             signUp_reply s0 (toLowerCase (trim email)) password = Fulfilled auth).
  { intros s (_ & Hs & Hc & Hr). unfold auth_signUp, call_provider. rewrite Hr.
    assert (Hasked : Asked
              (mkState (db s) (signUp_reply s0) (signIn_reply s)
                 (auth_calls s ++ [SignUp (toLowerCase (trim email)) password]))).
    { split; [exact Hs |]. cbn [auth_calls]. rewrite Hc. split; [reflexivity | congruence]. }
    destruct (signUp_reply s0 (toLowerCase (trim email)) password) as [v | e |];
      cbn [fst snd ends]; [split; [exact Hasked | reflexivity] | |];
      apply asked_open; exact Hasked. }
  intros [a [authError |]]; cbn [resp_error resp_data].
  { apply ends_ret. intros s [Hs _]. apply refused_outcome. now apply asked_open. }
  destruct a as [[user |] |].
  - eapply ends_bind with
      (R1 := fun result s =>
               match result with
               | None =>
                   signed_up user email password name joinCode role s0 s
               | Some _ => account_requested email password name joinCode role s0 s
               end).
    + assert (Hreq : forall s,
                maybe_appended (signup_row user name email orgData role) (db s0) (db s) /\
                ((auth_calls s =
                    (auth_calls s0 ++ [SignUp (toLowerCase (trim email)) password])%list
                  /\ find_org joinCode (db s0) <> None) /\
                 signUp_reply s0 (toLowerCase (trim email)) password
                   = Fulfilled (mkResponse (Some (Some user)) None)) ->
                account_requested email password name joinCode role s0 s).
      { intros s [Hrow [[Hc _] Hr]]. split; [exact Hc |].
        exists orgData. split; [exact Horg |].
        destruct Hrow as [Hs | Hrow]; [now left | right; exists user; auto]. }
      eapply hoare_conseq;
        [apply (accounts_lift_ends
                  (signup_insert_loop (signup_row user name email orgData role)
                     (Z.to_nat maxAttempts) 0)
                  (maybe_appended (signup_row user name email orgData role) (db s0))
                  (fun r n =>
                     match r with
                     | None =>
                         row_appended (signup_row user name email orgData role) (db s0) n
                     | Some _ =>
                         maybe_appended (signup_row user name email orgData role)
                           (db s0) n
                     end)
                  never
                  (maybe_appended (signup_row user name email orgData role) (db s0))
                  (fun s =>
                     (auth_calls s =
                        (auth_calls s0 ++ [SignUp (toLowerCase (trim email)) password])%list
                      /\ find_org joinCode (db s0) <> None) /\
                     signUp_reply s0 (toLowerCase (trim email)) password
                       = Fulfilled (mkResponse (Some (Some user)) None)));
         [apply signup_insert_loop_ends | intros n s H; exact H]
        | | ].
      * intros s [(Hs & Hc) Hr]. split; [now left | split; [exact Hc | exact Hr]].
      * intros [[msg |] | e |] s H; cbn [ends] in *.
        -- now apply Hreq.
        -- destruct H as [Hrow [[Hc _] Hr]].
           split; [exact Hr | split; [exact Hc |]].
           exists orgData. split; [exact Horg | exact Hrow].
        -- destruct H as [[] _].
        -- right. now apply Hreq.
    + intros [msg |]; apply ends_ret; intros s H.
      * apply refused_outcome. now right.
      * split; [reflexivity | exact H].
  - apply ends_ret. intros s [Hs _]. apply refused_outcome. now apply asked_open.
  - apply ends_throw. intros s [Hs _]. now apply asked_open.
Qed.

End SignUp.

Section SignUpTheorems.
Import Supabase Outcomes ProfileSpec ProvisionSpec Accounts.

(** X25. What [signUpWithEmail] reports agrees with what was created,
    whatever the network and the identity provider do, answers lost and
    promises left unsettled included.  The call never throws.  When it
    returns a user, there is no error, the provider created that account for
    the trimmed, lower-cased address, and exactly one row was appended to
    [users]: the profile of that account in the organization of the join
    code.  When it returns an error, or waits on a promise that never
    settles, either nothing happened but reads, or the provider was asked
    once, after the join code was found, and then the tables are as before
    or the one profile row of the account the provider created was appended
    (an insert can reach the store and its answer be lost). *)
Theorem signUp_result_consistent email password name joinCode role s :
  sign_up_outcome email password name joinCode role s
    (fst (signUpWithEmail email password name joinCode role s))
    (snd (signUpWithEmail email password name joinCode role s)).
Proof.
  pose proof (signUpWithEmail_ends email password name joinCode role s s
                (conj (conj eq_refl eq_refl) (conj eq_refl eq_refl))) as H.
  destruct (signUpWithEmail email password name joinCode role s) as [[r | e |] s1];
    exact H.
Qed.

(** X26. No account without an organization: when no organization has the
    join code, [signUpWithEmail] returns an error and no user on any network
    (a lookup that hangs runs into its timer), never asks the identity
    provider to create an account, and writes no row. *)
Theorem signUp_needs_organization email password name joinCode role s :
  find_org joinCode (db s) = None ->
  let s' := snd (signUpWithEmail email password name joinCode role s) in
  exists msg,
    fst (signUpWithEmail email password name joinCode role s) = Return (refused msg) /\
    auth_calls s' = auth_calls s /\
    users (db s') = users (db s).
Proof.
  intros Hnone s'.
  assert (H : sign_up_outcome email password name joinCode role s
                 (fst (signUpWithEmail email password name joinCode role s))
                 (snd (signUpWithEmail email password name joinCode role s))).
  { pose proof (signUpWithEmail_ends email password name joinCode role s s
                  (conj (conj eq_refl eq_refl) (conj eq_refl eq_refl))) as H.
    destruct (signUpWithEmail email password name joinCode role s) as [[r | e |] s1];
      exact H. }
  assert (Hsettles : settles (fst (signUpWithEmail email password name joinCode role s))).
  { unfold signUpWithEmail, try_catch, bind, validateRequiredFields.
    destruct (0 <? Z.of_nat (length (missing _))); cbn [throw ret fst snd]; [exact I |].
    unfold race_timeout, lift, org_lookup, request.
    destruct (next_fault (db s)); cbn [fst snd answer resp_error resp_data]; try exact I.
    change (find_org joinCode (log (OrgLookup joinCode) (pop_fault (db s))))
      with (find_org joinCode (db s)).
    rewrite Hnone. exact I. }
  subst s'.
  destruct (signUpWithEmail email password name joinCode role s) as [[r | e |] s1];
    cbn [fst snd sign_up_outcome settles] in *; try contradiction.
  destruct r as [err [user |]]; cbn [sign_user sign_error] in H.
  - destruct H as [_ (_ & _ & org & Horg & _)]. congruence.
  - destruct H as [[msg Hmsg] [[[Hu _] Hc] | (_ & org & Horg & _)]];
      [| congruence].
    cbn [sign_error] in Hmsg. subst err. exists msg. repeat split; assumption.
Qed.

Lemma signUp_needs_organization_witness :
  let s := mkState (AuthExamples.unprovisioned [])
             (fun _ _ => Fulfilled (mkResponse (Some (Some AuthExamples.alice)) None))
             (fun _ _ => Unsettled) [] in
  let s' := snd (signUpWithEmail "alice@acme.com" "secret" "Alice" "NO-SUCH-CODE" None s) in
  exists msg,
    fst (signUpWithEmail "alice@acme.com" "secret" "Alice" "NO-SUCH-CODE" None s)
      = Return (refused msg) /\
    auth_calls s' = [] /\
    users (db s') = [].
Proof.
  apply (signUp_needs_organization "alice@acme.com" "secret" "Alice" "NO-SUCH-CODE" None
           (mkState (AuthExamples.unprovisioned [])
              (fun _ _ => Fulfilled (mkResponse (Some (Some AuthExamples.alice)) None))
              (fun _ _ => Unsettled) [])).
  reflexivity.
Defined.

(** X27. Validation comes before any call: with a blank field (empty, or
    white space only) neither sign function contacts the identity provider
    or the database, and the state is untouched.  [signUpWithEmail] reports
    the list of the missing fields; [signInWithEmail] replaces it by its
    generic message. *)
Theorem sign_functions_validate_first email password name joinCode role s :
  (blank email || blank password || blank name || blank joinCode = true ->
   exists msg,
     signUpWithEmail email password name joinCode role s = (Return (refused msg), s) /\
     startsWith "Missing required fields: " msg = true) /\
  (blank email || blank password = true ->
   signInWithEmail email password s =
     (Return (refused "An unexpected error occurred during sign in"), s)).
Proof.
  split; intros Hblank.
  - assert (Hmiss : (0 <? Z.of_nat (length
                       (missing [("email", email); ("password", password);
                                 ("name", name); ("joinCode", joinCode)]))) = true).
    { unfold missing. cbn [filter snd].
      destruct (blank email); [reflexivity |].
      destruct (blank password); [reflexivity |].
      destruct (blank name); [reflexivity |].
      destruct (blank joinCode); [reflexivity | discriminate Hblank]. }
    unfold signUpWithEmail, try_catch, bind, validateRequiredFields. rewrite Hmiss.
    cbn [throw ret fst snd message Error or_else truthy append].
    eexists. split; [reflexivity |].
    exact (startsWith_append "Missing required fields: "
             (PhotoOps.join ", "
                (missing [("email", email); ("password", password);
                          ("name", name); ("joinCode", joinCode)]))).
  - assert (Hmiss : (0 <? Z.of_nat (length
                       (missing [("email", email); ("password", password)]))) = true).
    { unfold missing. cbn [filter snd].
      destruct (blank email); [reflexivity |].
      destruct (blank password); [reflexivity | discriminate Hblank]. }
    unfold signInWithEmail, try_catch, bind, validateRequiredFields. rewrite Hmiss.
    reflexivity.
Qed.

(** A password of blanks only: nothing is sent, by either function. *)
Lemma sign_functions_validate_first_witness :
  let s := mkState (AuthExamples.unprovisioned []) (fun _ _ => Unsettled)
             (fun _ _ => Unsettled) [] in
  (exists msg,
     signUpWithEmail "alice@acme.com" "   " "Alice" "ACME-2024" None s
       = (Return (refused msg), s) /\
     startsWith "Missing required fields: " msg = true) /\
  signInWithEmail "alice@acme.com" "   " s =
    (Return (refused "An unexpected error occurred during sign in"), s).
Proof.
  split.
  - apply (proj1 (sign_functions_validate_first "alice@acme.com" "   " "Alice"
                    "ACME-2024" None _)).
    reflexivity.
  - apply (proj2 (sign_functions_validate_first "alice@acme.com" "   " "Alice"
                    "ACME-2024" None _)).
    reflexivity.
Defined.

End SignUpTheorems.

(* ===================================================================== *)
(** * The photo handlers of the organization page *)
(* ===================================================================== *)

Section PageRules.
Import PhotoStorage PhotoOps OrgHome.

Lemma filter_out_id photoId (l : list Photo) :
  filter (has_id photoId) (filter (fun p => negb (has_id photoId p)) l) = [].
Proof.
  induction l as [| p rest IH]; [reflexivity |]. cbn [filter].
  destruct (has_id photoId p) eqn:Hp; cbn [negb filter]; [exact IH |].
  now rewrite Hp.
Qed.

(** How [deletePhoto] can end, as the page sees it. *)
Lemma deletePhoto_runs photoId o :
  exists c o1,
    deletePhoto photoId o = (c, o1) /\
    (PhotoOps.calm o -> PhotoOps.calm o1 /\ settles c) /\
    match c with
    | Return r =>
        deleted r = true -> filter (has_id photoId) (photos (store o1)) = []
    | Throw _ => False
    | Pending => True
    end.
Proof.
  pose proof (deletePhoto_ends photoId o o (rows_kept_refl o)) as H.
  pose proof (deletePhoto_calm photoId o) as Hc.
  destruct (deletePhoto photoId o) as [[r | e |] o1];
    cbn [fst snd Outcomes.ends post] in *; try contradiction;
    eexists _, o1; (split; [reflexivity |]).
  - split; [intros Ho; split; [exact (Hc Ho) | exact I] |].
    intros Hd. rewrite Hd in H. destruct H as (_ & Hp & _). rewrite Hp.
    apply filter_out_id.
  - split; [intros Ho; contradiction (Hc Ho) | exact I].
Qed.

Lemma getUserPhotos_runs memberId o :
  exists c o1,
    getUserPhotos memberId o = (c, o1) /\
    (PhotoOps.calm o -> PhotoOps.calm o1 /\ settles c) /\
    photos (store o1) = photos (store o) /\
    match c with
    | Return r => forall l, photos_data r = Some l -> l = fresh_photos memberId (store o)
    | Throw _ => False
    | Pending => True
    end.
Proof.
  pose proof (getUserPhotos_ends o memberId o (Untouched_init o)) as H.
  pose proof (getUserPhotos_calm memberId o) as Hc.
  destruct (getUserPhotos memberId o) as [[r | e |] o1];
    cbn [fst snd Outcomes.ends post] in *; try contradiction;
    eexists _, o1; (split; [reflexivity |]).
  - destruct H as [(Hp & _) Hr].
    split; [intros Ho; split; [exact (Hc Ho) | exact I] |].
    split; [exact Hp |]. intros l Hl.
    destruct (photos_error r); rewrite Hr in Hl; [discriminate |].
    now injection Hl as <-.
  - destruct H as (Hp & _).
    split; [intros Ho; contradiction (Hc Ho) |]. split; [exact Hp | exact I].
Qed.

Lemma uploadPhoto_runs file memberId organizationId o :
  exists c o1,
    PhotoOps.uploadPhoto file memberId organizationId o = (c, o1) /\
    (PhotoOps.calm o -> PhotoOps.calm o1 /\ settles c) /\
    (exists added,
       photos (store o1) = (photos (store o) ++ added)%list /\
       (length added <= 2)%nat /\
       UploadSpec.owned memberId added /\
       match c with
       | Return r => if success r then added <> [] else exists msg, error r = Some msg
       | Throw _ => False
       | Pending => True
       end).
Proof.
  unfold PhotoOps.uploadPhoto, PhotoOps.lift.
  pose proof (uploadPhoto_ends file memberId organizationId
                (PhotoStorage.mkState (store o) (script o) [])
                (PhotoStorage.mkState (store o) (script o) [])
                (conj eq_refl eq_refl)) as H.
  pose proof (uploadPhoto_calm file memberId organizationId
                (PhotoStorage.mkState (store o) (script o) [])) as Hc.
  destruct (PhotoStorage.uploadPhoto file memberId organizationId
              (PhotoStorage.mkState (store o) (script o) [])) as [[r | e |] t];
    cbn [fst snd Outcomes.ends post] in *; try contradiction;
    eexists _, _; (split; [reflexivity |]); cbn [store].
  - split; [intros Ho; split; [exact (Hc Ho) | exact I] |].
    destruct H as [(added & Hp & Hlen & Hown & _) Hr].
    exists added. repeat split; auto.
    unfold UploadSpec.reported in Hr. destruct (success r).
    + destruct Hr as (row & key & _ & _ & (earlier & Hrow & _) & _).
      intros ->. rewrite Hp, app_nil_r in Hrow.
      apply (f_equal (@length Photo)) in Hrow.
      rewrite !length_app in Hrow. simpl in Hrow. lia.
    + destruct Hr as (_ & Herr).
      destruct (error r) as [msg |]; [eauto | now contradiction Herr].
  - split; [intros Ho; contradiction (Hc Ho) |].
    destruct H as (added & Hp & Hlen & Hown & _). exists added. auto.
Qed.

(** The refresh after a change: the cache of the others is kept, the entry
    of the member is kept or replaced by what the store holds; the cache is
    as it was while the query is not answered. *)
Lemma refreshPhotos_run memberId s :
  exists o1,
    photos (store o1) = photos (store (ops s)) /\
    (refreshPhotos memberId s =
       (Return tt,
        mkState o1 (memberPhotos s) (selectedMemberId s) (galleryMemberId s)
          (profile_organization_id s) (auth_user_id s) (showPhotoCapture s)
          (isUploading s) (uploadError s) (isDeleting s)) \/
     refreshPhotos memberId s =
       (Return tt,
        mkState o1 (dict_set memberId (fresh_photos memberId (store (ops s)))
                      (memberPhotos s))
          (selectedMemberId s) (galleryMemberId s)
          (profile_organization_id s) (auth_user_id s) (showPhotoCapture s)
          (isUploading s) (uploadError s) (isDeleting s)) \/
     refreshPhotos memberId s =
       (Pending,
        mkState o1 (memberPhotos s) (selectedMemberId s) (galleryMemberId s)
          (profile_organization_id s) (auth_user_id s) (showPhotoCapture s)
          (isUploading s) (uploadError s) (isDeleting s)) /\
     ~ PhotoOps.calm (ops s)).
Proof.
  destruct (getUserPhotos_runs memberId (ops s)) as (c & o1 & Heq & Hc & Hp & Hdata).
  exists o1. split; [exact Hp |].
  unfold refreshPhotos, bind, OrgHome.lift. rewrite Heq.
  destruct c as [r | e |]; [| contradiction |].
  - destruct (photos_data r) as [l |] eqn:Hl; [right; left | left; reflexivity].
    rewrite (Hdata l eq_refl). reflexivity.
  - right; right. split; [reflexivity |]. intros Ho. apply (Hc Ho).
Qed.

Lemma fresh_photos_same memberId w w' :
  photos w' = photos w -> fresh_photos memberId w' = fresh_photos memberId w.
Proof. unfold fresh_photos. now intros ->. Qed.

End PageRules.

Section PageRuns.
Import PhotoStorage PhotoOps OrgHome.

Lemma handleDeletePhoto_run photoId memberId s :
  galleryMemberId s = Some memberId ->
  truthy memberId = true ->
  exists o1 c final,
    handleDeletePhoto photoId s = (c, final) /\
    ((exists cache,
        c = Return tt /\
        final =
          mkState o1 cache (selectedMemberId s) (galleryMemberId s)
            (profile_organization_id s) (auth_user_id s) (showPhotoCapture s)
            (isUploading s) (uploadError s) false /\
        (cache = memberPhotos s \/
         cache = dict_set memberId (fresh_photos memberId (store o1)) (memberPhotos s) /\
         filter (has_id photoId) (photos (store o1)) = [])) \/
     c = Pending /\
     final =
       mkState o1 (memberPhotos s) (selectedMemberId s) (galleryMemberId s)
         (profile_organization_id s) (auth_user_id s) (showPhotoCapture s)
         (isUploading s) (uploadError s) true /\
     ~ PhotoOps.calm (ops s)).
Proof.
  destruct s as [o mp sel gal org uid shown upl err del].
  cbn [galleryMemberId selectedMemberId profile_organization_id auth_user_id
         showPhotoCapture isUploading uploadError memberPhotos ops].
  intros -> Ht. unfold handleDeletePhoto, bind at 1, gets.
  cbn [present galleryMemberId]. rewrite Ht. cbn [negb].
  unfold bind at 1, modify, try_finally, try_catch, bind at 1, OrgHome.lift.
  cbn [ops setIsDeleting].
  destruct (deletePhoto_runs photoId o) as (c & o1 & Heq & Hc & Hpost).
  rewrite Heq. destruct c as [r | e |]; [| contradiction |].
  - destruct (deleted r); cbn [negb].
    + match goal with |- context [refreshPhotos memberId ?st] => set (s1 := st) end.
      destruct (refreshPhotos_run memberId s1) as (o2 & Hp & [Hrun | [Hrun | [Hrun Hn]]]);
        rewrite Hrun; cbn [ops s1] in Hp; exists o2; eexists _, _;
        (split; [reflexivity |]).
      * left. eexists. split; [reflexivity |]. split; [reflexivity | now left].
      * left. eexists. split; [reflexivity |]. split; [reflexivity | right].
        cbn [ops s1 memberPhotos]. rewrite (fresh_photos_same memberId _ _ Hp).
        split; [reflexivity |]. rewrite Hp. now apply Hpost.
      * right. split; [reflexivity |]. split; [reflexivity |].
        intros Ho. apply Hn. cbn [ops s1]. apply (Hc Ho).
    + exists o1. eexists _, _. split; [reflexivity |].
      left. eexists. split; [reflexivity |]. split; [reflexivity | now left].
  - exists o1. eexists _, _. split; [reflexivity |].
    right. split; [reflexivity |]. split; [reflexivity |].
    intros Ho. apply (Hc Ho).
Qed.

Lemma handlePhotoCapture_run file memberId organizationId s :
  selectedMemberId s = Some memberId ->
  truthy memberId = true ->
  profile_organization_id s = Some organizationId ->
  truthy organizationId = true ->
  present (auth_user_id s) = true ->
  exists o1 added c final,
    handlePhotoCapture file s = (c, final) /\
    photos (store o1) = (photos (store (ops s)) ++ added)%list /\
    (length added <= 2)%nat /\
    UploadSpec.owned memberId added /\
    ((exists msg,
        c = Return tt /\
        final =
          mkState o1 (memberPhotos s) (selectedMemberId s) (galleryMemberId s)
            (profile_organization_id s) (auth_user_id s) (showPhotoCapture s)
            false (Some msg) (isDeleting s) /\
        truthy msg = true)
     \/
     (exists cache,
        c = Return tt /\
        final =
          mkState o1 cache None (galleryMemberId s)
            (profile_organization_id s) (auth_user_id s) false
            false None (isDeleting s) /\
        added <> [] /\
        (cache = memberPhotos s \/
         cache = dict_set memberId (fresh_photos memberId (store o1)) (memberPhotos s)))
     \/
     c = Pending /\
     final =
       mkState o1 (memberPhotos s) (selectedMemberId s) (galleryMemberId s)
         (profile_organization_id s) (auth_user_id s) (showPhotoCapture s)
         true None (isDeleting s) /\
     ~ PhotoOps.calm (ops s)).
Proof.
  destruct s as [o mp sel gal org uid shown upl err del].
  cbn [galleryMemberId selectedMemberId profile_organization_id auth_user_id
         showPhotoCapture isUploading uploadError memberPhotos ops isDeleting].
  intros -> Hm -> Ho Hu. unfold handlePhotoCapture, bind at 1, gets.
  cbn [selectedMemberId profile_organization_id auth_user_id].
  rewrite Hm, Ho, Hu. cbn [andb].
  unfold bind at 1, modify, bind at 1, setUploadError at 1, modify,
    try_finally, try_catch, bind at 1, OrgHome.lift.
  cbn [ops setIsUploading].
  destruct (uploadPhoto_runs file memberId organizationId o)
    as (c & o1 & Heq & Hc & added & Hadded & Hlen & Hown & Hpost).
  rewrite Heq. destruct c as [r | e |]; [| contradiction |].
  - destruct (success r); cbn [negb].
    + unfold bind at 1.
      match goal with |- context [refreshPhotos memberId ?st] => set (s1 := st) end.
      destruct (refreshPhotos_run memberId s1) as (o2 & Hp & [Hrun | [Hrun | [Hrun Hn]]]);
        rewrite Hrun; unfold bind, setShowPhotoCapture, setSelectedMemberId, modify;
        cbn [ops s1] in Hp; exists o2, added; eexists _, _; rewrite Hp;
        (split; [reflexivity |]);
        (split; [exact Hadded | split; [exact Hlen | split; [exact Hown |]]]).
      * right; left. eexists. split; [reflexivity |]. split; [reflexivity |].
        split; [exact Hpost | now left].
      * right; left. eexists. split; [reflexivity |]. split; [reflexivity |].
        split; [exact Hpost | right].
        cbn [ops s1 memberPhotos]. now rewrite (fresh_photos_same memberId _ _ Hp).
      * right; right. split; [reflexivity |]. split; [reflexivity |].
        intros Hcalm. apply Hn. cbn [ops s1]. apply (Hc Hcalm).
    + destruct Hpost as [msg Hmsg]. exists o1, added. eexists _, _.
      split; [reflexivity |].
      split; [exact Hadded | split; [exact Hlen | split; [exact Hown |]]].
      left. eexists. split; [reflexivity |]. split; [reflexivity |].
      now apply or_else_truthy.
  - exists o1, added. eexists _, _. split; [reflexivity |].
    split; [exact Hadded | split; [exact Hlen | split; [exact Hown |]]].
    right; right. split; [reflexivity |]. split; [reflexivity |].
    intros Hcalm. apply (Hc Hcalm).
Qed.

End PageRuns.

Section PageTheorems.
Import PhotoStorage PhotoOps OrgHome.

(** X28. Deleting from the gallery of a member, whatever the network does,
    answers lost and promises left unsettled included.  [handleDeletePhoto]
    never throws, it returns when every request settles, and however it ends
    it does not touch the cached photos of another member.  When it returns,
    [isDeleting] is false again, and either the whole cache is as it was, or
    the Photo table has no row of that id any more and the member's cache
    entry is what the table holds now.  While it waits on a request that
    never settles, [isDeleting] stays set and the cache is as it was. *)
Theorem handleDeletePhoto_refreshes photoId memberId s :
  galleryMemberId s = Some memberId ->
  truthy memberId = true ->
  let s' := snd (handleDeletePhoto photoId s) in
  others_cached memberId s s' /\
  (settling (script (ops s)) = true -> fst (handleDeletePhoto photoId s) = Return tt) /\
  match fst (handleDeletePhoto photoId s) with
  | Return _ =>
      isDeleting s' = false /\
      (memberPhotos s' = memberPhotos s \/
       filter (has_id photoId) (photos (store (ops s'))) = [] /\
       dict_get memberId (memberPhotos s') =
         Some (fresh_photos memberId (store (ops s'))))
  | Throw _ => False
  | Pending => isDeleting s' = true /\ memberPhotos s' = memberPhotos s
  end.
Proof.
  intros Hg Ht.
  destruct (handleDeletePhoto_run photoId memberId s Hg Ht)
    as (o1 & c & final & Hrun & [(cache & -> & -> & Hcache) | (-> & -> & Hn)]);
    rewrite Hrun; cbn [fst snd isDeleting memberPhotos ops].
  - destruct Hcache as [-> | [-> Hgone]].
    + split; [intros other _; reflexivity |]. split; [reflexivity |].
      split; [reflexivity | now left].
    + split; [intros other Hne; apply dict_get_set_other; congruence |].
      split; [reflexivity |]. split; [reflexivity |].
      right. split; [exact Hgone | apply dict_get_set_same].
  - split; [intros other _; reflexivity |].
    split; [intros Hs; contradiction (Hn Hs) | split; reflexivity].
Qed.

(** X29. Taking a photo for a member, with the member, the organization and
    the signed-in user known, whatever the network does, answers lost and
    promises left unsettled included.  [handlePhotoCapture] never throws, it
    returns when every request settles, and however it ends it does not touch
    the cached photos of another member and has appended at most two rows to
    the Photo table, all of them rows of that member.  When it returns,
    [isUploading] is false again, and either the upload was refused: a
    non-empty error is shown, the dialog stays open on the same member and
    the cache is as before (rows may have been written all the same); or it
    went through: no error is shown, the dialog is closed, at least one row
    was appended, and the member's cache entry is as before or what the table
    holds now.  While it waits on a request that never settles,
    [isUploading] stays set, no error is shown and the cache is as it was. *)
Theorem handlePhotoCapture_outcome file memberId organizationId s :
  selectedMemberId s = Some memberId ->
  truthy memberId = true ->
  profile_organization_id s = Some organizationId ->
  truthy organizationId = true ->
  present (auth_user_id s) = true ->
  let s' := snd (handlePhotoCapture file s) in
  others_cached memberId s s' /\
  (settling (script (ops s)) = true -> fst (handlePhotoCapture file s) = Return tt) /\
  exists added,
    photos (store (ops s')) = (photos (store (ops s)) ++ added)%list /\
    (length added <= 2)%nat /\
    Forall (fun p => takenbyuserId p = memberId) added /\
    match fst (handlePhotoCapture file s) with
    | Return _ =>
        isUploading s' = false /\
        ((exists msg, uploadError s' = Some msg /\ truthy msg = true) /\
         showPhotoCapture s' = showPhotoCapture s /\
         selectedMemberId s' = selectedMemberId s /\
         memberPhotos s' = memberPhotos s
         \/
         uploadError s' = None /\
         showPhotoCapture s' = false /\
         selectedMemberId s' = None /\
         added <> [] /\
         cached_or_fresh memberId s s')
    | Throw _ => False
    | Pending =>
        isUploading s' = true /\ uploadError s' = None /\
        memberPhotos s' = memberPhotos s
    end.
Proof.
  intros Hsel Hm Horg Ho Hu.
  destruct (handlePhotoCapture_run file memberId organizationId s Hsel Hm Horg Ho Hu)
    as (o1 & added & c & final & Hrun & Hadded & Hlen & Hown &
        [(msg & -> & -> & Hmsg) | [(cache & -> & -> & Hne & Hcache) | (-> & -> & Hn)]]);
    rewrite Hrun;
    cbn [fst snd isUploading memberPhotos ops uploadError showPhotoCapture
           selectedMemberId].
  - split; [intros other _; reflexivity |]. split; [reflexivity |].
    exists added. repeat split; auto. left.
    split; [exists msg; split; [reflexivity | exact Hmsg] |].
    repeat split; reflexivity.
  - destruct Hcache as [-> | ->].
    + split; [intros other _; reflexivity |]. split; [reflexivity |].
      exists added. repeat split; auto. right.
      repeat split; try reflexivity; [exact Hne | now left].
    + split; [intros other Hneq; apply dict_get_set_other; congruence |].
      split; [reflexivity |].
      exists added. repeat split; auto. right.
      repeat split; try reflexivity; [exact Hne |].
      right. cbn [memberPhotos ops]. apply dict_get_set_same.
  - split; [intros other _; reflexivity |].
    split; [intros Hs; contradiction (Hn Hs) |].
    exists added. repeat split; auto.
Qed.

(** The only photo of [u1] is deleted on a working network. *)
Lemma handleDeletePhoto_refreshes_witness :
  let s := mkState
             (PhotoOps.mkState
                (mkWorld [mkPhoto 0 "u1" "https://cdn.example/p/org1/u1/1_a.jpg" 1]
                   ["org1/u1/1_a.jpg"] 2 1 (fun key => "https://cdn.example/p/" ++ key))
                [] [] (fun _ => Some "/p/org1/u1/1_a.jpg"))
             [("u1", [mkPhoto 0 "u1" "https://cdn.example/p/org1/u1/1_a.jpg" 1])]
             None (Some "u1") (Some "org1") (Some "u9") false false None false in
  fst (handleDeletePhoto 0 s) = Return tt.
Proof.
  apply (handleDeletePhoto_refreshes 0 "u1"); reflexivity.
Defined.

(** A first photo of [u1] is taken on a working network. *)
Lemma handlePhotoCapture_outcome_witness :
  let s := mkState (PhotoOps.mkState Examples.empty_world [] [] (fun _ => None))
             [] (Some "u1") None (Some "org1") (Some "u9") true false None false in
  fst (handlePhotoCapture Examples.portrait s) = Return tt.
Proof.
  apply (handlePhotoCapture_outcome Examples.portrait "u1" "org1"); reflexivity.
Defined.

End PageTheorems.

(* ===================================================================== *)
(** * The join form *)
(* ===================================================================== *)

Section UsersKept.
Import Supabase AuthContext Outcomes ProfileSpec.
Variable l : list UserRow.

Local Notation "'Users'" := (fun n : Supabase.State => users n = l).
Local Notation "'CtxUsers'" := (fun s : AuthContext.State => users (net s) = l).

Lemma keeps_gets {S A} (I : S -> Prop) (f : S -> A) : keeps I (gets f).
Proof. intros s Hs. exact Hs. Qed.

Lemma keeps_resilient_from {T} (fetchFn : M Supabase.State T) operation maxRetries
    timeoutMs (I : Supabase.State -> Prop) remaining :
  keeps I fetchFn ->
  (forall ms, keeps I (sleep ms)) ->
  (forall ms s, I s -> I (elapse ms s)) ->
  forall attempt lastError,
    keeps I (resilient_from fetchFn operation maxRetries timeoutMs remaining attempt
               lastError).
Proof.
  intros Hf Hsl Hel. induction remaining as [| k IH]; intros attempt lastError;
    cbn [resilient_from].
  - apply keeps_throw.
  - apply keeps_try_catch; [apply keeps_race_timeout; [exact Hf | apply Hel] |].
    intros error. destruct (non_retryable error || (attempt =? maxRetries));
      [apply keeps_throw |].
    apply keeps_bind; [| intros _; apply IH].
    destruct (attempt <? maxRetries); [apply Hsl | apply keeps_ret].
Qed.

Lemma getCurrentUser_keeps_users : keeps Users getCurrentUser.
Proof.
  unfold getCurrentUser, createResilientFetch.
  apply keeps_try_catch; [| intros _; apply keeps_ret].
  apply keeps_resilient_from; [| intros ms s Hs; exact Hs | intros ms s Hs; exact Hs].
  unfold fetchCurrentUser. apply keeps_bind.
  - intros s Hs. unfold allSettled_getUser_getSession.
    destruct (next_user_reply s) as [u | e |], (next_session_reply s) as [v | e' |];
      exact Hs.
  - intros [userResult sessionResult]. destruct (user_of userResult); [apply keeps_ret |].
    destruct (session_user_of sessionResult); apply keeps_ret.
Qed.

Lemma getUserProfile_keeps_users userId : keeps Users (getUserProfile userId).
Proof.
  intros s Hs.
  pose proof (getUserProfile_ends userId s s (conj eq_refl eq_refl)) as H.
  destruct (getUserProfile userId s) as [[r | e |] s1]; cbn [fst snd ends] in *;
    try contradiction.
  destruct H as [[Hu _] _]. now rewrite Hu.
Qed.

Lemma lift_keeps_users {A} (m : M Supabase.State A) :
  keeps Users m -> keeps CtxUsers (lift m).
Proof.
  intros Hm s Hs. specialize (Hm (net s) Hs). unfold lift.
  destruct (m (net s)) as [r n]. exact Hm.
Qed.

Lemma validateExistingSession_keeps_users : keeps CtxUsers validateExistingSession.
Proof.
  intros s Hs. rewrite validateExistingSession_run. cbn [snd].
  destruct (next_session_reply (net s)); exact Hs.
Qed.

Lemma checkAuthStatus_keeps_users : keeps CtxUsers checkAuthStatus.
Proof.
  assert (Hset : forall f : AuthContext.State -> AuthContext.State,
             (forall s, net (f s) = net s) -> keeps CtxUsers (modify f)).
  { intros f Hf. apply keeps_modify. intros s Hs. now rewrite Hf. }
  assert (Hcurrent : keeps CtxUsers (lift getCurrentUser))
    by exact (lift_keeps_users _ getCurrentUser_keeps_users).
  unfold checkAuthStatus.
  apply keeps_try_finally; [| intros s Hs; exact Hs].
  apply keeps_try_catch.
  - apply keeps_bind; [apply Hset; reflexivity | intros _].
    apply keeps_bind; [exact Hcurrent | intros first].
    apply keeps_bind; [apply keeps_gets | intros count].
    apply keeps_bind.
    { destruct (is_none first && (count <? maxRetries)); [| apply keeps_ret].
      apply keeps_bind; [apply Hset; reflexivity | intros _].
      apply keeps_bind; [exact validateExistingSession_keeps_users | intros [|]];
        [| apply keeps_ret].
      apply keeps_bind; [| intros _; exact Hcurrent].
      apply lift_keeps_users. intros s Hs. exact Hs. }
    intros currentUser.
    apply keeps_bind; [apply Hset; reflexivity | intros _].
    destruct currentUser as [u |].
    + apply keeps_try_catch.
      * apply keeps_bind;
          [exact (lift_keeps_users _ (getUserProfile_keeps_users (user_id u))) |].
        intros r. destruct (profile_error r) as [msg |].
        -- apply keeps_bind; [destruct (includes "timeout" msg); apply Hset; reflexivity |].
           intros _. apply keeps_bind; [apply Hset; reflexivity | intros _; apply keeps_ret].
        -- apply keeps_bind; [apply Hset; reflexivity | intros _].
           apply keeps_bind; [apply Hset; reflexivity | intros _; apply keeps_ret].
      * intros _. apply keeps_bind; [apply Hset; reflexivity | intros _].
        apply keeps_bind; [apply Hset; reflexivity | intros _; apply keeps_ret].
    + apply keeps_bind; [apply Hset; reflexivity | intros _].
      apply keeps_bind; [apply keeps_gets | intros count'].
      destruct (count' >=? maxRetries); [| apply keeps_ret].
      apply keeps_bind; [exact validateExistingSession_keeps_users | intros b].
      destruct (negb b);
        (apply keeps_bind; [apply Hset; reflexivity | intros _; apply keeps_ret]).
  - intros error.
    apply keeps_bind;
      [destruct (includes "timeout" (message error) || includes "network" (message error));
       apply Hset; reflexivity | intros _].
    apply keeps_bind; [apply Hset; reflexivity | intros _].
    apply keeps_bind; [apply Hset; reflexivity | intros _; apply keeps_ret].
Qed.

End UsersKept.

Section JoinForm.
Import Supabase AuthContext Outcomes ProfileSpec ProvisionSpec Accounts PostAuth.

Lemma checkAuthStatus_returns c : exists b c', checkAuthStatus c = (Return b, c').
Proof.
  pose proof (checkAuthStatus_ends c c (fun H => H)) as H.
  destruct (checkAuthStatus c) as [[b | e |] c']; cbn [fst snd ends] in H;
    [eauto | contradiction | contradiction].
Qed.

Lemma getOrganizationByJoinCode_returns joinCode n :
  exists r n', getOrganizationByJoinCode joinCode n = (Return r, n').
Proof.
  unfold getOrganizationByJoinCode, try_catch.
  destruct (negb (truthy (trim joinCode))); [eexists _, _; reflexivity |].
  unfold bind, race_timeout, org_lookup, request.
  destruct (next_fault n); cbn [fst snd answer resp_error resp_data];
    eexists _, _; reflexivity.
Qed.

(** A successful provisioning leaves the profile in place. *)
Lemma provisioned_row u joinCode role n :
  match createUserProfileFromOAuth (Some u) joinCode role n with
  | (Return None, n') => find_row (user_id u) n' <> None
  | (Throw _, _) => False
  | _ => True
  end.
Proof.
  pose proof (createUserProfileFromOAuth_ends u joinCode role n n
                (conj eq_refl eq_refl)) as H.
  destruct (createUserProfileFromOAuth (Some u) joinCode role n) as [[[msg |] | e |] n'];
    cbn [fst snd ends] in H; try exact I; [apply H | contradiction].
Qed.

Variables (authenticated : User) (s0 : PostAuth.State).

Local Notation "'Idle'" :=
  (fun s => navigated s = navigated s0 /\ serverError s = None).
Local Notation "'Waits'" := (fun s => navigated s = navigated s0).
Local Notation "'Done'" :=
  (fun (_ : unit) s => turned_down s0 s \/ PostAuth.joined authenticated s0 s).

Lemma page_lift_db {A} (m : M Supabase.State A) (I : PostAuth.State -> Prop) :
  (forall c s, I s ->
     I (PostAuth.mkState c (PostAuth.user s) (form_joinCode s) (form_role s)
          (errors s) (serverError s) (isSubmitting s) (navigated s))) ->
  hoare I (PostAuth.lift (AuthContext.lift m)) (ends (fun _ => I) I I).
Proof.
  intros HI s Hs. unfold PostAuth.lift, AuthContext.lift.
  destruct (m (net (ctx s))) as [[a | e |] n]; cbn [fst snd ends]; now apply HI.
Qed.

Lemma refuse_down msg (I : PostAuth.State -> Prop) :
  (forall s, I s -> navigated s = navigated s0) ->
  hoare I (PostAuth.setServerError (Some msg)) (ends Done Waits Waits).
Proof.
  intros HI. apply ends_modify. intros s Hs. left.
  split; [exact (HI s Hs) | left; eexists; reflexivity].
Qed.

Lemma handleSubmit_body joinCode role :
  hoare Idle
    (if negb (truthy joinCode && truthy role) then
       setErrors (issues joinCode role)
     else
       setErrors no_errors ;;
       modify (setIsSubmitting true) ;;
       org <- PostAuth.lift (AuthContext.lift (getOrganizationByJoinCode joinCode)) ;;
       match lookup_error org, found_org org with
       | None, Some orgData =>
           profileError <-
             PostAuth.lift (AuthContext.lift
                              (createUserProfileFromOAuth (Some authenticated)
                                 joinCode (Some role))) ;;
           match profileError with
           | Some msg =>
               PostAuth.setServerError
                 (Some (or_else msg "Failed to join organization. Please try again."))
           | None =>
               PostAuth.lift AuthContext.checkAuthStatus ;;
               navigate "/org-home"
           end
       | _, _ =>
           PostAuth.setServerError
             (Some "Invalid join code. Please check and try again.")
       end)
    (ends Done Waits Waits).
Proof.
  destruct (truthy joinCode && truthy role) eqn:Hvalid; cbn [negb].
  - eapply ends_bind with (R1 := fun _ => Idle).
    { apply ends_modify. intros s Hs. exact Hs. }
    intros _. eapply ends_bind with (R1 := fun _ => Idle).
    { apply ends_modify. intros s Hs. exact Hs. }
    intros _. eapply ends_bind with (R1 := fun _ => Idle).
    { eapply hoare_conseq; [apply (page_lift_db _ Idle); intros c s H; exact H | auto |].
      intros [a | e |] s H; cbn [ends] in *; [exact H | apply H | apply H]. }
    intros org.
    assert (Hdown : forall msg, hoare Idle (PostAuth.setServerError (Some msg))
                                  (ends Done Waits Waits)).
    { intros msg. apply refuse_down. intros s Hs. apply Hs. }
    destruct (lookup_error org); [apply Hdown |].
    destruct (found_org org) as [orgData |]; [| apply Hdown].
    eapply ends_bind with
      (R1 := fun profileError s =>
               Idle s /\
               (profileError = None ->
                find_row (user_id authenticated) (PostAuth.db s) <> None)).
    { intros s Hs. unfold PostAuth.lift, AuthContext.lift.
      pose proof (provisioned_row authenticated joinCode (Some role) (net (ctx s))) as H.
      destruct (createUserProfileFromOAuth (Some authenticated) joinCode (Some role)
                  (net (ctx s))) as [[[msg |] | e |] n];
        cbn [fst snd ends]; try contradiction; try (apply Hs).
      - split; [exact Hs | discriminate].
      - split; [exact Hs |]. intros _. exact H. }
    intros [msg |].
    + apply refuse_down. intros s [Hs _]. apply Hs.
    + eapply ends_bind with
        (R1 := fun _ s =>
                 Idle s /\ find_row (user_id authenticated) (PostAuth.db s) <> None).
      * intros s [Hs Hrow]. specialize (Hrow eq_refl). unfold PostAuth.lift.
        destruct (checkAuthStatus_returns (ctx s)) as (b & c' & Heq).
        pose proof (checkAuthStatus_keeps_users (users (net (ctx s))) (ctx s) eq_refl)
          as Hkeep.
        rewrite Heq in *. cbn [fst snd ends] in *.
        split; [exact Hs |]. unfold PostAuth.db, find_row in *. cbn [ctx].
        now rewrite Hkeep.
      * intros _. apply ends_modify. intros s [[Hn He] Hrow]. right.
        split; [cbn [navigated]; now rewrite Hn | split; [exact He | exact Hrow]].
  - apply ends_modify. intros s [Hn _]. left. split; [exact Hn | right].
    unfold issues, no_errors. cbn [errors].
    destruct (truthy joinCode); [destruct (truthy role); [discriminate Hvalid |] |];
      discriminate.
Qed.

Lemma handleSubmit_ends :
  hoare (fun s => s = s0 /\ PostAuth.user s0 = Some authenticated) handleSubmit
    (ends (fun r s => isSubmitting s = false /\ Done r s) never Waits).
Proof.
  unfold handleSubmit.
  eapply ends_bind with
    (R1 := fun _ s => Idle s /\ PostAuth.user s = Some authenticated).
  { apply ends_modify. intros s [-> Hu]. split; [split; reflexivity | exact Hu]. }
  intros _.
  eapply ends_bind with
    (R1 := fun page s => page = s /\ Idle s /\ PostAuth.user s = Some authenticated).
  { intros s [Hs Hu]. cbn [gets fst snd ends]. auto. }
  intros page.
  apply hoare_assume with (F := PostAuth.user page = Some authenticated).
  { intros s (-> & _ & Hu). exact Hu. }
  intros Hpage. rewrite Hpage.
  eapply ends_try_finally with (R := Done) (E := never) (N := Waits);
    [| intros r s H; split; [reflexivity | exact H] | auto | auto].
  eapply ends_try_catch with (E1 := Waits).
  - eapply hoare_pre_weaken;
      [exact (handleSubmit_body (form_joinCode page) (form_role page)) |].
    intros s (_ & Hs & _). exact Hs.
  - intros _. apply ends_modify. intros s Hs. left.
    split; [exact Hs | left; eexists; reflexivity].
Qed.

End JoinForm.

Section JoinFormTheorem.
Import Supabase AuthContext Outcomes Accounts PostAuth.

(** X30. The join form redirects only once the profile exists.  With a
    signed-in user, [handleSubmit] never throws.  When it returns,
    [isSubmitting] is false and either nothing was redirected and a message
    or a field error is shown, or there was exactly one redirect, to
    [/org-home], no message is shown and the profile row of the user is in
    [users].  While it waits on a request that hangs, nothing was
    redirected. *)
Theorem join_form_redirects_with_profile authenticated s :
  PostAuth.user s = Some authenticated ->
  let s' := snd (handleSubmit s) in
  match fst (handleSubmit s) with
  | Return _ =>
      isSubmitting s' = false /\
      (turned_down s s' \/ PostAuth.joined authenticated s s')
  | Throw _ => False
  | Pending => navigated s' = navigated s
  end.
Proof.
  intros Hu.
  pose proof (handleSubmit_ends authenticated s s (conj eq_refl Hu)) as H.
  destruct (handleSubmit s) as [[r | e |] s1]; exact H.
Qed.

(** Alice, signed in and without a profile, joins Acme with its code. *)
Lemma join_form_redirects_with_profile_witness :
  let s := PostAuth.mkState
             (AuthContext.mkState (AuthExamples.unprovisioned []) None None false None 0)
             (Some AuthExamples.alice) "ACME-2024" "member" no_errors None false [] in
  let s' := snd (handleSubmit s) in
  match fst (handleSubmit s) with
  | Return _ =>
      isSubmitting s' = false /\
      (turned_down s s' \/ PostAuth.joined AuthExamples.alice s s')
  | Throw _ => False
  | Pending => navigated s' = navigated s
  end.
Proof.
  apply (join_form_redirects_with_profile AuthExamples.alice). reflexivity.
Defined.

End JoinFormTheorem.
